(** * mouse-humanizer: the web movement executor and the keyboard humanizer

    A shallow embedding of
    - [MOUSE_MAIN_LINUX/humancursor/utilities/web_adjuster.py]
      ([WebAdjuster._generate_human_curve], [WebAdjuster._execute_web_movement]);
    - [Keyboard_humanizer/core/humanizer.py] ([KeyboardHumanizer]).

    Conventions.
    - Python floats are modelled by exact rationals ([Q]); [int(x)] on a float
      is truncation toward zero ([py_int]).
    - Python [str] values are lists of characters; a character is a code
      point below 256 ([ascii]).
    - [random.random()] reads the next element of an injected stream of draws
      in [[0,1)]; [time.time()] reads an explicit clock and [time.sleep] is
      an event of a trace.
    - Exceptions are explicit outcomes; what is printed is left out. *)

From Stdlib Require Import ZArith QArith Qround Qabs Lia Lqa Bool List Ascii String.
From stdpp Require Import base option list gmap strings.

Local Open Scope Z_scope.

(** ** Python numerics *)

Module Py.

(** [int(x)] for a float [x]: the integer part, rounded toward zero. *)
Definition py_int (x : Q) : Z := Z.quot (Qnum x) (Zpos (Qden x)).

(** [a < b] on floats, as a boolean. *)
Definition Qltb (a b : Q) : bool := negb (Qle_bool b a).

(** [abs(x)]. *)
Definition py_abs (x : Q) : Q := Qabs x.

(** [round(x)]: nearest integer, ties to the even one. *)
Definition py_round (x : Q) : Z :=
  let f := Qfloor x in
  let r := (x - inject_Z f)%Q in
  if Qltb r (1 # 2) then f
  else if Qltb (1 # 2) r then f + 1
  else if Z.even f then f else f + 1.

(** A float: a finite number, an infinity or a NaN. *)
Inductive PyFloat :=
| Finite (value : Q)
| Infinity (negative : bool)
| NaN.

(** The magnitude from which a number is too large for a float: halfway
    between the largest float and [2 ** 1024]. *)
Definition float_overflow : Z := 2 ^ 1024 - 2 ^ 970.

Definition overflows (x : Q) : bool :=
  Qle_bool (inject_Z float_overflow) (Qabs x).

End Py.

Import Py.

(** ** The trajectory generator *)

Module HumanCurve.

(** A trajectory point: a pair of floats. *)
Definition Point : Type := Q * Q.

(** Exact equality of two points, as numbers. *)
Definition point_eq (p q : Point) : Prop :=
  (fst p == fst q)%Q /\ (snd p == snd q)%Q.

Definition point_eqb (p q : Point) : bool :=
  Qeq_bool (fst p) (fst q) && Qeq_bool (snd p) (snd q).

(** The eight values that [generate_random_curve_parameters] returns and that
    [HumanizeMouseTrajectory] takes as keyword arguments. The tween is an
    easing function on the normalized progress. *)
Record CurveParameters := {
  offset_boundary_x : Q;
  offset_boundary_y : Q;
  knots_count : Z;
  distortion_mean : Q;
  distortion_st_dev : Q;
  distortion_frequency : Q;
  tween : Q -> Q;
  target_points : Z
}.

Definition Trajectory : Type := list Point.

Inductive ConfigurationError := InvalidParameters.

(** Modelled from the spec: the injected source of randomness of section
    4.1 (the generator's file is not among the sources), as a stream of
    uniform draws in [[0,1)] and a stream of standard normal draws. *)
Record RandomSource := {
  uniforms : nat -> Q;
  normals : nat -> Q
}.

(** Modelled from the spec: [sample_bool(probability)] and
    [sample_gaussian(mean, stddev)] of section 4.1, on a draw of the source. *)
Definition sample_bool (probability u : Q) : bool :=
  negb (Qle_bool probability u).

Definition sample_gaussian (mean stddev g : Q) : Q := (mean + stddev * g)%Q.

Definition Qleb0 (x : Q) : bool := Qle_bool 0 x.

(** Modelled from the spec: the invariant of the curve parameters in
    section 3, all magnitude fields are at least zero. *)
Definition magnitudes_ok (p : CurveParameters) : bool :=
  Qleb0 (offset_boundary_x p) && Qleb0 (offset_boundary_y p)
  && (0 <=? knots_count p)
  && Qleb0 (distortion_mean p) && Qleb0 (distortion_st_dev p)
  && Qleb0 (distortion_frequency p).

(** Modelled from the spec: step 3 of section 4.3, exactly [n] samples of
    the curve, the tween turning the normalized progress [i / (n - 1)] into
    the place on the curve. *)
Definition progress (n i : nat) : Q :=
  (inject_Z (Z.of_nat i) / inject_Z (Z.of_nat (n - 1)))%Q.

Definition resample (curve : Q -> Point) (ease : Q -> Q) (n : nat)
  : list Point :=
  List.map (fun i => curve (ease (progress n i))) (seq 0 n).

(** Modelled from the spec: step 4 of section 4.3, with probability
    [distortion_frequency] a sample receives an independent jitter on each
    axis; the final sample never does. *)
Definition jitter (p : CurveParameters) (rng : RandomSource) (i : nat)
    (sample : Point) : Point :=
  if sample_bool (distortion_frequency p) (uniforms rng i)
  then (fst sample + sample_gaussian (distortion_mean p) (distortion_st_dev p)
                       (normals rng (2 * i)),
        snd sample + sample_gaussian (distortion_mean p) (distortion_st_dev p)
                       (normals rng (2 * i + 1)))%Q
  else sample.

Fixpoint distort_from (p : CurveParameters) (rng : RandomSource) (i : nat)
    (samples : list Point) : list Point :=
  match samples with
  | [] => []
  | [final] => [final]
  | sample :: rest => jitter p rng i sample :: distort_from p rng (S i) rest
  end.

Definition distort (p : CurveParameters) (rng : RandomSource)
    (samples : list Point) : list Point :=
  distort_from p rng 0 samples.

(** Modelled from the spec: step 5 of section 4.3, the first sample is
    replaced by the origin and the last one by the destination. *)
Definition force_endpoints (origin destination : Point) (samples : list Point)
  : Trajectory :=
  origin :: removelast (tail samples) ++ [destination].

(** Modelled from the spec: step 6 of section 4.3, an excursion past the
    target (empty when none is drawn), followed by the way back to the
    target. *)
Definition with_overshoot (destination : Point) (excursion : list Point)
    (t : Trajectory) : Trajectory :=
  match excursion with
  | [] => t
  | _ => t ++ excursion ++ [destination]
  end.

Section Generator.

(** Steps 1 and 2 of the generator: the curve fitted through the origin, the
    knots perturbed within the offset boundaries, and the destination, as a
    function of the place in [[0,1]]. The spec leaves the curve family open;
    the generator is stated over any such curve. *)
Variable fitted_curve :
  Point -> Point -> CurveParameters -> RandomSource -> Q -> Point.

(** The excursion of step 6 (empty when no overshoot is drawn). *)
Variable overshoot :
  Point -> Point -> CurveParameters -> RandomSource -> list Point.

(** Modelled from the spec: [HumanizeMouseTrajectory]
    (humancursor/utilities/human_curve_generator.py) is not among the
    sources. Section 4.3: invalid parameters are reported as a configuration
    error; origin = destination gives the single shared point; otherwise the
    fitted curve is resampled to [target_points] samples along the tween
    (step 3), the samples but the final one are jittered (step 4), the
    endpoints are forced (step 5) and an optional overshoot goes past the
    target and back (step 6). *)
Definition HumanizeMouseTrajectory (origin destination : Point)
    (p : CurveParameters) (rng : RandomSource)
  : ConfigurationError + Trajectory :=
  if negb (magnitudes_ok p) then inl InvalidParameters
  else if point_eqb origin destination then inr [origin]
  else if target_points p <? 2 then inl InvalidParameters
  else
    let samples :=
      resample (fitted_curve origin destination p rng) (tween p)
               (Z.to_nat (target_points p)) in
    inr (with_overshoot destination (overshoot origin destination p rng)
           (force_endpoints origin destination (distort p rng samples))).

End Generator.

(** The distance of a point from the line through [origin] and
    [destination], times the length of the segment between them. *)
Definition cross (origin destination p : Point) : Q :=
  ((fst destination - fst origin) * (snd p - snd origin)
   - (snd destination - snd origin) * (fst p - fst origin))%Q.

Definition norm2 (origin destination : Point) : Q :=
  ((fst destination - fst origin) * (fst destination - fst origin)
   + (snd destination - snd origin) * (snd destination - snd origin))%Q.

(** [p] is at most [eps] away from the line through [origin] and
    [destination]. *)
Definition within (eps : Q) (origin destination p : Point) : Prop :=
  (0 <= eps)%Q
  /\ (cross origin destination p * cross origin destination p
      <= eps * eps * norm2 origin destination)%Q.

End HumanCurve.

(** ** WebAdjuster: executing a trajectory as integer relative moves *)

Module WebAdjuster.

Import HumanCurve.

(** [self._linux_optimizations], as [_detect_linux_optimizations] fills it. *)
Record LinuxOptimizations := {
  use_native_events : bool;
  reduce_polling : bool;
  optimize_for_headless : bool
}.

(** Lines 196 to 204 of [_generate_human_curve]: what [steady] and the
    headless optimization do to the parameters that were drawn. *)
Definition adjust_parameters (steady : bool) (opts : LinuxOptimizations)
    (p : CurveParameters) : CurveParameters :=
  let '(obx, oby) :=
    if steady then (10, 10)%Q else (offset_boundary_x p, offset_boundary_y p) in
  let '(dm, ds, df) :=
    if steady then (12 # 10, 12 # 10, 1 # 10)%Q
    else (distortion_mean p, distortion_st_dev p, distortion_frequency p) in
  let '(kc, tp) :=
    if optimize_for_headless opts
    then (Z.min (knots_count p) 3, Z.min (target_points p) 30)
    else (knots_count p, target_points p) in
  {| offset_boundary_x := obx;
     offset_boundary_y := oby;
     knots_count := kc;
     distortion_mean := dm;
     distortion_st_dev := ds;
     distortion_frequency := df;
     tween := tween p;
     target_points := tp |}.

Section GenerateHumanCurve.

Variable fitted_curve :
  Point -> Point -> CurveParameters -> RandomSource -> Q -> Point.
Variable overshoot :
  Point -> Point -> CurveParameters -> RandomSource -> list Point.

(** The keyword defaults of [HumanizeMouseTrajectory(origin, destination)],
    declared in the generator's file. *)
Variable default_parameters : CurveParameters.

(** [_generate_human_curve]. [drawn] is what
    [generate_random_curve_parameters(self.__driver, origin, destination)]
    returned ([None] when it raised); an exception in the [try] block leads
    to the fallback with the default parameters. *)
Definition _generate_human_curve (opts : LinuxOptimizations)
    (drawn : option CurveParameters) (origin destination : Point)
    (steady : bool) (rng : RandomSource) : ConfigurationError + Trajectory :=
  let fallback :=
    HumanizeMouseTrajectory fitted_curve overshoot origin destination
      default_parameters rng in
  match drawn with
  | None => fallback
  | Some p =>
      match HumanizeMouseTrajectory fitted_curve overshoot origin destination
              (adjust_parameters steady opts p) rng with
      | inr t => inr t
      | inl _ => fallback
      end
  end.

End GenerateHumanCurve.

(** A relative move handed to [ActionChains.move_by_offset]. *)
Definition Move : Type := Z * Z.

(** The local variables of [_execute_web_movement], with the queue of the
    action chain ([actions], oldest first). *)
Record exec_state := {
  extra_numbers : Q * Q;
  total_offset : Z * Z;
  current_origin : Q * Q;
  movements : list Move;
  actions : list Move
}.

(** What [self.__action.perform()] (and the fallback in the handler of
    [MoveTargetOutOfBoundsException]) did. *)
Inductive perform_result :=
| Performed
| OutOfBounds (fallback_ok : bool)
| DriverFailure.

(** [for move_x, move_y in movements: if move_x != 0 or move_y != 0:
    self.__action.move_by_offset(move_x, move_y)]. *)
Definition nonzero_move (m : Move) : bool :=
  negb (fst m =? 0) || negb (snd m =? 0).

Definition flush_batch (acts ms : list Move) : list Move :=
  acts ++ List.filter nonzero_move ms.

(** The carry of the loop body: the remainders are moved out as soon as one
    of them exceeds one pixel in absolute value. The two [elif] arms of the
    source are kept as they are written. *)
Definition carry (st : exec_state) : exec_state :=
  let '(ex, ey) := extra_numbers st in
  let '(tx, ty) := total_offset st in
  if Qltb 1 (py_abs ex) || Qltb 1 (py_abs ey) then
    {| extra_numbers := (ex - inject_Z (py_int ex), ey - inject_Z (py_int ey))%Q;
       total_offset := (tx + py_int ex, ty + py_int ey);
       current_origin := current_origin st;
       movements := movements st ++ [(py_int ex, py_int ey)];
       actions := actions st |}
  else if Qltb 1 (py_abs ex) then
    {| extra_numbers := (ex - inject_Z (py_int ex), ey)%Q;
       total_offset := (tx + py_int ex, ty);
       current_origin := current_origin st;
       movements := movements st ++ [(py_int ex, 0)];
       actions := actions st |}
  else if Qltb 1 (py_abs ey) then
    {| extra_numbers := (ex, ey - inject_Z (py_int ey))%Q;
       total_offset := (tx, ty + py_int ey);
       current_origin := current_origin st;
       movements := movements st ++ [(0, py_int ey)];
       actions := actions st |}
  else st.

(** One iteration of [for i, point in enumerate(human_curve.points)];
    [last] says whether [i == len(human_curve.points) - 1]. *)
Definition hop (batch_size : nat) (st : exec_state) (point : Point) (last : bool)
  : exec_state :=
  let x_offset := (fst point - fst (current_origin st))%Q in
  let y_offset := (snd point - snd (current_origin st))%Q in
  let st1 :=
    carry {| extra_numbers :=
               (fst (extra_numbers st) + (x_offset - inject_Z (py_int x_offset)),
                snd (extra_numbers st) + (y_offset - inject_Z (py_int y_offset)))%Q;
             total_offset := total_offset st;
             current_origin := current_origin st;
             movements := movements st;
             actions := actions st |} in
  let ms := movements st1 ++ [(py_int x_offset, py_int y_offset)] in
  let run := (batch_size <=? length ms)%nat || last in
  {| extra_numbers := extra_numbers st1;
     total_offset := (fst (total_offset st1) + py_int x_offset,
                      snd (total_offset st1) + py_int y_offset);
     current_origin := point;
     movements := if run then [] else ms;
     actions := if run then flush_batch (actions st1) ms else actions st1 |}.

Fixpoint hops (batch_size : nat) (st : exec_state) (points : list Point)
  : exec_state :=
  match points with
  | [] => st
  | point :: rest =>
      hops batch_size
           (hop batch_size st point (match rest with [] => true | _ => false end))
           rest
  end.

(** [# Handle remaining fractional movements]. *)
Definition final_flush (st : exec_state) : exec_state :=
  let '(ex, ey) := extra_numbers st in
  if Qltb (1 # 2) (py_abs ex) || Qltb (1 # 2) (py_abs ey) then
    let final_x := py_int (ex + (1 # 2)) in
    let final_y := py_int (ey + (1 # 2)) in
    {| extra_numbers := extra_numbers st;
       total_offset := (fst (total_offset st) + final_x,
                        snd (total_offset st) + final_y);
       current_origin := current_origin st;
       movements := movements st;
       actions := actions st ++ [(final_x, final_y)] |}
  else st.

Definition initial_state (origin : Z * Z) : exec_state :=
  {| extra_numbers := (0, 0)%Q;
     total_offset := (0, 0);
     current_origin := (inject_Z (fst origin), inject_Z (snd origin));
     movements := [];
     actions := [] |}.

(** The state when [perform()] is reached. *)
Definition run_movement (opts : LinuxOptimizations) (points : list Point)
    (origin : Z * Z) : exec_state :=
  let batch_size := if reduce_polling opts then 3%nat else 1%nat in
  final_flush (hops batch_size (initial_state origin) points).

(** [_execute_web_movement]: the moves queued on the action chain and the
    coordinates returned. *)
Definition _execute_web_movement (opts : LinuxOptimizations) (points : list Point)
    (origin destination : Z * Z) (outcome : perform_result)
  : list Move * (Z * Z) :=
  match points with
  | [] => ([], destination)
  | _ =>
      let st := run_movement opts points origin in
      (actions st,
       match outcome with
       | Performed =>
           (fst origin + fst (total_offset st), snd origin + snd (total_offset st))
       | OutOfBounds true => destination
       | OutOfBounds false => origin
       | DriverFailure => origin
       end)
  end.

(** Sums of the emitted steps. *)
Definition sum_dx (ms : list Move) : Z := fold_right Z.add 0 (List.map fst ms).
Definition sum_dy (ms : list Move) : Z := fold_right Z.add 0 (List.map snd ms).

(** What has been handed over or is waiting in the batch. *)
Definition emitted (st : exec_state) : list Move := actions st ++ movements st.

(** The quantities that the loop keeps: on each axis, the integer total plus
    the remainder follows the current point, and the total is the sum of the
    moves emitted so far. *)
Record conserved (st st' : exec_state) : Prop := {
  cons_x : (inject_Z (fst (total_offset st')) + fst (extra_numbers st')
              - fst (current_origin st')
            == inject_Z (fst (total_offset st)) + fst (extra_numbers st)
              - fst (current_origin st))%Q;
  cons_y : (inject_Z (snd (total_offset st')) + snd (extra_numbers st')
              - snd (current_origin st')
            == inject_Z (snd (total_offset st)) + snd (extra_numbers st)
              - snd (current_origin st))%Q;
  cons_dx : sum_dx (emitted st') - fst (total_offset st')
            = sum_dx (emitted st) - fst (total_offset st);
  cons_dy : sum_dy (emitted st') - snd (total_offset st')
            = sum_dy (emitted st) - snd (total_offset st)
}.

End WebAdjuster.

(** ** Python strings *)

Module Str.

(** A [str]: its characters in order. *)
Definition str : Type := list ascii.

(** A literal. *)
Definition lit (s : string) : str := list_ascii_of_string s.

Definition code (c : ascii) : nat := nat_of_ascii c.

(** [c.isspace()] on the code points below 256: TAB to CR, FS to US, the
    space, NEL and the no-break space. *)
Definition isspace (c : ascii) : bool :=
  let n := code c in
  ((9 <=? n) && (n <=? 13) || (28 <=? n) && (n <=? 32)
   || (n =? 133) || (n =? 160))%nat.

(** [c.lower()] on the code points below 256. *)
Definition lower_char (c : ascii) : ascii :=
  let n := code c in
  if ((65 <=? n) && (n <=? 90)
      || (192 <=? n) && (n <=? 222) && negb (n =? 215))%nat
  then ascii_of_nat (n + 32) else c.

Definition lower (s : str) : str := List.map lower_char s.

Fixpoint lstrip (s : str) : str :=
  match s with
  | c :: rest => if isspace c then lstrip rest else s
  | [] => []
  end.

Definition rstrip (s : str) : str := rev (lstrip (rev s)).

(** [s.strip()]. *)
Definition strip (s : str) : str := rstrip (lstrip s).

Definition ascii_eqb (a b : ascii) : bool := Ascii.eqb a b.

Fixpoint startswith (s sub : str) : bool :=
  match sub, s with
  | [], _ => true
  | _ :: _, [] => false
  | a :: sub', b :: s' => ascii_eqb a b && startswith s' sub'
  end.

(** [sub in s]. *)
Fixpoint contains (sub s : str) : bool :=
  startswith s sub ||
  match s with
  | [] => false
  | _ :: rest => contains sub rest
  end.

(** [s.split()]: the maximal runs of characters that are not whitespace.
    [word] is the run being read, in reverse. *)
Fixpoint split_from (word : str) (s : str) : list str :=
  match s with
  | [] => match word with [] => [] | _ => [rev word] end
  | c :: rest =>
      if isspace c
      then match word with
           | [] => split_from [] rest
           | _ => rev word :: split_from [] rest
           end
      else split_from (c :: word) rest
  end.

Definition split (s : str) : list str := split_from [] s.

(** [any(indicator in text for indicator in indicators)]. *)
Definition any_in (indicators : list string) (text : str) : bool :=
  existsb (fun indicator => contains (lit indicator) text) indicators.

End Str.

(** ** KeyboardHumanizer *)

Module Keyboard.

Import Str.

(** Modelled from the spec: the counters of [TypingStats], which is declared
    in core/typing_engine.py, not among the sources; the fields are those of
    the data model in section 3. *)
Record TypingStats := {
  characters_typed : Z;
  words_typed : Z;
  errors_made : Z;
  corrections_made : Z
}.

(** Modelled from the spec: the constructor [TypingStats()] of the absent
    core/typing_engine.py; a fresh value has zeroed counters. *)
Definition new_TypingStats : TypingStats :=
  {| characters_typed := 0; words_typed := 0;
     errors_made := 0; corrections_made := 0 |}.

(** The attributes of [TypingEngine] that the humanizer reads or writes. *)
Record TypingEngine := {
  base_wpm : Q;
  error_rate : Q;
  session_start : Q;
  fatigue_level : Q;
  stats : TypingStats;
  recent_chars : list ascii;
  recent_timings : list Q
}.

Record KeyboardHumanizer := {
  engine : TypingEngine;
  simulate_errors : bool;
  auto_correct : bool;
  use_copy_paste : bool;
  add_thinking_pauses : bool;
  simulate_fatigue : bool;
  context_aware : bool
}.

(** The ambient modules [random] and [time]: the stream that
    [random.random()] reads with the number of draws made, and the clock. *)
Record Env := {
  draws : nat -> Q;
  cursor : nat;
  clock : Q
}.

(** What the humanizer does to the outside. *)
Inductive Event :=
| Sleep (seconds : Q)
| EngineTypeText (sentence : str) (copy_paste : bool)
| EngineSpontaneousCorrection (sentence : str).

Record State := {
  self : KeyboardHumanizer;
  env : Env;
  trace : list Event
}.

(** A call returns a value or raises. *)
Inductive outcome (A : Type) :=
| Returned (a : A)
| Raised.
Arguments Returned {A} a.
Arguments Raised {A}.

(** Computations of the humanizer. *)
Definition M (A : Type) : Type := State -> outcome A * State.

Definition ret {A} (a : A) : M A := fun st => (Returned a, st).

Definition bind {A B} (c : M A) (k : A -> M B) : M B :=
  fun st =>
    match c st with
    | (Returned a, st') => k a st'
    | (Raised, st') => (Raised, st')
    end.

Declare Scope py_scope.
Delimit Scope py_scope with py.
Notation "x <- c ;; k" := (bind c (fun x => k))
  (at level 100, c at next level, right associativity) : py_scope.
Notation "c ;; k" := (bind c (fun _ => k))
  (at level 100, right associativity) : py_scope.
Local Open Scope py_scope.

(** [try: body finally: handler]. *)
Definition try_finally {A} (body : M A) (handler : M unit) : M A :=
  fun st =>
    let '(r, st1) := body st in
    match handler st1 with
    | (Returned _, st2) => (r, st2)
    | (Raised, st2) => (Raised, st2)
    end.

Definition get : M State := fun st => (Returned st, st).

(** [raise]. *)
Definition raise {A} : M A := fun st => (Raised, st).

Definition modify_self (f : KeyboardHumanizer -> KeyboardHumanizer) : M unit :=
  fun st => (Returned tt, {| self := f (self st); env := env st; trace := trace st |}).

Definition set_engine (f : TypingEngine -> TypingEngine) (h : KeyboardHumanizer)
  : KeyboardHumanizer :=
  {| engine := f (engine h);
     simulate_errors := simulate_errors h;
     auto_correct := auto_correct h;
     use_copy_paste := use_copy_paste h;
     add_thinking_pauses := add_thinking_pauses h;
     simulate_fatigue := simulate_fatigue h;
     context_aware := context_aware h |}.

Definition set_base_wpm (v : Q) (e : TypingEngine) : TypingEngine :=
  {| base_wpm := v; error_rate := error_rate e;
     session_start := session_start e; fatigue_level := fatigue_level e;
     stats := stats e; recent_chars := recent_chars e;
     recent_timings := recent_timings e |}.

Definition set_error_rate (v : Q) (e : TypingEngine) : TypingEngine :=
  {| base_wpm := base_wpm e; error_rate := v;
     session_start := session_start e; fatigue_level := fatigue_level e;
     stats := stats e; recent_chars := recent_chars e;
     recent_timings := recent_timings e |}.

Definition set_fatigue_level (v : Q) (e : TypingEngine) : TypingEngine :=
  {| base_wpm := base_wpm e; error_rate := error_rate e;
     session_start := session_start e; fatigue_level := v;
     stats := stats e; recent_chars := recent_chars e;
     recent_timings := recent_timings e |}.

(** [getattr(self, key)] and [setattr(self, key, value)] on the boolean
    settings. *)
Definition getattr (h : KeyboardHumanizer) (key : string) : option bool :=
  if String.eqb key "simulate_errors" then Some (simulate_errors h)
  else if String.eqb key "auto_correct" then Some (auto_correct h)
  else if String.eqb key "use_copy_paste" then Some (use_copy_paste h)
  else if String.eqb key "add_thinking_pauses" then Some (add_thinking_pauses h)
  else if String.eqb key "simulate_fatigue" then Some (simulate_fatigue h)
  else if String.eqb key "context_aware" then Some (context_aware h)
  else None.

Definition setattr (h : KeyboardHumanizer) (key : string) (value : bool)
  : KeyboardHumanizer :=
  {| engine := engine h;
     simulate_errors :=
       if String.eqb key "simulate_errors" then value else simulate_errors h;
     auto_correct :=
       if String.eqb key "auto_correct" then value else auto_correct h;
     use_copy_paste :=
       if String.eqb key "use_copy_paste" then value else use_copy_paste h;
     add_thinking_pauses :=
       if String.eqb key "add_thinking_pauses" then value else add_thinking_pauses h;
     simulate_fatigue :=
       if String.eqb key "simulate_fatigue" then value else simulate_fatigue h;
     context_aware :=
       if String.eqb key "context_aware" then value else context_aware h |}.

(** [random.random()]. *)
Definition random : M Q :=
  fun st =>
    let e := env st in
    (Returned (draws e (cursor e)),
     {| self := self st;
        env := {| draws := draws e; cursor := S (cursor e); clock := clock e |};
        trace := trace st |}).

(** [random.uniform(a, b)]: [a + (b - a) * random()]. *)
Definition uniform (a b : Q) : M Q :=
  r <- random ;; ret (a + (b - a) * r)%Q.

(** [time.time()]. *)
Definition time : M Q := fun st => (Returned (clock (env st)), st).

(** [time.sleep(seconds)]. *)
Definition sleep (seconds : Q) : M unit :=
  fun st =>
    let e := env st in
    (Returned tt,
     {| self := self st;
        env := {| draws := draws e; cursor := cursor e;
                  clock := (clock e + seconds)%Q |};
        trace := trace st ++ [Sleep seconds] |}).

(** The keyword arguments of [type_text]: the boolean overrides by name, and
    [speed_multiplier]. *)
Record Kwargs := {
  flags : gmap string bool;
  speed_multiplier : option PyFloat
}.

(** [int(base_wpm * speed_multiplier)]: [None] when it raises. [int] raises
    on an infinity (OverflowError) and on a NaN (ValueError); the product is
    one of them when the multiplier is, and an infinity when it is too large
    for a float; a whole [base_wpm] that is too large for a float cannot be
    multiplied by one (OverflowError). *)
Definition scaled_wpm (wpm : Q) (multiplier : PyFloat) : option Q :=
  match multiplier with
  | Finite m =>
      if overflows wpm || overflows (wpm * m) then None
      else Some (inject_Z (py_int (wpm * m)))
  | Infinity _ => None
  | NaN => None
  end.

(** ** Context classification *)

Definition code_indicators : list string :=
  ["def "; "class "; "import "; "from "; "if "; "for "; "while ";
   "{"; "}"; "["; "]"; "()"; "=>"; "=="; "!="; "&&"; "||";
   "function"; "const"; "let"; "var"; "return"]%string.

Definition _is_code_text (text : str) : bool := any_in code_indicators text.

Definition email_indicators : list string :=
  ["@"; "Dear"; "Sincerely"; "Best regards"; "Hi "; "Hello";
   "Subject:"; "From:"; "To:"; ".com"; ".org"; ".net"]%string.

Definition _is_email_text (text : str) : bool := any_in email_indicators text.

Definition formal_indicators : list string :=
  ["furthermore"; "therefore"; "consequently"; "moreover";
   "however"; "nevertheless"; "accordingly"; "thus"]%string.

Definition _is_formal_text (text : str) : bool :=
  any_in formal_indicators (lower text).

(** [len(set(words))]. *)
Definition unique_count (words : list str) : nat :=
  size (list_to_set words : gset str).

Definition _has_repetitive_content (text : str) : bool :=
  let words := split text in
  if (length words <? 5)%nat then false
  else
    Qltb (inject_Z (Z.of_nat (unique_count words)) / inject_Z (Z.of_nat (length words)))
         (7 # 10).

(** [_adapt_to_context]: the first matching kind of text decides. *)
Definition _adapt_to_context (text : str) (h : KeyboardHumanizer)
  : KeyboardHumanizer :=
  let e := engine h in
  if _is_code_text text then
    set_engine (fun e =>
      set_error_rate (error_rate e * (7 # 10))
        (set_base_wpm (inject_Z (py_int (base_wpm e * (8 # 10)))) e)) h
  else if _is_email_text text then
    setattr h "use_copy_paste" true
  else if _is_formal_text text then
    set_engine (fun e =>
      set_error_rate (error_rate e * (8 # 10))
        (set_base_wpm (inject_Z (py_int (base_wpm e * (9 # 10)))) e)) h
  else if _has_repetitive_content text then
    setattr
      (set_engine (fun e =>
         set_base_wpm (inject_Z (py_int (base_wpm e * (12 # 10)))) e) h)
      "use_copy_paste" true
  else h.

(** The tags of a text. *)
Record ContextTags := {
  code_like : bool;
  email_like : bool;
  formal : bool;
  repetitive : bool
}.

Definition classify (text : str) : ContextTags :=
  {| code_like := _is_code_text text;
     email_like := _is_email_text text;
     formal := _is_formal_text text;
     repetitive := _has_repetitive_content text |}.

(** ** Sentences *)

Definition is_terminal (c : ascii) : bool := contains [c] (lit ".!?").

(** The loop of [_split_into_sentences] over [sentences] and [current]. *)
Definition split_step (acc : list str * str) (char : ascii) : list str * str :=
  let '(sentences, current) := acc in
  let current := current ++ [char] in
  if is_terminal char && (3 <? length (strip current))%nat
  then (sentences ++ [strip current], [])
  else (sentences, current).

Definition _split_into_sentences (text : str) : list str :=
  let '(sentences, current) := fold_left split_step text ([], []) in
  let sentences :=
    match strip current with
    | [] => sentences
    | _ => sentences ++ [strip current]
    end in
  match sentences with
  | [] => [text]
  | _ => sentences
  end.

(** The loop cuts after having read [fragment]: its last character is a
    terminal one and, stripped, it is longer than three characters. *)
Definition cuts (fragment : str) : bool :=
  match last fragment with
  | Some c => is_terminal c && (3 <? length (strip fragment))%nat
  | None => false
  end.

(** [r] is cut at its end and nowhere before. *)
Definition cut_at_end_only (r : str) : Prop :=
  cuts r = true
  /\ forall p q, r = p ++ q -> p <> [] -> q <> [] -> cuts p = false.

(** No cut happens while [t] is read. *)
Definition never_cut (t : str) : Prop :=
  forall p q, t = p ++ q -> p <> [] -> cuts p = false.

(** The fragment that the tail left after the last cut gives. *)
Definition tail_fragment (t : str) : list str :=
  match strip t with
  | [] => []
  | _ => [strip t]
  end.

(** ** Fatigue and the session *)

(** Modelled from the spec: [TypingEngine.update_fatigue] of the absent
    core/typing_engine.py. Section 4.5: the fatigue level is an increasing,
    saturating function of the elapsed duration with values in [[0,1]],
    approaching 1 asymptotically. The curve chosen is [d / (d + half_time)],
    which is one half after [half_time] seconds, and 0 when no time has
    elapsed. *)
Definition fatigue_curve (half_time session_duration : Q) : Q :=
  if Qltb 0 session_duration
  then (session_duration / (session_duration + half_time))%Q
  else 0%Q.

(** Modelled from the spec: [TypingEngine.update_fatigue(session_duration)]
    stores the level that the curve gives. *)
Definition update_fatigue (half_time session_duration : Q) (e : TypingEngine)
  : TypingEngine :=
  set_fatigue_level (fatigue_curve half_time session_duration) e.

(** [reset_session]. *)
Definition reset_session : M unit :=
  now <- time ;;
  modify_self (set_engine (fun e =>
    {| base_wpm := base_wpm e;
       error_rate := error_rate e;
       session_start := now;
       fatigue_level := 0%Q;
       stats := new_TypingStats;
       recent_chars := [];
       recent_timings := [] |})).

(** ** [configure] *)

(** A value given to [configure]: a boolean or an engine. *)
Inductive ConfigValue :=
| BoolValue (value : bool)
| EngineValue (value : TypingEngine).

(** The names that [hasattr(self, key)] finds besides [engine] and the six
    settings: the methods of the class, and the names with two leading
    underscores that every object has. *)
Definition method_names : list string :=
  ["type_text"; "_adapt_to_context"; "_is_code_text"; "_is_email_text";
   "_is_formal_text"; "_has_repetitive_content"; "_update_fatigue";
   "_type_text_naturally"; "_split_into_sentences"; "_get_thinking_pause";
   "get_session_stats"; "reset_session"; "configure"; "get_current_config";
   "print_stats"]%string.

Definition is_dunder (key : string) : bool :=
  match key with
  | String a (String b _) => Ascii.eqb a "_" && Ascii.eqb b "_"
  | _ => false
  end.

(** One turn of [for key, value in kwargs.items()] in [configure]:
    [setattr(self, key, value)] when [hasattr(self, key)], nothing but a
    message otherwise. The embedding covers an engine given for [engine], a
    boolean given for a setting, and any value given for a name that the
    humanizer does not have; [None] is a call outside of it (a value of
    another kind for an attribute, a method name, a name with two leading
    underscores). *)
Definition configure_step (h : KeyboardHumanizer) (item : string * ConfigValue)
  : option KeyboardHumanizer :=
  let '(key, value) := item in
  if String.eqb key "engine" then
    match value with
    | EngineValue e => Some (set_engine (fun _ => e) h)
    | BoolValue _ => None
    end
  else
    match getattr h key, value with
    | Some _, BoolValue b => Some (setattr h key b)
    | Some _, EngineValue _ => None
    | None, _ =>
        if existsb (String.eqb key) method_names || is_dunder key
        then None
        else Some h
    end.

(** [configure], on its keyword arguments in the order given. *)
Definition configure (kwargs : list (string * ConfigValue))
    (h : KeyboardHumanizer) : option KeyboardHumanizer :=
  fold_left (fun acc item =>
               match acc with
               | Some h => configure_step h item
               | None => None
               end)
            kwargs (Some h).

(** A method of the engine: it reads and writes the engine, draws random
    numbers and lets time pass, and returns or raises. *)
Definition EngineCall (A : Type) : Type :=
  TypingEngine -> Env -> outcome A * TypingEngine * Env.

Definition call_engine {A} (ev : list Event) (op : EngineCall A) : M A :=
  fun st =>
    let '(r, e', env') := op (engine (self st)) (env st) in
    (r, {| self := set_engine (fun _ => e') (self st);
           env := env';
           trace := trace st ++ ev |}).

Section Humanizer.

(** [TypingEngine.type_text(sentence, use_copy_paste=...)] and
    [TypingEngine.add_spontaneous_correction(sentence)], of the absent
    core/typing_engine.py. *)
Variable engine_type_text : str -> bool -> EngineCall bool.
Variable engine_add_spontaneous_correction : str -> EngineCall unit.

(** The time constant of the fatigue curve. *)
Variable half_time : Q.

(** [_update_fatigue]. *)
Definition _update_fatigue : M unit :=
  now <- time ;;
  st <- get ;;
  let session_duration := (now - session_start (engine (self st)))%Q in
  modify_self (set_engine (update_fatigue half_time session_duration)).

(** [_get_thinking_pause]. *)
Definition _get_thinking_pause : M Q :=
  r <- random ;;
  if Qltb r (15 # 100) then uniform (3 # 10) (15 # 10) else ret 0%Q.

(** [# Natural pause between sentences]; [first] says whether [i == 0]. *)
Definition thinking_pause (first : bool) : M unit :=
  st <- get ;;
  if negb first && add_thinking_pauses (self st)
  then pause <- _get_thinking_pause ;;
       if Qltb 0 pause then sleep pause else ret tt
  else ret tt.

(** [# Type the sentence]. *)
Definition type_sentence (sentence : str) : M bool :=
  st <- get ;;
  call_engine [EngineTypeText sentence (use_copy_paste (self st))]
              (engine_type_text sentence (use_copy_paste (self st))).

(** [# Occasional spontaneous corrections]. *)
Definition spontaneous_correction (sentence : str) : M unit :=
  r <- random ;;
  if Qltb r (5 # 100) && (10 <? length sentence)%nat
  then call_engine [EngineSpontaneousCorrection sentence]
                   (engine_add_spontaneous_correction sentence)
  else ret tt.

(** The loop of [_type_text_naturally]. *)
Fixpoint type_sentences (first : bool) (sentences : list str) : M bool :=
  match sentences with
  | [] => ret true
  | sentence :: rest =>
      thinking_pause first ;;
      success <- type_sentence sentence ;;
      if negb success then ret false
      else spontaneous_correction sentence ;; type_sentences false rest
  end.

Definition _type_text_naturally (text : str) : M bool :=
  type_sentences true (_split_into_sentences text).

(** The keys that [type_text] accepts as temporary settings. *)
Definition override_keys : list string :=
  ["simulate_errors"; "use_copy_paste"; "add_thinking_pauses"]%string.

(** [# Apply temporary settings if provided]: one turn of the loop over the
    keys, on the dictionary [original_settings] (in insertion order) and
    the humanizer. *)
Definition override_step (kwargs : Kwargs)
    (acc : list (string * bool) * KeyboardHumanizer) (key : string)
  : list (string * bool) * KeyboardHumanizer :=
  let '(original_settings, h) := acc in
  match flags kwargs !! key, getattr h key with
  | Some value, Some old =>
      (original_settings ++ [(key, old)], setattr h key value)
  | _, _ => (original_settings, h)
  end.

Definition apply_overrides (kwargs : Kwargs) (h : KeyboardHumanizer)
  : list (string * bool) * KeyboardHumanizer :=
  fold_left (override_step kwargs) override_keys ([], h).

(** [for key, value in original_settings.items(): setattr(self, key, value)]. *)
Definition restore_settings (original_settings : list (string * bool))
    (h : KeyboardHumanizer) : KeyboardHumanizer :=
  fold_left (fun h '(key, value) => setattr h key value) original_settings h.

(** The body of the [try] block of [type_text]. *)
Definition type_text_body (text : str) : M bool :=
  st <- get ;;
  (if context_aware (self st)
   then modify_self (_adapt_to_context text) else ret tt) ;;
  st <- get ;;
  (if simulate_fatigue (self st) then _update_fatigue else ret tt) ;;
  _type_text_naturally text.

(** [type_text(text, **kwargs)]. *)
Definition type_text (text : str) (kwargs : Kwargs) : M bool :=
  st <- get ;;
  let '(original_settings, h) := apply_overrides kwargs (self st) in
  modify_self (fun _ => h) ;;
  let original_wpm := base_wpm (engine h) in
  match speed_multiplier kwargs with
  | Some m =>
      match scaled_wpm original_wpm m with
      | Some wpm => modify_self (set_engine (set_base_wpm wpm))
      | None => raise
      end
  | None => ret tt
  end ;;
  try_finally
    (type_text_body text)
    (modify_self (restore_settings original_settings) ;;
     match speed_multiplier kwargs with
     | Some _ => modify_self (set_engine (set_base_wpm original_wpm))
     | None => ret tt
     end).

End Humanizer.

(** The fatigue level that [_update_fatigue] leaves. *)
Definition fatigue_after (half_time : Q) (st : State) : Q :=
  fatigue_level (engine (self (snd (_update_fatigue half_time st)))).

(** Whether [type_text] raises before its [try] block, scaling the typing
    speed. *)
Definition scaling_raises (kwargs : Kwargs) (h : KeyboardHumanizer) : bool :=
  match speed_multiplier kwargs with
  | Some m =>
      match scaled_wpm (base_wpm (engine h)) m with
      | Some _ => false
      | None => true
      end
  | None => false
  end.

(** The state in which the [try] block of [type_text] starts: the overrides
    are set and the typing speed is scaled. When scaling the speed raises, it
    is the state in which [type_text] is left: the overrides are set and the
    speed is as it was. *)
Definition entry_state (kwargs : Kwargs) (st : State) : State :=
  let h := snd (apply_overrides kwargs (self st)) in
  {| self := match speed_multiplier kwargs with
             | Some m =>
                 match scaled_wpm (base_wpm (engine h)) m with
                 | Some wpm => set_engine (set_base_wpm wpm) h
                 | None => h
                 end
             | None => h
             end;
     env := env st;
     trace := trace st |}.

(** The state that [type_text] leaves, from the state [st1] in which the
    body of its [try] ended. *)
Definition finally_state (kwargs : Kwargs) (before : KeyboardHumanizer)
    (st1 : State) : State :=
  let restored :=
    restore_settings (fst (apply_overrides kwargs before)) (self st1) in
  {| self := match speed_multiplier kwargs with
             | Some _ =>
                 set_engine (set_base_wpm (base_wpm (engine before))) restored
             | None => restored
             end;
     env := env st1;
     trace := trace st1 |}.

(** A text with no tag. *)
Definition no_tags : ContextTags :=
  {| code_like := false; email_like := false;
     formal := false; repetitive := false |}.

(** What [_adapt_to_context] leaves when the humanizer is context aware. *)
Definition adapted (text : str) (h : KeyboardHumanizer) : KeyboardHumanizer :=
  if context_aware h then _adapt_to_context text h else h.

(** The events that are waits of the humanizer itself. *)
Definition is_sleep (ev : Event) : bool :=
  match ev with
  | Sleep _ => true
  | _ => false
  end.

(** An engine method that leaves the typing speed and the error rate. *)
Definition keeps_base_settings {A} (op : EngineCall A) : Prop :=
  forall e v,
    base_wpm (snd (fst (op e v))) = base_wpm e
    /\ error_rate (snd (fst (op e v))) = error_rate e.

(** The base settings of the humanizer. *)
Definition base_settings (h : KeyboardHumanizer) : Q * Q * bool :=
  (base_wpm (engine h), error_rate (engine h), use_copy_paste h).

(** The boolean settings of [b] are those of [a]. *)
Definition same_settings (a b : State) : Prop :=
  forall key, getattr (self b) key = getattr (self a) key.

(** When thinking pauses are off, they stay off and the trace grows by
    events that are not sleeps. *)
Definition no_sleep_added (a b : State) : Prop :=
  add_thinking_pauses (self a) = false ->
  add_thinking_pauses (self b) = false
  /\ exists evs, trace b = trace a ++ evs
                 /\ Forall (fun ev => is_sleep ev = false) evs.

(** The base settings are kept from [a] to [b]. *)
Definition same_base_settings (a b : State) : Prop :=
  base_settings (self b) = base_settings (self a).

(** What a session consists of: its start, its counters and its fatigue. *)
Definition session_of (e : TypingEngine) : Q * TypingStats * Q :=
  (session_start e, stats e, fatigue_level e).

(** An engine method that leaves the session as it is. *)
Definition keeps_session {A} (op : EngineCall A) : Prop :=
  forall e v, session_of (snd (fst (op e v))) = session_of e.

(** The session is as it was from [a] to [b]. *)
Definition same_session (a b : State) : Prop :=
  session_of (engine (self b)) = session_of (engine (self a)).

End Keyboard.

(** ** Concrete data for the examples *)

Module Examples.

Import HumanCurve WebAdjuster Str Keyboard.

(** A curve that bends away from the straight line by up to 25 pixels, an
    overshoot of two pixels and a source of randomness, for the examples. *)
Definition bent_curve (o d : Point) (p : CurveParameters) (rng : RandomSource)
    (t : Q) : Point :=
  (fst o + t * (fst d - fst o) + uniforms rng 0%nat,
   snd o + t * (snd d - snd o) + 100 * t * (1 - t))%Q.

Definition small_overshoot (o d : Point) (p : CurveParameters)
    (rng : RandomSource) : list Point := [(fst d + 2, snd d)%Q].

Definition constant_source : RandomSource :=
  {| uniforms := fun _ => 3 # 10; normals := fun _ => 1 # 2 |}.

(** The straight line from the origin to the destination as the fitted
    curve, no overshoot, parameters for three points, and a source whose
    uniform draws are 0 and whose normal draws are [g]. *)
Definition straight_line (o d : Point) (p : CurveParameters)
    (rng : RandomSource) (t : Q) : Point :=
  (fst o + t * (fst d - fst o), snd o + t * (snd d - snd o))%Q.

Definition no_overshoot (o d : Point) (p : CurveParameters)
    (rng : RandomSource) : list Point := [].

Definition three_points : CurveParameters :=
  {| offset_boundary_x := 80; offset_boundary_y := 80; knots_count := 2;
     distortion_mean := 1; distortion_st_dev := 1;
     distortion_frequency := 1 # 2; tween := fun t => t;
     target_points := 3 |}.

Definition shaky_source (g : Q) : RandomSource :=
  {| uniforms := fun _ => 0%Q; normals := fun _ => g |}.

Definition sample_parameters : CurveParameters :=
  {| offset_boundary_x := 80; offset_boundary_y := 80; knots_count := 5;
     distortion_mean := 1; distortion_st_dev := 1;
     distortion_frequency := 1 # 2; tween := fun t => t;
     target_points := 50 |}.

Definition headless : LinuxOptimizations :=
  {| use_native_events := false; reduce_polling := true;
     optimize_for_headless := true |}.

Definition desktop : LinuxOptimizations :=
  {| use_native_events := false; reduce_polling := true;
     optimize_for_headless := false |}.

(** An engine typing 60 words per minute with an error rate of 2%, a
    humanizer with the settings that [__init__] gives, and a state with the
    clock showing [now] seconds. *)
Definition fresh_engine : TypingEngine :=
  {| base_wpm := 60; error_rate := 2 # 100; session_start := 0;
     fatigue_level := 0; stats := new_TypingStats;
     recent_chars := []; recent_timings := [] |}.

Definition fresh_humanizer : KeyboardHumanizer :=
  {| engine := fresh_engine; simulate_errors := true; auto_correct := true;
     use_copy_paste := true; add_thinking_pauses := true;
     simulate_fatigue := true; context_aware := true |}.

Definition at_time (now : Q) : State :=
  {| self := fresh_humanizer;
     env := {| draws := fun _ => 1 # 10; cursor := 0; clock := now |};
     trace := [] |}.

(** An engine whose methods succeed at once, and one whose typing raises. *)
Definition quiet_type_text : str -> bool -> EngineCall bool :=
  fun _ _ e v => (Returned true, e, v).

Definition quiet_correction : str -> EngineCall unit :=
  fun _ e v => (Returned tt, e, v).

Definition failing_type_text : str -> bool -> EngineCall bool :=
  fun _ _ e v => (Raised, set_base_wpm 1 e, v).

Definition without_pauses : State :=
  {| self := setattr fresh_humanizer "add_thinking_pauses" false;
     env := {| draws := fun _ => 1 # 10; cursor := 0; clock := 100 |};
     trace := [] |}.

Definition no_overrides : Kwargs := {| flags := ∅; speed_multiplier := None |}.

Definition some_overrides : Kwargs :=
  {| flags := {[ "simulate_errors"%string := false;
                 "use_copy_paste"%string := false ]};
     speed_multiplier := Some (Finite (3 # 2)) |}.

(** A humanizer one hour into a session, with counters that have run and a
    fatigue of one half, and an engine with a session that has just begun. *)
Definition worn_humanizer : KeyboardHumanizer :=
  {| engine :=
       {| base_wpm := 60; error_rate := 2 # 100; session_start := 0;
          fatigue_level := 1 # 2;
          stats := {| characters_typed := 1200; words_typed := 240;
                      errors_made := 24; corrections_made := 20 |};
          recent_chars := []; recent_timings := [] |};
     simulate_errors := true; auto_correct := true;
     use_copy_paste := true; add_thinking_pauses := true;
     simulate_fatigue := true; context_aware := true |}.

Definition engine_started_at (now : Q) : TypingEngine :=
  {| base_wpm := 60; error_rate := 2 # 100; session_start := now;
     fatigue_level := 0; stats := new_TypingStats;
     recent_chars := []; recent_timings := [] |}.

(** Overrides with a speed multiplier that is infinite, and with one that is
    finite and takes the speed of 60 out of the range of the floats. *)
Definition endless_speed : Kwargs :=
  {| flags := {[ "simulate_errors"%string := false ]};
     speed_multiplier := Some (Infinity false) |}.

Definition huge_speed : Kwargs :=
  {| flags := {[ "simulate_errors"%string := false ]};
     speed_multiplier := Some (Finite (inject_Z (10 ^ 308))) |}.

End Examples.

(** ** Vocabulary for the movement executor *)

Module MovementSpec.

Import HumanCurve WebAdjuster.

(** The moves that a state will have handed to the action chain once its
    batch is run. *)
Definition queued (st : exec_state) : list Move :=
  actions st ++ List.filter nonzero_move (movements st).

(** Both remainders are at most one pixel in absolute value. *)
Definition small_remainders (st : exec_state) : Prop :=
  (Qabs (fst (extra_numbers st)) <= 1)%Q
  /\ (Qabs (snd (extra_numbers st)) <= 1)%Q.

(** The coordinates [coords] never go back, starting from [start]. *)
Fixpoint ascending (start : Q) (coords : list Q) : Prop :=
  match coords with
  | [] => True
  | c :: rest => (start <= c)%Q /\ ascending c rest
  end.

(** The move that the carry of the loop body appends for the remainders [e],
    if any. *)
Definition carried (e : Q * Q) : list Move :=
  if Qltb 1 (py_abs (fst e)) || Qltb 1 (py_abs (snd e))
  then [(py_int (fst e), py_int (snd e))]
  else [].

(** The remainders after the fractions of the hop to [point] were added. *)
Definition with_fractions (st : exec_state) (point : Point) : Q * Q :=
  let x_offset := (fst point - fst (current_origin st))%Q in
  let y_offset := (snd point - snd (current_origin st))%Q in
  (fst (extra_numbers st) + (x_offset - inject_Z (py_int x_offset)),
   snd (extra_numbers st) + (y_offset - inject_Z (py_int y_offset)))%Q.

(** The test of [# Handle remaining fractional movements]. *)
Definition flush_condition (st : exec_state) : bool :=
  Qltb (1 # 2) (py_abs (fst (extra_numbers st)))
  || Qltb (1 # 2) (py_abs (snd (extra_numbers st))).

(** Two runs of the loop, possibly with different batch sizes, have read the
    same points: same remainders, totals and current point, and the same
    moves handed over or about to be. *)
Record same_progress (a b : exec_state) : Prop := {
  same_extra : extra_numbers a = extra_numbers b;
  same_total : total_offset a = total_offset b;
  same_origin : current_origin a = current_origin b;
  same_queued : queued a = queued b
}.

End MovementSpec.

(** ** WebAdjuster: targets and [move_to] *)

Module Adjuster.

Import HumanCurve WebAdjuster.

(** The dictionary that the [getBoundingClientRect] script returns, and the
    [location] and [size] of an element: whole numbers of pixels. *)
Record Rect := {
  rect_x : Z;
  rect_y : Z;
  rect_width : Z;
  rect_height : Z
}.

(** A [WebElement] as the adjuster sees it: the result of
    [execute_script(script, element)] ([None] when it raises) and
    [element.location] with [element.size] ([None] when reading them
    raises). *)
Record WebElement := {
  bounding_rect : option Rect;
  location_and_size : option Rect
}.

(** [element_or_pos]: a list or tuple of numbers, or an element. *)
Inductive Target :=
| Position (coords : list Q)
| Element (element : WebElement).

(** [random.choice(range(lo, hi))] on the number [k] that the generator
    gives: [_randbelow(len)] is [k] reduced below the length. *)
Definition choice_range (lo hi : Z) (k : nat) : Z :=
  lo + Z.of_nat (k mod Z.to_nat (hi - lo)).

(** The state of a [WebAdjuster]. *)
Record AdjusterState := {
  origin_coordinate : list Z;
  _linux_optimizations : LinuxOptimizations
}.

Section MoveTo.

(** [calculate_absolute_offset(element, relative_position)] of
    humancursor/utilities/calculate_and_randomize.py, which is not among the
    sources ([None] when it raises). *)
Variable calculate_absolute_offset : WebElement -> list Q -> option (Q * Q).

(** [self._generate_human_curve(origin, (x, y), steady)]: the points of the
    curve ([None] when it raises). *)
Variable generate_curve : list Z -> Z * Z -> bool -> option (list Point).

(** The [except] branch of [_get_element_coordinates]: the middle of the
    element by Selenium's location and size, or (0, 0). *)
Definition element_centre (element : WebElement) : Z * Z :=
  match location_and_size element with
  | Some l =>
      (py_int (inject_Z (rect_x l) + inject_Z (rect_width l) / 2),
       py_int (inject_Z (rect_y l) + inject_Z (rect_height l) / 2))
  | None => (0, 0)
  end.

(** [_get_element_coordinates]; [draws] are the numbers given by the
    generator for the two [random.choice] calls. *)
Definition _get_element_coordinates (element : WebElement)
    (relative_position : option (list Q)) (draws : nat * nat) : Z * Z :=
  match bounding_rect element with
  | None => element_centre element
  | Some result =>
      match relative_position with
      | None =>
          let x_random_off := (inject_Z (choice_range 25 75 (fst draws)) / 100)%Q in
          let y_random_off := (inject_Z (choice_range 25 75 (snd draws)) / 100)%Q in
          (py_int (inject_Z (rect_x result)
                   + inject_Z (rect_width result) * x_random_off),
           py_int (inject_Z (rect_y result)
                   + inject_Z (rect_height result) * y_random_off))
      | Some position =>
          match calculate_absolute_offset element position with
          | Some abs_exact_offset =>
              (py_int (inject_Z (rect_x result) + fst abs_exact_offset),
               py_int (inject_Z (rect_y result) + snd abs_exact_offset))
          | None => element_centre element
          end
      end
  end.

(** [_calculate_target_coordinates]: [None] when indexing the position
    raises. *)
Definition _calculate_target_coordinates (element_or_pos : Target)
    (origin : Z * Z) (absolute_offset : bool)
    (relative_position : option (list Q)) (draws : nat * nat)
  : option (Z * Z) :=
  match element_or_pos with
  | Position (x :: y :: _) =>
      if negb absolute_offset then Some (py_int x, py_int y)
      else Some (py_int (x + inject_Z (fst origin)),
                 py_int (y + inject_Z (snd origin)))
  | Position _ => None
  | Element element =>
      Some (_get_element_coordinates element relative_position draws)
  end.

Definition set_origin (self : AdjusterState) (coords : list Z) : AdjusterState :=
  {| origin_coordinate := coords;
     _linux_optimizations := _linux_optimizations self |}.

(** [move_to]: the list returned, the adjuster afterwards and the moves
    handed to the action chain. [human_curve] holds the points of a curve
    given by the caller; [outcome] is what [perform()] does. *)
Definition move_to (self : AdjusterState) (element_or_pos : Target)
    (origin_coordinates : option (list Z)) (absolute_offset : bool)
    (relative_position : option (list Q)) (human_curve : option (list Point))
    (steady : bool) (draws : nat * nat) (outcome : perform_result)
  : list Z * AdjusterState * list Move :=
  let origin :=
    match origin_coordinates with
    | Some (c :: cs) => c :: cs
    | _ => origin_coordinate self
    end in
  match origin with
  | ox :: oy :: _ =>
      match _calculate_target_coordinates element_or_pos (ox, oy)
              absolute_offset relative_position draws with
      | None => (origin, self, [])
      | Some (x, y) =>
          let curve :=
            match human_curve with
            | Some points => Some points
            | None => generate_curve origin (x, y) steady
            end in
          match curve with
          | None => (origin, self, [])
          | Some points =>
              let '(moves, final_coords) :=
                _execute_web_movement (_linux_optimizations self) points
                  (ox, oy) (x, y) outcome in
              ([fst final_coords; snd final_coords],
               set_origin self [fst final_coords; snd final_coords],
               moves)
          end
      end
  | _ => (origin, self, [])
  end.

End MoveTo.

(** ** WebAdjuster: [scroll_smooth] *)

(** What [scroll_smooth] does to the page, the action chain and the clock. *)
Inductive ScrollEvent :=
| JsScrollBy (left top : Z)
| ScrollSleep (seconds : Q)
| MoveToElement
| ScrollByAmount (delta_x delta_y : Z)
| PerformChain.

(** [scroll_map.get(direction.lower(), (0, 100 * amount))]. *)
Definition scroll_map_get (direction : Str.str) (amount : Z) : Z * Z :=
  let d := Str.lower direction in
  if decide (d = Str.lit "up") then (0, -100 * amount)
  else if decide (d = Str.lit "down") then (0, 100 * amount)
  else if decide (d = Str.lit "left") then (-100 * amount, 0)
  else if decide (d = Str.lit "right") then (100 * amount, 0)
  else (0, 100 * amount).

(** One turn of [for _ in range(amount)] in the action chain branch. *)
Definition scroll_turn (direction : Str.str) (smooth : bool) : list ScrollEvent :=
  let d := Str.lower direction in
  (if decide (d = Str.lit "up") then [ScrollByAmount 0 (-1 * 100)]
   else if decide (d = Str.lit "down") then [ScrollByAmount 0 (1 * 100)]
   else if decide (d = Str.lit "left") then [ScrollByAmount (-1 * 100) 0]
   else [ScrollByAmount (1 * 100) 0])
  ++ (if smooth then [ScrollSleep (1 # 10)] else []).

(** [scroll_smooth]: the value returned and what was done; [script_ok] and
    [perform_ok] say whether [execute_script] and [perform()] return or
    raise. *)
Definition scroll_smooth (opts : LinuxOptimizations) (direction : Str.str)
    (amount : Z) (smooth : bool) (script_ok perform_ok : bool)
  : bool * list ScrollEvent :=
  if smooth && use_native_events opts then
    if script_ok then
      let delta := scroll_map_get direction amount in
      (true, [JsScrollBy (fst delta) (snd delta); ScrollSleep (1 # 2)])
    else (false, [])
  else
    let queue :=
      MoveToElement
      :: List.concat (List.repeat (scroll_turn direction smooth) (Z.to_nat amount)) in
    if perform_ok then (true, queue ++ [PerformChain]) else (false, queue).

(** *** Vocabulary *)

(** The origin that [move_to] starts from. *)
Definition starting_origin (self : AdjusterState)
    (origin_coordinates : option (list Z)) : list Z :=
  match origin_coordinates with
  | Some (c :: cs) => c :: cs
  | _ => origin_coordinate self
  end.

(** A call of [move_to] from the stored origin with a curve given by the
    caller. *)
Record MoveCall := {
  call_target : Target;
  call_absolute : bool;
  call_relative : option (list Q);
  call_curve : list Point;
  call_steady : bool;
  call_draws : nat * nat
}.

(** Calls of [move_to] one after the other, every [perform()] succeeding:
    the adjuster afterwards and all the moves handed to the action chain. *)
Definition move_all
    (calculate_absolute_offset : WebElement -> list Q -> option (Q * Q))
    (generate_curve : list Z -> Z * Z -> bool -> option (list Point))
    (self : AdjusterState) (calls : list MoveCall)
  : AdjusterState * list Move :=
  fold_left
    (fun acc call =>
       let '(_, self', moves) :=
         move_to calculate_absolute_offset generate_curve (fst acc)
           (call_target call) None (call_absolute call) (call_relative call)
           (Some (call_curve call)) (call_steady call) (call_draws call)
           Performed in
       (self', snd acc ++ moves))
    calls (self, []).

(** The distance scrolled, summed over the script calls and the scroll
    actions. *)
Definition scrolled (ev : ScrollEvent) : Z * Z :=
  match ev with
  | JsScrollBy dx dy => (dx, dy)
  | ScrollByAmount dx dy => (dx, dy)
  | _ => (0, 0)
  end.

Definition total_scroll (events : list ScrollEvent) : Z * Z :=
  fold_right (fun ev acc => (fst (scrolled ev) + fst acc,
                             snd (scrolled ev) + snd acc))
             (0, 0) events.

(** The time slept, summed. *)
Definition total_sleep (events : list ScrollEvent) : Q :=
  fold_right (fun ev acc =>
                match ev with
                | ScrollSleep s => (s + acc)%Q
                | _ => acc
                end) 0%Q events.

(** The unit step of one of the four directions, whatever the case of its
    letters; [None] for another word. *)
Definition direction_unit (direction : Str.str) : option (Z * Z) :=
  let d := Str.lower direction in
  if decide (d = Str.lit "up") then Some (0, -1)
  else if decide (d = Str.lit "down") then Some (0, 1)
  else if decide (d = Str.lit "left") then Some (-1, 0)
  else if decide (d = Str.lit "right") then Some (1, 0)
  else None.

End Adjuster.

(** * WebCursor: clicks, drags and the position it keeps *)

Module Cursor.

Import WebAdjuster.

(** The calls that [WebCursor] makes on its own action chain
    ([self.__action]), on the driver and on the clock. *)
Inductive Call :=
| Click
| ContextClick
| ClickAndHold
| Release
| Pause (seconds : Q)
| Perform
| MiddleClickScript (x y : Z)
| Wait (seconds : Q).

(** What meets one call of [move_to]: whether a [KeyboardInterrupt] or
    [SystemExit] arrives while [scroll_into_view_of_element] runs (its driver
    calls and its sleep), the result of [scroll_into_view_of_element]
    otherwise, the numbers drawn for the point in the element, and what the
    adjuster's [perform()] does. One that arrives later in the move, inside
    the adjuster, is outside this embedding. *)
Record MoveEnv := {
  interrupted : bool;
  in_view : bool;
  element_draws : nat * nat;
  performed : perform_result
}.

(** A [WebCursor]: its adjuster and [origin_coordinates]; with them, the calls
    made so far, the moves that the adjuster handed to its chain, and how many
    random numbers and moves were asked for. *)
Record CursorState := {
  human : Adjuster.AdjusterState;
  origin_coordinates : list Z;
  calls : list Call;
  moved : list Move;
  drawn : nat;
  moves_made : nat
}.

(** What is raised: an [Exception], or a [BaseException] that is not one
    ([KeyboardInterrupt], [SystemExit]). *)
Inductive failure :=
| Error
| Interrupt.

(** A method returns a value or raises. *)
Inductive attempt (A : Type) :=
| Done (a : A)
| Failed (what : failure).
Arguments Done {A} a.
Arguments Failed {A} what.

Definition W (A : Type) : Type := CursorState -> attempt A * CursorState.

Definition ret {A} (a : A) : W A := fun st => (Done a, st).

Definition bind {A B} (c : W A) (k : A -> W B) : W B :=
  fun st =>
    match c st with
    | (Done a, st') => k a st'
    | (Failed what, st') => (Failed what, st')
    end.

Declare Scope cursor_scope.
Delimit Scope cursor_scope with cursor.
Notation "x <- c ;; k" := (bind c (fun x => k))
  (at level 100, c at next level, right associativity) : cursor_scope.
Notation "c ;; k" := (bind c (fun _ => k))
  (at level 100, right associativity) : cursor_scope.
Local Open Scope cursor_scope.

(** [try: body except Exception: handler]: what is not an [Exception]
    goes through. *)
Definition try_except {A} (body handler : W A) : W A :=
  fun st =>
    match body st with
    | (Done a, st') => (Done a, st')
    | (Failed Error, st') => handler st'
    | (Failed Interrupt, st') => (Failed Interrupt, st')
    end.

(** [try: body except: handler]: everything is caught. *)
Definition try_except_any {A} (body handler : W A) : W A :=
  fun st =>
    match body st with
    | (Done a, st') => (Done a, st')
    | (Failed _, st') => handler st'
    end.

Definition get : W CursorState := fun st => (Done st, st).

(** [l[i]]. *)
Definition index (l : list Z) (i : nat) : W Z :=
  fun st =>
    match nth_error l i with
    | Some v => (Done v, st)
    | None => (Failed Error, st)
    end.

(** [if not move_result]: [False] and the empty list are falsy. *)
Definition truthy (move_result : option (list Z)) : bool :=
  match move_result with
  | Some (_ :: _) => true
  | _ => false
  end.

(** [min(a, b)] and [max(a, b)] of Python: the first argument unless the
    second is strictly better. *)
Definition py_min (a b : Q) : Q := if Qltb b a then b else a.
Definition py_max (a b : Q) : Q := if Qltb a b then b else a.

Section WebCursor.

(** The parts of the adjuster that are not among the sources. *)
Variable calculate_absolute_offset :
  Adjuster.WebElement -> list Q -> option (Q * Q).
Variable generate_curve :
  list Z -> Z * Z -> bool -> option (list HumanCurve.Point).

(** What the call number [n] on the chain, the driver or the clock raises,
    if anything; the numbers that [random.random()] gives; what meets the
    [n]-th move. *)
Variable raises : nat -> option failure.
Variable randoms : nat -> Q.
Variable move_env : nat -> MoveEnv.

Definition call (c : Call) : W unit :=
  fun st =>
    (match raises (length (calls st)) with
     | Some what => Failed what
     | None => Done tt
     end,
     {| human := human st;
        origin_coordinates := origin_coordinates st;
        calls := calls st ++ [c];
        moved := moved st;
        drawn := drawn st;
        moves_made := moves_made st |}).

(** [random.uniform(a, b)]. *)
Definition uniform (a b : Q) : W Q :=
  fun st =>
    (Done (a + (b - a) * randoms (drawn st))%Q,
     {| human := human st;
        origin_coordinates := origin_coordinates st;
        calls := calls st;
        moved := moved st;
        drawn := S (drawn st);
        moves_made := moves_made st |}).

(** What meets the next move. *)
Definition next_move : W MoveEnv :=
  fun st =>
    (Done (move_env (moves_made st)),
     {| human := human st;
        origin_coordinates := origin_coordinates st;
        calls := calls st;
        moved := moved st;
        drawn := drawn st;
        moves_made := S (moves_made st) |}).

(** [self.human.move_to(...)] followed by
    [self.origin_coordinates = final_coords]. *)
Definition human_move_to (e : MoveEnv) (element : Adjuster.Target)
    (origin : option (list Z)) (absolute_offset : bool)
    (relative_position : option (list Q)) (steady : bool)
  : W (list Z) :=
  fun st =>
    let '(final_coords, human', moves) :=
      Adjuster.move_to calculate_absolute_offset generate_curve (human st)
        element origin absolute_offset relative_position None steady
        (element_draws e) (performed e) in
    (Done final_coords,
     {| human := human';
        origin_coordinates := final_coords;
        calls := calls st;
        moved := moved st ++ moves;
        drawn := drawn st;
        moves_made := moves_made st |}).

(** [scroll_into_view_of_element(element)], by its result: [True] for a
    list, [False] for a tuple, either for an element. Its own
    [except Exception] lets an interrupt through. *)
Definition scroll_into_view_of_element (e : MoveEnv) : W bool :=
  fun st =>
    (if interrupted e then Failed Interrupt else Done (in_view e), st).

(** [WebCursor.move_to]: the coordinates, or [None] for [False]. *)
Definition move_to (element : Adjuster.Target)
    (relative_position : option (list Q)) (absolute_offset : bool)
    (origin : option (list Z)) (steady : bool)
  : W (option (list Z)) :=
  try_except
    (e <- next_move ;;
     visible <- scroll_into_view_of_element e ;;
     if negb visible then ret None
     else
       st <- get ;;
       let origin :=
         match origin with
         | None => origin_coordinates st
         | Some given => given
         end in
       final_coords <- human_move_to e element (Some origin) absolute_offset
                         relative_position steady ;;
       ret (Some final_coords))
    (ret None).

(** One turn of the loop of [_perform_click]. *)
Definition click_once (number_of_clicks : Z) (click_duration : Q)
    (button : string) : W unit :=
  (if Qltb 0 click_duration then
     if String.eqb button "right"
     then call ContextClick ;; call (Pause click_duration)
     else call ClickAndHold ;; call (Pause click_duration) ;; call Release
   else if String.eqb button "right" then call ContextClick
   else if String.eqb button "middle" then
     st <- get ;;
     x <- index (origin_coordinates st) 0 ;;
     y <- index (origin_coordinates st) 1 ;;
     call (MiddleClickScript x y)
   else call Click) ;;
  if 1 <? number_of_clicks
  then seconds <- uniform (170 # 1000) (280 # 1000) ;; call (Pause seconds)
  else ret tt.

Fixpoint click_loop (turns : nat) (number_of_clicks : Z) (click_duration : Q)
    (button : string) : W unit :=
  match turns with
  | O => ret tt
  | S turns =>
      click_once number_of_clicks click_duration button ;;
      click_loop turns number_of_clicks click_duration button
  end.

(** [_perform_click]. *)
Definition _perform_click (number_of_clicks : Z) (click_duration : Q)
    (button : string) : W bool :=
  try_except
    (click_loop (Z.to_nat number_of_clicks) number_of_clicks click_duration
       button ;;
     call Perform ;;
     ret true)
    (ret false).

(** [click_on]. *)
Definition click_on (element : Adjuster.Target) (number_of_clicks : Z)
    (click_duration : Q) (relative_position : option (list Q))
    (absolute_offset : bool) (origin : option (list Z)) (steady : bool)
    (button : string) : W bool :=
  try_except
    (move_result <- move_to element relative_position absolute_offset origin
                      steady ;;
     if negb (truthy move_result) then ret false
     else _perform_click number_of_clicks click_duration button)
    (ret false).

(** [move_by_offset]. *)
Definition move_by_offset (x y : Z) (steady : bool) : W bool :=
  try_except
    (e <- next_move ;;
     human_move_to e (Adjuster.Position [inject_Z x; inject_Z y]) None true
       None steady ;;
     ret true)
    (ret false).

(** The [except] branch of [drag_and_drop] and [control_scroll_bar]. *)
Definition release_and_fail : W bool :=
  try_except_any (call Release ;; call Perform) (ret tt) ;;
  ret false.

(** [drag_and_drop]. *)
Definition drag_and_drop (drag_from_element : Adjuster.Target)
    (drag_to_element : option Adjuster.Target)
    (drag_from_relative_position drag_to_relative_position : option (list Q))
    (steady : bool) : W bool :=
  try_except
    (move_result <- move_to drag_from_element drag_from_relative_position
                      false None steady ;;
     if negb (truthy move_result) then ret false
     else
       match drag_to_element with
       | None => call Click ;; call Perform ;; ret true
       | Some target =>
           call ClickAndHold ;; call Perform ;;
           call (Wait (1 # 10)) ;;
           move_result <- move_to target drag_to_relative_position false None
                            steady ;;
           if negb (truthy move_result)
           then call Release ;; call Perform ;; ret false
           else call Release ;; call Perform ;; ret true
       end)
    release_and_fail.

(** [control_scroll_bar]. *)
Definition control_scroll_bar (scroll_bar_element : Adjuster.WebElement)
    (amount_by_percentage : Q) (orientation : Str.str) (steady : bool)
  : W bool :=
  try_except
    (let amount_by_percentage := py_max 0 (py_min 1 amount_by_percentage) in
     move_result <- move_to (Adjuster.Element scroll_bar_element) None false
                      None false ;;
     if negb (truthy move_result) then ret false
     else
       call ClickAndHold ;; call Perform ;;
       target_position <-
         (if bool_decide (Str.lower orientation = Str.lit "horizontal")
          then other <- uniform (3 # 10) (7 # 10) ;;
               ret [amount_by_percentage; other]
          else other <- uniform (3 # 10) (7 # 10) ;;
               ret [other; amount_by_percentage]) ;;
       move_to (Adjuster.Element scroll_bar_element) (Some target_position)
         false None steady ;;
       call Release ;; call Perform ;;
       ret true)
    release_and_fail.

End WebCursor.

(** ** Vocabulary *)

(** The calls that a computation added. *)
Definition new_calls (before after : CursorState) : list Call :=
  drop (length (calls before)) (calls after).

(** Every press-and-hold is followed by a call of [release()]. *)
Definition holds_are_released (cs : list Call) : Prop :=
  forall pre post, cs = pre ++ ClickAndHold :: post -> In Release post.

(** The same, as a test. *)
Fixpoint released_b (cs : list Call) : bool :=
  match cs with
  | [] => true
  | ClickAndHold :: post =>
      existsb (fun c => match c with Release => true | _ => false end) post
      && released_b post
  | _ :: post => released_b post
  end.

(** The calls that press a button. *)
Definition is_press (c : Call) : bool :=
  match c with
  | Click | ContextClick | ClickAndHold | MiddleClickScript _ _ => true
  | _ => false
  end.

Definition is_script (c : Call) : bool :=
  match c with
  | MiddleClickScript _ _ => true
  | _ => false
  end.

Definition is_click (c : Call) : bool :=
  match c with
  | Click => true
  | _ => false
  end.

Definition is_context_click (c : Call) : bool :=
  match c with
  | ContextClick => true
  | _ => false
  end.

Definition is_hold (c : Call) : bool :=
  match c with
  | ClickAndHold => true
  | _ => false
  end.

Definition is_release (c : Call) : bool :=
  match c with
  | Release => true
  | _ => false
  end.

Definition is_perform (c : Call) : bool :=
  match c with
  | Perform => true
  | _ => false
  end.

Definition count (p : Call -> bool) (cs : list Call) : nat :=
  length (List.filter p cs).

(** How often one press of [_perform_click] makes each call that presses or
    releases a button: [click()], [context_click()], [click_and_hold()],
    [release()] and the script for the middle button. *)
Definition press_calls (click_duration : Q) (button : string)
  : nat * nat * nat * nat * nat :=
  if Qltb 0 click_duration then
    if String.eqb button "right" then (0, 1, 0, 0, 0)%nat
    else (0, 0, 1, 1, 0)%nat
  else if String.eqb button "right" then (0, 1, 0, 0, 0)%nat
  else if String.eqb button "middle" then (0, 0, 0, 0, 1)%nat
  else (1, 0, 0, 0, 0)%nat.

(** The same counts over a list of calls. *)
Definition press_counts (cs : list Call) : nat * nat * nat * nat * nat :=
  (count is_click cs, count is_context_click cs,
   count is_hold cs, count is_release cs,
   count is_script cs).

Definition times (n : nat) (k : nat * nat * nat * nat * nat)
  : nat * nat * nat * nat * nat :=
  let '(a, b, c, d, e) := k in (n * a, n * b, n * c, n * d, n * e)%nat.

(** The cursor and its adjuster agree on where the pointer is. *)
Definition in_sync (st : CursorState) : Prop :=
  origin_coordinates st = Adjuster.origin_coordinate (human st)
  /\ length (origin_coordinates st) = 2%nat.

(** A computation that leaves them agreeing. *)
Definition keeps_sync {A} (c : W A) : Prop :=
  forall st, in_sync st -> in_sync (snd (c st)).

(** The public methods that move the pointer, called without
    [origin_coordinates]. *)
Inductive Method :=
| MoveTo (element : Adjuster.Target) (relative_position : option (list Q))
    (absolute_offset steady : bool)
| ClickOn (element : Adjuster.Target) (number_of_clicks : Z)
    (click_duration : Q) (relative_position : option (list Q))
    (absolute_offset steady : bool) (button : string)
| MoveByOffset (x y : Z) (steady : bool)
| DragAndDrop (drag_from_element : Adjuster.Target)
    (drag_to_element : option Adjuster.Target)
    (drag_from_relative_position drag_to_relative_position : option (list Q))
    (steady : bool)
| ControlScrollBar (scroll_bar_element : Adjuster.WebElement)
    (amount_by_percentage : Q) (orientation : Str.str) (steady : bool).

Section Session.

Variable calculate_absolute_offset :
  Adjuster.WebElement -> list Q -> option (Q * Q).
Variable generate_curve :
  list Z -> Z * Z -> bool -> option (list HumanCurve.Point).
Variable raises : nat -> option failure.
Variable randoms : nat -> Q.
Variable move_env : nat -> MoveEnv.

(** One call, its result dropped. *)
Definition invoke (m : Method) (st : CursorState) : CursorState :=
  match m with
  | MoveTo element relative_position absolute_offset steady =>
      snd (move_to calculate_absolute_offset generate_curve move_env element
             relative_position absolute_offset None steady st)
  | ClickOn element number_of_clicks click_duration relative_position
      absolute_offset steady button =>
      snd (click_on calculate_absolute_offset generate_curve raises randoms
             move_env element number_of_clicks click_duration
             relative_position absolute_offset None steady button st)
  | MoveByOffset x y steady =>
      snd (move_by_offset calculate_absolute_offset generate_curve move_env
             x y steady st)
  | DragAndDrop drag_from_element drag_to_element
      drag_from_relative_position drag_to_relative_position steady =>
      snd (drag_and_drop calculate_absolute_offset generate_curve raises
             move_env drag_from_element drag_to_element
             drag_from_relative_position drag_to_relative_position steady st)
  | ControlScrollBar scroll_bar_element amount_by_percentage orientation
      steady =>
      snd (control_scroll_bar calculate_absolute_offset generate_curve raises
             randoms move_env scroll_bar_element amount_by_percentage
             orientation steady st)
  end.

(** Calls one after the other. *)
Definition session (ms : list Method) (st : CursorState) : CursorState :=
  fold_left (fun st m => invoke m st) ms st.

End Session.

End Cursor.

(** ** KeyboardHumanizer: configuration and vocabulary *)

Module KeyboardSpec.

Import Str Keyboard.

(** [get_current_config]. *)
Definition get_current_config (h : KeyboardHumanizer) : gmap string bool :=
  list_to_map
    [("simulate_errors"%string, simulate_errors h);
     ("auto_correct"%string, auto_correct h);
     ("use_copy_paste"%string, use_copy_paste h);
     ("add_thinking_pauses"%string, add_thinking_pauses h);
     ("simulate_fatigue"%string, simulate_fatigue h);
     ("context_aware"%string, context_aware h)].

(** The sentences handed to [TypingEngine.type_text], with the
    [use_copy_paste] argument, in the order of the calls. *)
Fixpoint typed_sentences (events : list Event) : list (str * bool) :=
  match events with
  | [] => []
  | EngineTypeText sentence copy_paste :: rest =>
      (sentence, copy_paste) :: typed_sentences rest
  | _ :: rest => typed_sentences rest
  end.

(** The characters of a text that are not whitespace. *)
Definition visible (s : str) : str :=
  List.filter (fun c => negb (isspace c)) s.

(** [_adapt_to_context(text)] called [n] times. *)
Definition adapt_times (n : nat) (text : str) (h : KeyboardHumanizer)
  : KeyboardHumanizer :=
  Nat.iter n (_adapt_to_context text) h.

End KeyboardSpec.

(** ** More data for the examples *)

Module MoreExamples.

Import HumanCurve WebAdjuster Adjuster.

(** A path of three points that ends on (3, 4). *)
Definition short_path : list Point := [(1, 1 # 2); (2, 5 # 2); (3, 4)]%Q.

(** A button of 200 by 40 pixels at (100, 50). *)
Definition button_rect : Rect :=
  {| rect_x := 100; rect_y := 50; rect_width := 200; rect_height := 40 |}.

Definition a_button : WebElement :=
  {| bounding_rect := Some button_rect; location_and_size := Some button_rect |}.

(** The absent parts of the adjuster: an offset in proportion to the
    rectangle, and a curve that goes straight to the target. *)
Definition proportional_offset (element : WebElement) (position : list Q)
  : option (Q * Q) :=
  match bounding_rect element, position with
  | Some rect, px :: py :: _ =>
      Some (inject_Z (rect_width rect) * px, inject_Z (rect_height rect) * py)%Q
  | _, _ => None
  end.

Definition straight_curve (origin : list Z) (target : Z * Z) (steady : bool)
  : option (list Point) :=
  Some [(inject_Z (fst target), inject_Z (snd target))].

Definition adjuster_at_origin : AdjusterState :=
  {| origin_coordinate := [0; 0]; _linux_optimizations := Examples.desktop |}.

Definition two_calls : list MoveCall :=
  [ {| call_target := Position [3; 4]%Q; call_absolute := false;
       call_relative := None; call_curve := short_path;
       call_steady := false; call_draws := (0, 0)%nat |};
    {| call_target := Element a_button; call_absolute := false;
       call_relative := None; call_curve := [(150, 60); (201, 72)]%Q;
       call_steady := true; call_draws := (10, 20)%nat |} ].

(** A cursor as [__init__] leaves it, a world where nothing raises and one
    where the fourth call does, and a driver that performs every move. *)
Definition cursor_at_origin : Cursor.CursorState :=
  {| Cursor.human := adjuster_at_origin;
     Cursor.origin_coordinates := [0; 0];
     Cursor.calls := [];
     Cursor.moved := [];
     Cursor.drawn := 0;
     Cursor.moves_made := 0 |}.

Definition nothing_raises : nat -> option Cursor.failure := fun _ => None.

Definition fourth_call_raises : nat -> option Cursor.failure :=
  fun n => if Nat.eqb n 3 then Some Cursor.Error else None.

Definition third_call_interrupted : nat -> option Cursor.failure :=
  fun n => if Nat.eqb n 2 then Some Cursor.Interrupt else None.

Definition half : nat -> Q := fun _ => 1 # 2.

Definition all_in_view : nat -> Cursor.MoveEnv :=
  fun _ => {| Cursor.interrupted := false;
              Cursor.in_view := true;
              Cursor.element_draws := (10, 20)%nat;
              Cursor.performed := Performed |}.

Definition second_move_interrupted : nat -> Cursor.MoveEnv :=
  fun n => {| Cursor.interrupted := Nat.eqb n 1;
              Cursor.in_view := true;
              Cursor.element_draws := (10, 20)%nat;
              Cursor.performed := Performed |}.

Definition a_session : list Cursor.Method :=
  [ Cursor.MoveByOffset 3 4 false;
    Cursor.ClickOn (Element a_button) 2 0 None false false "left";
    Cursor.DragAndDrop (Position [10; 10]%Q) (Some (Element a_button))
      None None true;
    Cursor.ControlScrollBar a_button (3 # 2) (Str.lit "Horizontal") false ].

End MoreExamples.

(** * Properties *)

(** ** Comparisons *)

Lemma Qltb_lt a b : Qltb a b = true <-> (a < b)%Q.
Proof.
  unfold Qltb. rewrite negb_true_iff, <- not_true_iff_false, Qle_bool_iff.
  split; [apply Qnot_le_lt | apply Qlt_not_le].
Qed.

Lemma Qltb_ge a b : Qltb a b = false <-> (b <= a)%Q.
Proof.
  unfold Qltb. rewrite negb_false_iff, Qle_bool_iff. reflexivity.
Qed.

(** ** The delta accumulation *)

Module WebAdjusterFacts.

Import HumanCurve WebAdjuster.

Lemma sum_dx_app a b : sum_dx (a ++ b) = sum_dx a + sum_dx b.
Proof.
  unfold sum_dx. induction a as [|m a IH]; simpl; [reflexivity|].
  change (fold_right Z.add 0 (List.map fst (a ++ b))) with (sum_dx (a ++ b)) in *.
  unfold sum_dx in *. rewrite IH. lia.
Qed.

Lemma sum_dy_app a b : sum_dy (a ++ b) = sum_dy a + sum_dy b.
Proof.
  unfold sum_dy. induction a as [|m a IH]; simpl; [reflexivity|].
  rewrite IH. lia.
Qed.

(** Dropping the moves that are zero on both axes changes no sum. *)
Lemma sum_dx_filter ms : sum_dx (List.filter nonzero_move ms) = sum_dx ms.
Proof.
  unfold sum_dx. induction ms as [|[x y] ms IH]; simpl; [reflexivity|].
  unfold nonzero_move at 1. simpl.
  destruct (Z.eqb_spec x 0) as [->|Hx]; simpl.
  - destruct (Z.eqb_spec y 0); simpl; rewrite IH; reflexivity.
  - rewrite IH. reflexivity.
Qed.

Lemma sum_dy_filter ms : sum_dy (List.filter nonzero_move ms) = sum_dy ms.
Proof.
  unfold sum_dy. induction ms as [|[x y] ms IH]; simpl; [reflexivity|].
  unfold nonzero_move at 1. simpl.
  destruct (Z.eqb_spec x 0) as [->|Hx]; simpl.
  - destruct (Z.eqb_spec y 0) as [->|Hy]; simpl; rewrite IH; reflexivity.
  - rewrite IH. reflexivity.
Qed.

Lemma conserved_refl st : conserved st st.
Proof. split; reflexivity. Qed.

Lemma conserved_trans a b c : conserved a b -> conserved b c -> conserved a c.
Proof.
  intros [x1 y1 dx1 dy1] [x2 y2 dx2 dy2]. split.
  - rewrite x2. exact x1.
  - rewrite y2. exact y1.
  - lia.
  - lia.
Qed.

Lemma carry_conserved st : conserved st (carry st).
Proof.
  unfold carry.
  destruct st as [[ex ey] [tx ty] cur ms acts]; simpl.
  repeat match goal with |- context [if ?b then _ else _] => destruct b end;
    split; unfold emitted; simpl;
    rewrite ?inject_Z_plus, ?app_assoc, ?sum_dx_app, ?sum_dy_app;
    unfold sum_dx, sum_dy; simpl; try lra; try lia.
Qed.

Lemma carry_origin st : current_origin (carry st) = current_origin st.
Proof.
  unfold carry. destruct st as [[ex ey] [tx ty] cur ms acts]; simpl.
  repeat match goal with |- context [if ?b then _ else _] => destruct b end;
    reflexivity.
Qed.

Lemma hop_conserved bs st point last : conserved st (hop bs st point last).
Proof.
  unfold hop.
  set (st0 := {| extra_numbers := _; total_offset := total_offset st;
                 current_origin := current_origin st;
                 movements := movements st; actions := actions st |}).
  pose proof (carry_conserved st0) as [cx cy cdx cdy].
  pose proof (carry_origin st0) as co.
  set (st1 := carry st0) in *.
  assert (Hex : emitted st0 = emitted st) by reflexivity.
  rewrite Hex in cdx, cdy. simpl in cx, cy, co, cdx, cdy.
  split; simpl.
  - rewrite inject_Z_plus. rewrite co in cx. lra.
  - rewrite inject_Z_plus. rewrite co in cy. lra.
  - destruct (_ || last); unfold emitted in *; simpl;
      unfold flush_batch;
      rewrite ?app_nil_r, ?sum_dx_app, ?sum_dx_filter, ?sum_dx_app in *;
      unfold sum_dx at 3; simpl; lia.
  - destruct (_ || last); unfold emitted in *; simpl;
      unfold flush_batch;
      rewrite ?app_nil_r, ?sum_dy_app, ?sum_dy_filter, ?sum_dy_app in *;
      unfold sum_dy at 3; simpl; lia.
Qed.

Lemma hops_conserved bs points : forall st, conserved st (hops bs st points).
Proof.
  induction points as [|p rest IH]; intros st; simpl.
  - apply conserved_refl.
  - eapply conserved_trans; [apply hop_conserved | apply IH].
Qed.

Lemma last_cons (rest : list Point) : forall q p,
  List.last (q :: rest) p = List.last rest q.
Proof.
  induction rest as [|r rest IH]; intros q p; [reflexivity|].
  change (List.last (q :: r :: rest) p) with (List.last (r :: rest) p).
  rewrite (IH r p), (IH r q). reflexivity.
Qed.

(** After the last point the batch is empty and the current point is that
    last point. *)
Lemma hops_end bs points : forall st p,
  List.last points p = current_origin (hops bs st (p :: points))
  /\ movements (hops bs st (p :: points)) = [].
Proof.
  induction points as [|q rest IH]; intros st p.
  - simpl. rewrite orb_true_r. split; reflexivity.
  - change (hops bs st (p :: q :: rest))
      with (hops bs (hop bs st p false) (q :: rest)).
    destruct (IH (hop bs st p false) q) as [H1 H2].
    split; [|exact H2]. rewrite <- H1. apply last_cons.
Qed.

(** The carry is exact up to the final flush: the moves emitted by the loop
    and the remainder still held add up to the distance from the origin to
    the last point of the trajectory. *)
Lemma loop_carries_remainders bs origin p points :
  let st := hops bs (initial_state origin) (p :: points) in
  (inject_Z (sum_dx (actions st)) + fst (extra_numbers st)
   == fst (List.last points p) - inject_Z (fst origin))%Q
  /\ (inject_Z (sum_dy (actions st)) + snd (extra_numbers st)
      == snd (List.last points p) - inject_Z (snd origin))%Q.
Proof.
  intros st.
  destruct (hops_conserved bs (p :: points) (initial_state origin))
    as [cx cy cdx cdy].
  destruct (hops_end bs points (initial_state origin) p) as [Hl Hm].
  fold st in cx, cy, cdx, cdy, Hl, Hm.
  unfold emitted in cdx, cdy. rewrite Hm, app_nil_r in cdx, cdy.
  simpl in cx, cy, cdx, cdy. unfold sum_dx, sum_dy in cdx, cdy. simpl in cdx, cdy.
  assert (Ex : sum_dx (actions st) = fst (total_offset st))
    by (unfold sum_dx; lia).
  assert (Ey : sum_dy (actions st) = snd (total_offset st))
    by (unfold sum_dy; lia).
  rewrite Ex, Ey, Hl. change (inject_Z 0) with 0%Q in cx, cy. split; lra.
Qed.


(** C1. The claim: for every trajectory the emitted integer steps sum to
    [round(last.x - first.x)] and [round(last.y - first.y)], so that the
    reported position never drifts from the endpoint. On the trajectory
    (0,0), (-0.5,0), (-1,0) from the origin (0,0) the loop holds a remainder
    of -1 on the x axis when it ends, the final flush computes
    [int(-1 + 0.5)], which is 0, and the steps sum to 0 where
    [round(-1 - 0)] is -1; the position returned is (0,0), not (-1,0). *)
Theorem execute_web_movement_loses_negative_remainder :
  let opts := {| use_native_events := false; reduce_polling := true;
                 optimize_for_headless := false |} in
  let points := [(0, 0); (- (1 # 2), 0); (-1, 0)]%Q in
  let st := hops 3 (initial_state (0, 0)) points in
  let result := _execute_web_movement opts points (0, 0) (-1, 0) Performed in
  (fst (extra_numbers st) == -1)%Q
  /\ sum_dx (fst result) = 0
  /\ py_round (-1 - 0) = -1
  /\ snd result = (0, 0).
Proof. vm_compute. repeat split; reflexivity. Qed.

End WebAdjusterFacts.

(** ** The curve handed to the executor *)

Module CurveFacts.

Import HumanCurve WebAdjuster Examples.

Lemma Qleb0_true x : Qleb0 x = true <-> (0 <= x)%Q.
Proof. unfold Qleb0. apply Qle_bool_iff. Qed.

Lemma point_eqb_eq p q : point_eqb p q = true <-> point_eq p q.
Proof.
  unfold point_eqb, point_eq. rewrite andb_true_iff, !Qeq_bool_iff. reflexivity.
Qed.

Lemma head_force_endpoints o d l : head (force_endpoints o d l) = Some o.
Proof. reflexivity. Qed.

Lemma last_force_endpoints o d l : last (force_endpoints o d l) = Some d.
Proof.
  unfold force_endpoints. rewrite app_comm_cons. apply last_snoc.
Qed.

Lemma head_with_overshoot d e t o :
  head t = Some o -> head (with_overshoot d e t) = Some o.
Proof.
  intros H. destruct e; [exact H|]. destruct t; [discriminate|exact H].
Qed.

Lemma last_with_overshoot d e t :
  last t = Some d -> last (with_overshoot d e t) = Some d.
Proof.
  intros H. destruct e as [|x e]; [exact H|].
  unfold with_overshoot. rewrite !app_assoc. apply last_snoc.
Qed.

(** The adjustments of [_generate_human_curve] keep valid parameters valid. *)
Lemma adjust_parameters_valid steady opts p :
  magnitudes_ok p = true -> 2 <= target_points p ->
  magnitudes_ok (adjust_parameters steady opts p) = true
  /\ 2 <= target_points (adjust_parameters steady opts p).
Proof.
  intros Hm Ht. unfold magnitudes_ok in *.
  apply andb_prop in Hm as [Hm Hf]. apply andb_prop in Hm as [Hm Hs].
  apply andb_prop in Hm as [Hm Hd]. apply andb_prop in Hm as [Hm Hk].
  apply andb_prop in Hm as [Hx Hy].
  assert (Hk' : (0 <=? Z.min (knots_count p) 3) = true)
    by (apply Z.leb_le; apply Z.leb_le in Hk; lia).
  unfold adjust_parameters.
  destruct steady, (optimize_for_headless opts); simpl;
    rewrite ?Hx, ?Hy, ?Hk, ?Hk', ?Hd, ?Hs, ?Hf; simpl;
    split; try reflexivity; lia.
Qed.

Lemma length_distort_from p rng samples : forall i,
  length (distort_from p rng i samples) = length samples.
Proof.
  induction samples as [|a [|b rest] IH]; intros i; try reflexivity.
  change (length (distort_from p rng i (a :: b :: rest)))
    with (S (length (distort_from p rng (S i) (b :: rest)))).
  rewrite IH. reflexivity.
Qed.

Lemma length_removelast (l : list Point) :
  l <> [] -> S (length (removelast l)) = length l.
Proof.
  intros Hl. rewrite removelast_firstn_len, length_firstn.
  destruct l; [contradiction|]. simpl. lia.
Qed.

Lemma length_force_endpoints o d samples :
  (2 <= length samples)%nat ->
  length (force_endpoints o d samples) = length samples.
Proof.
  destruct samples as [|a [|b rest]]; simpl; try lia. intros _.
  rewrite length_app. simpl.
  pose proof (length_removelast (b :: rest)) as H. simpl in H.
  rewrite <- H by discriminate. lia.
Qed.

(** Without overshoot the trajectory has exactly [target_points] points. *)
Lemma trajectory_length fitted_curve origin destination p rng :
  magnitudes_ok p = true -> 2 <= target_points p ->
  point_eqb origin destination = false ->
  exists t,
    HumanizeMouseTrajectory fitted_curve (fun _ _ _ _ => []) origin destination
      p rng = inr t
    /\ Z.of_nat (length t) = target_points p.
Proof.
  intros Hm Ht Hd. unfold HumanizeMouseTrajectory. rewrite Hm, Hd. simpl.
  destruct (Z.ltb_spec (target_points p) 2) as [Hlt|_]; [lia|].
  eexists. split; [reflexivity|].
  assert (Hlen : length (distort p rng
                   (resample (fitted_curve origin destination p rng) (tween p)
                      (Z.to_nat (target_points p))))
                 = Z.to_nat (target_points p)).
  { unfold distort, resample.
    rewrite length_distort_from, length_map, length_seq. reflexivity. }
  rewrite length_force_endpoints; rewrite Hlen; lia.
Qed.

(** The generator on valid parameters. *)
Lemma trajectory_endpoints fitted_curve overshoot origin destination p rng :
  magnitudes_ok p = true -> 2 <= target_points p ->
  exists t end_point,
    HumanizeMouseTrajectory fitted_curve overshoot origin destination p rng
      = inr t
    /\ head t = Some origin
    /\ last t = Some end_point
    /\ point_eq end_point destination.
Proof.
  intros Hm Ht. unfold HumanizeMouseTrajectory. rewrite Hm. simpl.
  destruct (point_eqb origin destination) eqn:Hd.
  - exists [origin], origin. repeat split; try reflexivity;
      apply point_eqb_eq in Hd; apply Hd.
  - destruct (Z.ltb_spec (target_points p) 2) as [Hlt|_]; [lia|].
    eexists _, destination. split; [reflexivity|].
    split; [apply head_with_overshoot, head_force_endpoints|].
    split; [apply last_with_overshoot, last_force_endpoints|].
    split; reflexivity.
Qed.

(** C2. For valid curve parameters with at least two target points, whatever
    the steady flag, the headless optimization, the fitted curve, the jitter
    and the overshoot do, [_generate_human_curve] yields a trajectory that
    starts at the origin and ends at the destination exactly. *)
Theorem generate_human_curve_endpoints
    fitted_curve overshoot default_parameters opts p origin destination
    steady rng :
  magnitudes_ok p = true -> 2 <= target_points p ->
  exists t end_point,
    _generate_human_curve fitted_curve overshoot default_parameters opts
      (Some p) origin destination steady rng = inr t
    /\ head t = Some origin
    /\ last t = Some end_point
    /\ point_eq end_point destination.
Proof.
  intros Hm Ht.
  destruct (adjust_parameters_valid steady opts p Hm Ht) as [Hm' Ht'].
  destruct (trajectory_endpoints fitted_curve overshoot origin destination
              (adjust_parameters steady opts p) rng Hm' Ht')
    as (t & e & Heq & Hh & Hl & He).
  exists t, e. unfold _generate_human_curve. rewrite Heq. auto.
Qed.

Lemma generate_human_curve_endpoints_example :
  exists t end_point,
    _generate_human_curve bent_curve small_overshoot sample_parameters headless
      (Some sample_parameters) (0, 0)%Q (1000, 0)%Q false constant_source
    = inr t
    /\ head t = Some (0, 0)%Q
    /\ last t = Some end_point
    /\ point_eq end_point (1000, 0)%Q.
Proof.
  apply (generate_human_curve_endpoints bent_curve small_overshoot
           sample_parameters headless sample_parameters (0, 0)%Q (1000, 0)%Q
           false constant_source).
  - reflexivity.
  - simpl. lia.
Defined.

(** A steady trajectory of three points along the straight line: the middle
    point is moved by the jitter on both axes. *)
Lemma shaky_trajectory g :
  _generate_human_curve straight_line no_overshoot sample_parameters desktop
    (Some three_points) (0, 0)%Q (100, 0)%Q true (shaky_source g)
  = inr [(0, 0)%Q;
         (0 + (1 / 2) * (100 - 0) + ((12 # 10) + (12 # 10) * g),
          0 + (1 / 2) * (0 - 0) + ((12 # 10) + (12 # 10) * g))%Q;
         (100, 0)%Q].
Proof. reflexivity. Qed.

(** C3, as the claim states it: in steady mode the knots count is reduced to
    0 or 1, and the path stays within a fixed distance of the straight line.
    Lines 196 to 198 leave the knots count as it was drawn; and the
    distortion they set has a standard deviation of 1.2, so that no distance
    bounds the jitter of every draw: along the straight line from (0, 0) to
    (100, 0), for every [eps] a normal draw of [eps * eps] moves the middle
    point of a steady path further than [eps] from the line. *)
Lemma steady_keeps_knots_count :
  ~ (forall opts p,
       0 <= knots_count (adjust_parameters true opts p) <= 1)
  /\ ~ (exists eps,
          forall rng t,
            _generate_human_curve straight_line no_overshoot sample_parameters
              desktop (Some three_points) (0, 0)%Q (100, 0)%Q true rng
            = inr t ->
            Forall (within eps (0, 0)%Q (100, 0)%Q) t).
Proof.
  split.
  - intros H. specialize (H desktop sample_parameters). simpl in H. lia.
  - intros [eps H].
    specialize (H (shaky_source (eps * eps)) _ (shaky_trajectory (eps * eps))).
    apply Forall_cons in H as [_ H]. apply Forall_cons in H as [[H0 H] _].
    unfold cross, norm2 in H. cbn [fst snd] in H.
    assert (Hz : (0 <= eps * eps)%Q) by nra.
    set (z := (eps * eps)%Q) in *. clearbody z.
    assert (Hhalf : (1 / 2 == 1 # 2)%Q) by reflexivity.
    rewrite Hhalf in H. nra.
Qed.

(** C3. With [steady] set, the parameters that the trajectory is generated
    with are the drawn ones with both offset boundaries set to 10 and the
    distortion set to 1.2, 1.2 and 0.1; the knots count, the tween and the
    target points are those drawn, the knots count capped at 3 and the target
    points at 30 in headless mode only. This holds when the parameters could
    be drawn and the generator accepts them; otherwise the trajectory is
    generated with the default parameters of the generator, whatever
    [steady] is. *)
Theorem steady_curve_parameters
    fitted_curve overshoot default_parameters opts drawn origin destination
    rng :
  let generate := HumanizeMouseTrajectory fitted_curve overshoot origin
                    destination in
  let result := _generate_human_curve fitted_curve overshoot
                  default_parameters opts drawn origin destination true rng in
  (forall p t,
     drawn = Some p ->
     generate (adjust_parameters true opts p) rng = inr t ->
     let q := adjust_parameters true opts p in
     result = generate q rng
     /\ offset_boundary_x q = 10%Q
     /\ offset_boundary_y q = 10%Q
     /\ distortion_mean q = (12 # 10)%Q
     /\ distortion_st_dev q = (12 # 10)%Q
     /\ distortion_frequency q = (1 # 10)%Q
     /\ knots_count q
        = (if optimize_for_headless opts then Z.min (knots_count p) 3
           else knots_count p)
     /\ target_points q
        = (if optimize_for_headless opts then Z.min (target_points p) 30
           else target_points p)
     /\ tween q = tween p)
  /\ (drawn = None
      \/ (exists p e,
            drawn = Some p
            /\ generate (adjust_parameters true opts p) rng = inl e) ->
      result = generate default_parameters rng)
  /\ (drawn = None ->
      result
      = _generate_human_curve fitted_curve overshoot default_parameters opts
          drawn origin destination false rng).
Proof.
  cbv zeta. unfold _generate_human_curve. split; [|split].
  - intros p t -> Ht. rewrite Ht. split; [reflexivity|].
    unfold adjust_parameters.
    destruct (optimize_for_headless opts); simpl; repeat split; reflexivity.
  - intros [-> | (p & e & -> & He)]; [reflexivity|]. rewrite He. reflexivity.
  - intros ->. reflexivity.
Qed.

Lemma steady_curve_parameters_example :
  let q := adjust_parameters true headless sample_parameters in
  _generate_human_curve bent_curve small_overshoot sample_parameters headless
    (Some sample_parameters) (0, 0)%Q (1000, 0)%Q true constant_source
  = HumanizeMouseTrajectory bent_curve small_overshoot (0, 0)%Q (1000, 0)%Q q
      constant_source
  /\ offset_boundary_x q = 10%Q
  /\ offset_boundary_y q = 10%Q
  /\ distortion_st_dev q = (12 # 10)%Q
  /\ knots_count q = 3
  /\ target_points q = 30.
Proof.
  destruct (trajectory_endpoints bent_curve small_overshoot (0, 0)%Q
              (1000, 0)%Q (adjust_parameters true headless sample_parameters)
              constant_source eq_refl ltac:(simpl; lia))
    as (t & e & Ht & _).
  pose proof (steady_curve_parameters bent_curve small_overshoot
                sample_parameters headless (Some sample_parameters)
                (0, 0)%Q (1000, 0)%Q constant_source) as H.
  cbv zeta in H. destruct H as [H _].
  destruct (H sample_parameters t eq_refl Ht)
    as (H1 & H2 & H3 & _ & H5 & _ & H7 & H8 & _).
  repeat split; assumption.
Defined.

End CurveFacts.

(** ** Fatigue and the session *)

Module SessionFacts.

Import Str Keyboard Examples.

Lemma fatigue_curve_bounds half_time d :
  (0 < half_time)%Q ->
  (0 <= fatigue_curve half_time d)%Q /\ (fatigue_curve half_time d <= 1)%Q.
Proof.
  intros HT. unfold fatigue_curve.
  destruct (Qltb 0 d) eqn:Hd.
  - apply Qltb_lt in Hd.
    assert (Hpos : (0 < d + half_time)%Q) by lra.
    split.
    + apply Qle_shift_div_l; [exact Hpos | lra].
    + apply Qle_shift_div_r; [exact Hpos | lra].
  - split; lra.
Qed.

Lemma fatigue_curve_monotone half_time d1 d2 :
  (0 < half_time)%Q -> (d1 <= d2)%Q ->
  (fatigue_curve half_time d1 <= fatigue_curve half_time d2)%Q.
Proof.
  intros HT Hle.
  pose proof (fatigue_curve_bounds half_time d2 HT) as [Hlo Hhi].
  unfold fatigue_curve in *.
  destruct (Qltb 0 d1) eqn:H1.
  - apply Qltb_lt in H1.
    assert (H2 : Qltb 0 d2 = true) by (apply Qltb_lt; lra).
    rewrite H2 in *.
    assert (Hp1 : (0 < d1 + half_time)%Q) by lra.
    assert (Hp2 : ~ (d2 + half_time == 0)%Q) by lra.
    apply Qle_shift_div_r; [exact Hp1|].
    pose proof (Qmult_div_r d2 (d2 + half_time) Hp2) as Hq.
    set (f := (d2 / (d2 + half_time))%Q) in *.
    nra.
  - exact Hlo.
Qed.

Lemma update_fatigue_state half_time st :
  _update_fatigue half_time st
  = (Returned tt,
     {| self := set_engine
                  (update_fatigue half_time
                     (clock (env st) - session_start (engine (self st))))
                  (self st);
        env := env st;
        trace := trace st |}).
Proof. reflexivity. Qed.

Lemma fatigue_after_eq half_time st :
  fatigue_after half_time st
  = fatigue_curve half_time (clock (env st) - session_start (engine (self st))).
Proof. reflexivity. Qed.

(** C4. Within one session (the same [session_start]), a later call of
    [_update_fatigue] leaves a fatigue level that is at least the one an
    earlier call leaves, and the level always lies in [[0,1]]. *)
Theorem update_fatigue_monotone_bounded half_time st1 st2 :
  (0 < half_time)%Q ->
  (session_start (engine (self st1)) == session_start (engine (self st2)))%Q ->
  (clock (env st1) <= clock (env st2))%Q ->
  (fatigue_after half_time st1 <= fatigue_after half_time st2)%Q
  /\ (0 <= fatigue_after half_time st1)%Q
  /\ (fatigue_after half_time st1 <= 1)%Q.
Proof.
  intros HT Hs Hc. rewrite !fatigue_after_eq. split.
  - apply fatigue_curve_monotone; [exact HT | lra].
  - apply fatigue_curve_bounds, HT.
Qed.

Lemma update_fatigue_monotone_bounded_example :
  (fatigue_after 3600 (at_time 600) <= fatigue_after 3600 (at_time 7200))%Q
  /\ (0 <= fatigue_after 3600 (at_time 600))%Q
  /\ (fatigue_after 3600 (at_time 600) <= 1)%Q.
Proof.
  apply (update_fatigue_monotone_bounded 3600 (at_time 600) (at_time 7200)).
  - reflexivity.
  - reflexivity.
  - discriminate.
Defined.

Lemma getattr_set_engine f h key : getattr (set_engine f h) key = getattr h key.
Proof. reflexivity. Qed.

Lemma engine_setattr h key v : engine (setattr h key v) = engine h.
Proof. reflexivity. Qed.

Lemma engine_restore_settings orig : forall h,
  engine (restore_settings orig h) = engine h.
Proof.
  unfold restore_settings.
  induction orig as [|[k v] orig IH]; intros h; simpl; [reflexivity|].
  rewrite IH. reflexivity.
Qed.

Lemma engine_override_step kwargs acc key :
  engine (snd (override_step kwargs acc key)) = engine (snd acc).
Proof.
  unfold override_step. destruct acc as [orig h].
  destruct (flags kwargs !! key), (getattr h key); reflexivity.
Qed.

Lemma engine_apply_overrides kwargs h :
  engine (snd (apply_overrides kwargs h)) = engine h.
Proof.
  unfold apply_overrides.
  change (engine h) with (engine (snd (@nil (string * bool), h))).
  generalize (@nil (string * bool), h).
  induction override_keys as [|k ks IH]; intros acc; simpl; [reflexivity|].
  rewrite IH. apply engine_override_step.
Qed.

Lemma adapt_to_context_session text h :
  session_of (engine (_adapt_to_context text h)) = session_of (engine h).
Proof.
  unfold _adapt_to_context.
  repeat match goal with |- context [if ?b then _ else _] => destruct b end;
    reflexivity.
Qed.

(** [reset_session] returns with the fatigue level exactly 0, the counters
    replaced by zeroed ones and the session start set to the current time; it
    keeps the typing speed, the error rate and every setting. The steps of
    [type_text] on the humanizer's own state (adapting to the context,
    updating the fatigue, applying and restoring the overrides) leave the
    session start and the counters as they are. *)
Lemma reset_session_state st :
  let st' := snd (reset_session st) in
  let e' := engine (self st') in
  fst (reset_session st) = Returned tt
  /\ fatigue_level e' = 0%Q
  /\ stats e' = new_TypingStats
  /\ (characters_typed (stats e') = 0 /\ words_typed (stats e') = 0
      /\ errors_made (stats e') = 0 /\ corrections_made (stats e') = 0)
  /\ session_start e' = clock (env st)
  /\ (recent_chars e' = [] /\ recent_timings e' = [])
  /\ (base_wpm e' = base_wpm (engine (self st))
      /\ error_rate e' = error_rate (engine (self st)))
  /\ (forall key, getattr (self st') key = getattr (self st) key)
  /\ (env st' = env st /\ trace st' = trace st)
  /\ (forall text h,
        session_of (engine (_adapt_to_context text h)) = session_of (engine h))
  /\ (forall half_time s,
        let s' := snd (_update_fatigue half_time s) in
        session_start (engine (self s')) = session_start (engine (self s))
        /\ stats (engine (self s')) = stats (engine (self s)))
  /\ (forall kwargs h, engine (snd (apply_overrides kwargs h)) = engine h)
  /\ (forall original_settings h,
        engine (restore_settings original_settings h) = engine h).
Proof.
  cbv zeta. repeat split; try reflexivity.
  - apply adapt_to_context_session.
  - apply engine_apply_overrides.
  - apply engine_restore_settings.
Qed.

End SessionFacts.

(** ** Words and sentences *)

Module TextFacts.

Import Str Keyboard Examples.

Lemma ratio_below_iff (u n : Z) :
  0 < n ->
  ((inject_Z u / inject_Z n < 7 # 10)%Q <-> 10 * u < 7 * n).
Proof.
  intros Hn. destruct n as [|n|n]; try lia.
  unfold Qlt, Qdiv, Qinv, Qmult, inject_Z. simpl. lia.
Qed.

(** The words of a text are not empty and hold no whitespace. *)
Lemma split_from_words s : forall word,
  Forall (fun c => isspace c = false) word ->
  Forall (fun w => w <> [] /\ Forall (fun c => isspace c = false) w)
         (split_from word s).
Proof.
  assert (Hrev : forall w : str,
            w <> [] -> Forall (fun c => isspace c = false) w ->
            rev w <> [] /\ Forall (fun c => isspace c = false) (rev w)).
  { intros w Hw Hf. split.
    - intros Hr. apply Hw. rewrite <- (rev_involutive w), Hr. reflexivity.
    - apply Forall_forall. intros c Hc. apply list_elem_of_In, in_rev in Hc.
      rewrite Forall_forall in Hf. apply Hf, list_elem_of_In, Hc. }
  induction s as [|c rest IH]; intros word Hword; simpl.
  - destruct word as [|a word]; [constructor|].
    constructor; [|constructor]. apply Hrev; [discriminate | exact Hword].
  - destruct (isspace c) eqn:Hc.
    + destruct word as [|a word]; [apply IH; constructor|].
      constructor; [|apply IH; constructor].
      apply Hrev; [discriminate | exact Hword].
    + apply IH. constructor; assumption.
Qed.

Lemma split_words text :
  Forall (fun w => w <> [] /\ Forall (fun c => isspace c = false) w)
         (split text).
Proof. apply split_from_words. constructor. Qed.

(** The distinct words are at most the words, and all of them when no word
    occurs twice. *)
Lemma unique_count_le (words : list str) :
  (unique_count words <= length words)%nat.
Proof.
  unfold unique_count. induction words as [|w words IH].
  - rewrite list_to_set_nil, size_empty. simpl. lia.
  - rewrite list_to_set_cons, size_union_alt, size_singleton. simpl length.
    pose proof (subseteq_size (list_to_set words ∖ {[w]} : gset str)
                  (list_to_set words)) as Hsub.
    assert (Hincl : (list_to_set words ∖ {[w]} : gset str) ⊆ list_to_set words)
      by (apply subseteq_difference_l; reflexivity).
    specialize (Hsub Hincl). lia.
Qed.

Lemma unique_count_NoDup (words : list str) :
  NoDup words -> unique_count words = length words.
Proof. apply size_list_to_set. Qed.

(** C6. A text is classified repetitive exactly when it has at least five
    whitespace-separated words and the number of distinct words divided by
    the number of words is strictly below 0.7 (ten times the distinct words
    below seven times the words); with fewer than five words it is never
    classified repetitive. *)
Theorem has_repetitive_content_iff text :
  let words := split text in
  let unique := Z.of_nat (unique_count words) in
  let total := Z.of_nat (length words) in
  (_has_repetitive_content text = true
   <-> (5 <= length words)%nat /\ (inject_Z unique / inject_Z total < 7 # 10)%Q)
  /\ (_has_repetitive_content text = true
      <-> (5 <= length words)%nat /\ 10 * unique < 7 * total)
  /\ ((length words < 5)%nat -> _has_repetitive_content text = false).
Proof.
  cbv zeta. unfold _has_repetitive_content.
  destruct (Nat.ltb_spec (length (split text)) 5) as [Hlt|Hge].
  - repeat split; try discriminate; try reflexivity; intros [H _]; lia.
  - rewrite Qltb_lt.
    pose proof (ratio_below_iff (Z.of_nat (unique_count (split text)))
                  (Z.of_nat (length (split text)))) as Hr.
    assert (Hpos : 0 < Z.of_nat (length (split text))) by lia.
    specialize (Hr Hpos). repeat split; try tauto; lia.
Qed.

Lemma cuts_snoc cur c :
  cuts (cur ++ [c])
  = is_terminal c && (3 <? length (strip (cur ++ [c])))%nat.
Proof. unfold cuts. rewrite last_snoc. reflexivity. Qed.

Lemma split_step_snoc sentences cur c :
  split_step (sentences, cur) c
  = if cuts (cur ++ [c]) then (sentences ++ [strip (cur ++ [c])], [])
    else (sentences, cur ++ [c]).
Proof. unfold split_step. rewrite cuts_snoc. reflexivity. Qed.

Lemma never_cut_nil : never_cut [].
Proof.
  intros p q H Hp. symmetry in H. apply app_eq_nil in H as [-> _].
  contradiction.
Qed.

(** A proper prefix of [cur ++ [c]] is a prefix of [cur]. *)
Lemma proper_prefix_snoc (p q cur : str) c :
  cur ++ [c] = p ++ q -> q <> [] -> exists q', cur = p ++ q'.
Proof.
  intros H Hq. destruct (exists_last Hq) as (q' & x & ->).
  rewrite app_assoc in H. apply app_inj_tail in H as [H _].
  exists q'. exact H.
Qed.

Lemma never_cut_snoc cur c :
  never_cut cur -> cuts (cur ++ [c]) = false -> never_cut (cur ++ [c]).
Proof.
  intros Hn Hc p q H Hp.
  destruct q as [|x q].
  - rewrite app_nil_r in H. subst p. exact Hc.
  - destruct (proper_prefix_snoc p (x :: q) cur c H) as [q' Hq'];
      [discriminate|].
    exact (Hn p q' Hq' Hp).
Qed.

Lemma cut_at_end_snoc cur c :
  never_cut cur -> cuts (cur ++ [c]) = true -> cut_at_end_only (cur ++ [c]).
Proof.
  intros Hn Hc. split; [exact Hc|].
  intros p q H Hp Hq.
  destruct (proper_prefix_snoc p q cur c H Hq) as [q' Hq'].
  exact (Hn p q' Hq' Hp).
Qed.

(** The loop cuts the text read where [cuts] says, and nowhere else. *)
Lemma loop_decomposition text : forall sentences cur,
  never_cut cur ->
  exists raws tail,
    fold_left split_step text (sentences, cur)
    = (sentences ++ List.map strip raws, tail)
    /\ cur ++ text = concat raws ++ tail
    /\ Forall cut_at_end_only raws
    /\ never_cut tail.
Proof.
  induction text as [|c rest IH]; intros sentences cur Hn.
  - exists [], cur. simpl. rewrite !app_nil_r. auto.
  - change (fold_left split_step (c :: rest) (sentences, cur))
      with (fold_left split_step rest (split_step (sentences, cur) c)).
    rewrite split_step_snoc.
    destruct (cuts (cur ++ [c])) eqn:Hc; cbv iota.
    + destruct (IH (sentences ++ [strip (cur ++ [c])]) [] never_cut_nil)
        as (raws & tail & Hf & Ht & Hr & Hnt).
      exists ((cur ++ [c]) :: raws), tail. repeat split.
      * etransitivity; [exact Hf|]. simpl. rewrite <- app_assoc. reflexivity.
      * simpl in Ht. rewrite Ht. simpl. rewrite <- !app_assoc. reflexivity.
      * constructor; [apply cut_at_end_snoc; assumption | exact Hr].
      * exact Hnt.
    + destruct (IH sentences (cur ++ [c]) (never_cut_snoc cur c Hn Hc))
        as (raws & tail & Hf & Ht & Hr & Hnt).
      exists raws, tail. repeat split; try assumption.
      rewrite <- Ht, <- app_assoc. reflexivity.
Qed.

Lemma is_terminal_cases c :
  is_terminal c = true -> c = "."%char \/ c = "!"%char \/ c = "?"%char.
Proof.
  unfold is_terminal. simpl. unfold ascii_eqb.
  rewrite !orb_false_r, !andb_true_r, !orb_true_iff, !Ascii.eqb_eq.
  intuition.
Qed.

Lemma is_terminal_not_space c : is_terminal c = true -> isspace c = false.
Proof.
  intros H. destruct (is_terminal_cases c H) as [->|[->| ->]]; reflexivity.
Qed.

Lemma lstrip_snoc body c :
  isspace c = false -> exists b, lstrip (body ++ [c]) = b ++ [c].
Proof.
  intros Hc. induction body as [|a body IH]; simpl.
  - rewrite Hc. exists []. reflexivity.
  - destruct (isspace a); [exact IH|]. exists (a :: body). reflexivity.
Qed.

(** Stripping keeps a last character that is not whitespace. *)
Lemma strip_snoc body c :
  isspace c = false -> exists b, strip (body ++ [c]) = b ++ [c].
Proof.
  intros Hc. destruct (lstrip_snoc body c Hc) as [b Hb].
  exists b. unfold strip, rstrip. rewrite Hb, rev_app_distr. simpl.
  rewrite Hc. simpl. rewrite rev_involutive. reflexivity.
Qed.

(** What a cut gives: a fragment that ends with the terminal character and
    is longer than three characters. *)
Lemma cut_fragment r :
  cuts r = true ->
  exists c, last (strip r) = Some c /\ is_terminal c = true
            /\ (3 < length (strip r))%nat.
Proof.
  unfold cuts. intros H.
  destruct (last r) as [c|] eqn:Hl; [|discriminate].
  apply andb_prop in H as [Ht Hlen]. apply Nat.ltb_lt in Hlen.
  apply last_Some in Hl as [body ->].
  destruct (strip_snoc body c (is_terminal_not_space c Ht)) as [b Hb].
  exists c. rewrite Hb at 1. rewrite last_snoc. auto.
Qed.

(** C9. [_split_into_sentences] always returns a non-empty list. The text is
    the concatenation of pieces and a tail such that each piece ends with
    one of '.', '!', '?' where its stripped length exceeds 3 and at no
    earlier character, and no such place occurs in the tail; the fragments
    returned are the stripped pieces, each ending with its terminal character
    and longer than 3, followed by the stripped tail when that is not empty;
    when there is no fragment at all the text itself is returned. *)
Theorem split_into_sentences_spec text :
  _split_into_sentences text <> []
  /\ exists raws tail,
       text = concat raws ++ tail
       /\ Forall cut_at_end_only raws
       /\ never_cut tail
       /\ Forall (fun fragment =>
                    exists c, last fragment = Some c /\ is_terminal c = true
                              /\ (3 < length fragment)%nat)
                 (List.map strip raws)
       /\ _split_into_sentences text
          = match List.map strip raws ++ tail_fragment tail with
            | [] => [text]
            | fragments => fragments
            end.
Proof.
  destruct (loop_decomposition text [] [] never_cut_nil)
    as (raws & tail & Hf & Ht & Hr & Hn).
  simpl in Hf, Ht.
  assert (Heq : _split_into_sentences text
                = match List.map strip raws ++ tail_fragment tail with
                  | [] => [text]
                  | fragments => fragments
                  end).
  { unfold _split_into_sentences, tail_fragment.
    match goal with
    | |- context [fold_left split_step text ?a] =>
        replace (fold_left split_step text a) with (List.map strip raws, tail)
          by (symmetry; exact Hf)
    end.
    destruct (strip tail); rewrite ?app_nil_r;
      match goal with
      | |- match ?fragments with _ => _ end = _ => destruct fragments
      end; reflexivity. }
  split.
  - rewrite Heq. destruct (List.map strip raws ++ tail_fragment tail);
      discriminate.
  - exists raws, tail. repeat split; try assumption.
    apply Forall_map. eapply Forall_impl; [exact Hr|].
    intros r [Hc _]. apply cut_fragment, Hc.
Qed.

End TextFacts.

(** ** Typing a text *)

Module HumanizerFacts.

Import Str Keyboard Examples.

Local Open Scope py_scope.

Lemma bind_get {B} (k : State -> M B) st : bind get k st = k st st.
Proof. reflexivity. Qed.

(** Relations between the state before and after a computation that the
    steps of the typing loop respect. *)
Section Respect.

Variable engine_type_text : str -> bool -> EngineCall bool.
Variable engine_add_spontaneous_correction : str -> EngineCall unit.

Variable R : State -> State -> Prop.
Hypothesis R_refl : forall st, R st st.
Hypothesis R_trans : forall a b c, R a b -> R b c -> R a c.
Hypothesis R_random : forall st, R st (snd (random st)).
Hypothesis R_pause : forall first st, R st (snd (thinking_pause first st)).
Hypothesis R_type : forall sentence copy_paste st,
  R st (snd (call_engine [EngineTypeText sentence copy_paste]
               (engine_type_text sentence copy_paste) st)).
Hypothesis R_correct : forall sentence st,
  R st (snd (call_engine [EngineSpontaneousCorrection sentence]
               (engine_add_spontaneous_correction sentence) st)).

Lemma respects_bind {A B} (c : M A) (k : A -> M B) st :
  R st (snd (c st)) ->
  (forall a st1, R st1 (snd (k a st1))) ->
  R st (snd (bind c k st)).
Proof.
  intros Hc Hk. unfold bind. specialize (Hk).
  destruct (c st) as [[a|] st1]; simpl in *.
  - eapply R_trans; [exact Hc | apply Hk].
  - exact Hc.
Qed.

Lemma respects_correction sentence st :
  R st (snd (spontaneous_correction engine_add_spontaneous_correction
               sentence st)).
Proof.
  unfold spontaneous_correction. apply respects_bind; [apply R_random|].
  intros r st1. destruct (_ && _); [apply R_correct | apply R_refl].
Qed.

Lemma respects_type_sentence sentence st :
  R st (snd (type_sentence engine_type_text sentence st)).
Proof. unfold type_sentence. rewrite bind_get. apply R_type. Qed.

Lemma respects_type_sentences sentences : forall first st,
  R st (snd (type_sentences engine_type_text
               engine_add_spontaneous_correction first sentences st)).
Proof.
  induction sentences as [|sentence rest IH]; intros first st; simpl.
  - apply R_refl.
  - apply respects_bind; [apply R_pause|]. intros _ st1.
    apply respects_bind; [apply respects_type_sentence|]. intros success st2.
    destruct success; simpl; [|apply R_refl].
    apply respects_bind; [apply respects_correction|]. intros _ st3.
    apply IH.
Qed.

End Respect.

(** *** The settings during the loop *)

Lemma getattr_inj h1 h2 :
  (forall key, getattr h1 key = getattr h2 key) ->
  simulate_errors h1 = simulate_errors h2
  /\ auto_correct h1 = auto_correct h2
  /\ use_copy_paste h1 = use_copy_paste h2
  /\ add_thinking_pauses h1 = add_thinking_pauses h2
  /\ simulate_fatigue h1 = simulate_fatigue h2
  /\ context_aware h1 = context_aware h2.
Proof.
  intros H.
  pose proof (H "simulate_errors"%string) as H1.
  pose proof (H "auto_correct"%string) as H2.
  pose proof (H "use_copy_paste"%string) as H3.
  pose proof (H "add_thinking_pauses"%string) as H4.
  pose proof (H "simulate_fatigue"%string) as H5.
  pose proof (H "context_aware"%string) as H6.
  cbn in H1, H2, H3, H4, H5, H6. repeat split; congruence.
Qed.

Lemma thinking_pause_self first st :
  self (snd (thinking_pause first st)) = self st.
Proof.
  unfold thinking_pause. rewrite bind_get.
  destruct (negb first && add_thinking_pauses (self st)); [|reflexivity].
  unfold _get_thinking_pause, uniform, bind, random, ret, sleep. simpl.
  repeat match goal with |- context [if ?b then _ else _] => destruct b; simpl end;
    reflexivity.
Qed.

Lemma call_engine_self {A} ev (op : EngineCall A) st :
  self (snd (call_engine ev op st))
  = set_engine (fun _ => snd (fst (op (engine (self st)) (env st)))) (self st).
Proof.
  unfold call_engine. destruct (op _ _) as [[r e] v]. reflexivity.
Qed.

Lemma call_engine_trace {A} ev (op : EngineCall A) st :
  trace (snd (call_engine ev op st)) = trace st ++ ev.
Proof.
  unfold call_engine. destruct (op _ _) as [[r e] v]. reflexivity.
Qed.

Lemma type_sentences_settings etx esc sentences first st :
  same_settings st (snd (type_sentences etx esc first sentences st)).
Proof.
  apply (respects_type_sentences etx esc same_settings); unfold same_settings.
  - reflexivity.
  - intros a b c H1 H2 key. rewrite H2. apply H1.
  - reflexivity.
  - intros f s key. rewrite thinking_pause_self. reflexivity.
  - intros s b s0 key. rewrite call_engine_self. reflexivity.
  - intros s s0 key. rewrite call_engine_self. reflexivity.
Qed.

(** *** Overrides *)

Lemma apply_overrides_unfold kwargs h :
  apply_overrides kwargs h
  = override_step kwargs
      (override_step kwargs
         (override_step kwargs ([], h) "simulate_errors")
         "use_copy_paste")
      "add_thinking_pauses".
Proof. reflexivity. Qed.

(** Restoring the saved settings puts every overridden key back, whatever
    happened to the settings in between, and leaves the other settings. *)
Lemma restore_overridden kwargs h h1 key :
  In key override_keys ->
  getattr (restore_settings (fst (apply_overrides kwargs h)) h1) key
  = match flags kwargs !! key with
    | Some _ => getattr h key
    | None => getattr h1 key
    end.
Proof.
  intros Hk. rewrite apply_overrides_unfold. unfold override_step.
  assert (Hcases : key = "simulate_errors"%string
                   \/ key = "use_copy_paste"%string
                   \/ key = "add_thinking_pauses"%string)
    by (simpl in Hk; intuition).
  remember (flags kwargs !! "simulate_errors"%string) as o1.
  remember (flags kwargs !! "use_copy_paste"%string) as o2.
  remember (flags kwargs !! "add_thinking_pauses"%string) as o3.
  destruct Hcases as [->|[->| ->]];
    rewrite <- ?Heqo1, <- ?Heqo2, <- ?Heqo3;
    destruct o1, o2, o3; reflexivity.
Qed.

Lemma restore_other kwargs h h1 key :
  ~ In key override_keys ->
  getattr (restore_settings (fst (apply_overrides kwargs h)) h1) key
  = getattr h1 key.
Proof.
  intros Hk. rewrite apply_overrides_unfold. unfold override_step.
  assert (H1 : String.eqb key "simulate_errors" = false)
    by (apply String.eqb_neq; intros ->; apply Hk; simpl; auto).
  assert (H2 : String.eqb key "use_copy_paste" = false)
    by (apply String.eqb_neq; intros ->; apply Hk; simpl; auto).
  assert (H3 : String.eqb key "add_thinking_pauses" = false)
    by (apply String.eqb_neq; intros ->; apply Hk; simpl; auto).
  destruct (flags kwargs !! "simulate_errors"%string),
           (flags kwargs !! "use_copy_paste"%string),
           (flags kwargs !! "add_thinking_pauses"%string);
    cbn; unfold getattr; cbn; rewrite ?H1, ?H2, ?H3; reflexivity.
Qed.

Lemma type_text_eq etx esc half_time text kwargs st :
  type_text etx esc half_time text kwargs st
  = if scaling_raises kwargs (self st)
    then (Raised, entry_state kwargs st)
    else
      (fst (type_text_body etx esc half_time text (entry_state kwargs st)),
       finally_state kwargs (self st)
         (snd (type_text_body etx esc half_time text (entry_state kwargs st)))).
Proof.
  unfold type_text, entry_state, finally_state, scaling_raises.
  rewrite bind_get.
  pose proof (SessionFacts.engine_apply_overrides kwargs (self st)) as He.
  destruct (apply_overrides kwargs (self st)) as [orig h]. simpl in He.
  unfold bind, modify_self, try_finally, ret, raise. simpl. rewrite He.
  destruct (speed_multiplier kwargs) as [m|]; simpl;
    [destruct (scaled_wpm (base_wpm (engine (self st))) m) as [wpm|];
     simpl; [|reflexivity]|];
    match goal with
    | |- context [type_text_body _ _ _ _ ?s] =>
        destruct (type_text_body etx esc half_time text s) as [r st1]
    end; simpl; rewrite ?He; reflexivity.
Qed.

(** When scaling the typing speed raises, [type_text] raises with the
    overrides set, the typing speed untouched and nothing typed. *)
Lemma type_text_scaling_error etx esc half_time text kwargs st :
  scaling_raises kwargs (self st) = true ->
  type_text etx esc half_time text kwargs st
  = (Raised,
     {| self := snd (apply_overrides kwargs (self st));
        env := env st;
        trace := trace st |}).
Proof.
  intros Hs. rewrite type_text_eq, Hs. unfold entry_state.
  pose proof (SessionFacts.engine_apply_overrides kwargs (self st)) as He.
  unfold scaling_raises in Hs. rewrite <- He in Hs.
  destruct (speed_multiplier kwargs) as [m|]; [|discriminate].
  destruct (scaled_wpm _ m); [discriminate | reflexivity].
Qed.

(** X21. When scaling the typing speed does not raise, then whatever the
    engine does during the call (it may succeed, fail or raise), after
    [type_text] every boolean setting that was overridden through the keyword
    arguments has its value from before the call, and when [speed_multiplier]
    was given the typing speed of the engine has its value from before the
    call. *)
Theorem type_text_restores_overrides etx esc half_time text kwargs st :
  scaling_raises kwargs (self st) = false ->
  let st' := snd (type_text etx esc half_time text kwargs st) in
  (forall key, In key override_keys -> is_Some (flags kwargs !! key) ->
     getattr (self st') key = getattr (self st) key)
  /\ (is_Some (speed_multiplier kwargs) ->
      base_wpm (engine (self st')) = base_wpm (engine (self st))).
Proof.
  intros Hs. cbv zeta. rewrite type_text_eq, Hs. unfold finally_state.
  cbn [snd self]. split.
  - intros key Hk [v Hv].
    assert (Hr := restore_overridden kwargs (self st)
                    (self (snd (type_text_body etx esc half_time text
                                  (entry_state kwargs st)))) key Hk).
    rewrite Hv in Hr.
    destruct (speed_multiplier kwargs); [rewrite SessionFacts.getattr_set_engine|];
      exact Hr.
  - intros [m Hm]. rewrite Hm. reflexivity.
Qed.

Lemma type_text_restores_overrides_example :
  let st' := snd (type_text failing_type_text quiet_correction 3600
                    (lit "def f(x). Nice day.") some_overrides (at_time 100)) in
  (forall key, In key override_keys ->
     is_Some (flags some_overrides !! key) ->
     getattr (self st') key = getattr (self (at_time 100)) key)
  /\ (is_Some (speed_multiplier some_overrides) ->
      base_wpm (engine (self st')) = base_wpm (engine (self (at_time 100)))).
Proof.
  exact (type_text_restores_overrides failing_type_text quiet_correction 3600
           (lit "def f(x). Nice day.") some_overrides (at_time 100) eq_refl).
Defined.

(** C10. The overrides can outlast the call: [type_text] sets them and then
    scales the typing speed before its [try] block. With
    [simulate_errors=False] and a speed multiplier of [1e308], or an infinite
    one, scaling the speed of 60 raises: nothing is typed, the [finally] block
    is never reached and [simulate_errors] stays off. *)
Theorem type_text_scaling_error_keeps_overrides :
  let st := at_time 100 in
  let huge := type_text quiet_type_text quiet_correction 3600
                (lit "Hello there.") huge_speed st in
  let endless := type_text quiet_type_text quiet_correction 3600
                   (lit "Hello there.") endless_speed st in
  simulate_errors (self st) = true
  /\ (fst huge = Raised
      /\ simulate_errors (self (snd huge)) = false
      /\ trace (snd huge) = [])
  /\ (fst endless = Raised
      /\ simulate_errors (self (snd endless)) = false
      /\ trace (snd endless) = []).
Proof.
  cbv zeta.
  rewrite (type_text_scaling_error quiet_type_text quiet_correction 3600
             (lit "Hello there.") huge_speed (at_time 100))
    by (vm_compute; reflexivity).
  rewrite (type_text_scaling_error quiet_type_text quiet_correction 3600
             (lit "Hello there.") endless_speed (at_time 100))
    by reflexivity.
  repeat split.
Qed.

(** *** Waiting *)

Lemma get_thinking_pause_pure st :
  exists pause,
    fst (_get_thinking_pause st) = Returned pause
    /\ (pause = 0%Q
        \/ pause = ((3 # 10) + ((15 # 10) - (3 # 10))
                               * draws (env st) (S (cursor (env st))))%Q)
    /\ trace (snd (_get_thinking_pause st)) = trace st
    /\ clock (env (snd (_get_thinking_pause st))) = clock (env st)
    /\ self (snd (_get_thinking_pause st)) = self st.
Proof.
  unfold _get_thinking_pause, uniform, bind, random, ret. simpl.
  destruct (Qltb _ _); simpl; eexists; repeat split; auto.
Qed.

Lemma no_sleep_added_refl st : no_sleep_added st st.
Proof.
  intros H. split; [exact H|]. exists []. rewrite app_nil_r. auto.
Qed.

Lemma no_sleep_added_trans a b c :
  no_sleep_added a b -> no_sleep_added b c -> no_sleep_added a c.
Proof.
  intros H1 H2 Ha. destruct (H1 Ha) as (Hb & e1 & T1 & F1).
  destruct (H2 Hb) as (Hc & e2 & T2 & F2).
  split; [exact Hc|]. exists (e1 ++ e2).
  rewrite T2, T1, app_assoc. split; [reflexivity|].
  apply Forall_app. auto.
Qed.

Lemma no_sleep_added_engine {A} ev (op : EngineCall A) st :
  Forall (fun ev => is_sleep ev = false) ev ->
  no_sleep_added st (snd (call_engine ev op st)).
Proof.
  intros Hev H. rewrite call_engine_self, call_engine_trace.
  split; [exact H|]. exists ev. auto.
Qed.

Lemma type_sentences_no_sleep etx esc sentences first st :
  no_sleep_added st (snd (type_sentences etx esc first sentences st)).
Proof.
  apply (respects_type_sentences etx esc no_sleep_added).
  - apply no_sleep_added_refl.
  - apply no_sleep_added_trans.
  - intros s H. split; [exact H|]. exists []. simpl. rewrite app_nil_r. auto.
  - intros f s H. unfold thinking_pause. rewrite bind_get, H, andb_false_r.
    apply no_sleep_added_refl, H.
  - intros s b s0. apply no_sleep_added_engine. repeat constructor.
  - intros s s0. apply no_sleep_added_engine. repeat constructor.
Qed.




(** *** Context *)

(** The settings of the humanizer after the overrides were applied. *)
Lemma apply_overrides_getattr kwargs h key :
  getattr (snd (apply_overrides kwargs h)) key
  = match getattr h key with
    | Some old =>
        if existsb (String.eqb key) override_keys
        then Some (default old (flags kwargs !! key))
        else Some old
    | None => None
    end.
Proof.
  rewrite apply_overrides_unfold. unfold override_step.
  remember (flags kwargs !! "simulate_errors"%string) as o1.
  remember (flags kwargs !! "use_copy_paste"%string) as o2.
  remember (flags kwargs !! "add_thinking_pauses"%string) as o3.
  unfold getattr at 4. simpl existsb.
  destruct (String.eqb_spec key "simulate_errors") as [->|N1];
    [rewrite <- Heqo1; destruct o1, o2, o3; reflexivity|].
  destruct (String.eqb_spec key "auto_correct") as [->|N2];
    [destruct o1, o2, o3; reflexivity|].
  destruct (String.eqb_spec key "use_copy_paste") as [->|N3];
    [rewrite <- Heqo2; destruct o1, o2, o3; reflexivity|].
  destruct (String.eqb_spec key "add_thinking_pauses") as [->|N4];
    [rewrite <- Heqo3; destruct o1, o2, o3; reflexivity|].
  destruct (String.eqb_spec key "simulate_fatigue") as [->|N5];
    [destruct o1, o2, o3; reflexivity|].
  destruct (String.eqb_spec key "context_aware") as [->|N6];
    [destruct o1, o2, o3; reflexivity|].
  apply String.eqb_neq in N1, N2, N3, N4, N5, N6.
  destruct o1, o2, o3; cbn; unfold getattr; cbn;
    rewrite ?N1, ?N2, ?N3, ?N4, ?N5, ?N6; reflexivity.
Qed.

(** [_adapt_to_context] computes each base setting from the text and the
    previous value of that setting, and leaves the other settings. *)
Lemma adapt_error_rate text h1 h2 :
  error_rate (engine h1) = error_rate (engine h2) ->
  error_rate (engine (_adapt_to_context text h1))
  = error_rate (engine (_adapt_to_context text h2)).
Proof.
  intros H. unfold _adapt_to_context.
  repeat match goal with |- context [if ?b then _ else _] => destruct b end;
    simpl; rewrite ?H; reflexivity.
Qed.

Lemma adapt_base_wpm text h1 h2 :
  base_wpm (engine h1) = base_wpm (engine h2) ->
  base_wpm (engine (_adapt_to_context text h1))
  = base_wpm (engine (_adapt_to_context text h2)).
Proof.
  intros H. unfold _adapt_to_context.
  repeat match goal with |- context [if ?b then _ else _] => destruct b end;
    simpl; rewrite ?H; reflexivity.
Qed.

Lemma adapt_use_copy_paste text h1 h2 :
  use_copy_paste h1 = use_copy_paste h2 ->
  use_copy_paste (_adapt_to_context text h1)
  = use_copy_paste (_adapt_to_context text h2).
Proof.
  intros H. unfold _adapt_to_context.
  repeat match goal with |- context [if ?b then _ else _] => destruct b end;
    simpl; rewrite ?H; reflexivity.
Qed.

Lemma adapt_context_aware text h :
  context_aware (_adapt_to_context text h) = context_aware h
  /\ simulate_fatigue (_adapt_to_context text h) = simulate_fatigue h.
Proof.
  unfold _adapt_to_context.
  repeat match goal with |- context [if ?b then _ else _] => destruct b end;
    split; reflexivity.
Qed.

Lemma adapt_no_tags text h :
  classify text = no_tags -> _adapt_to_context text h = h.
Proof.
  unfold classify, no_tags. intros H. injection H as H1 H2 H3 H4.
  unfold _adapt_to_context. rewrite H1, H2, H3, H4. reflexivity.
Qed.

Lemma adapt_by_tags text text' h :
  classify text = classify text' ->
  _adapt_to_context text h = _adapt_to_context text' h.
Proof.
  unfold classify. intros H. injection H as H1 H2 H3 H4.
  unfold _adapt_to_context. rewrite H1, H2, H3, H4. reflexivity.
Qed.

Section Frame.

Variable engine_type_text : str -> bool -> EngineCall bool.
Variable engine_add_spontaneous_correction : str -> EngineCall unit.
Variable half_time : Q.

Hypothesis type_text_keeps :
  forall sentence copy_paste,
    keeps_base_settings (engine_type_text sentence copy_paste).
Hypothesis correction_keeps :
  forall sentence,
    keeps_base_settings (engine_add_spontaneous_correction sentence).

Lemma call_engine_base_settings {A} ev (op : EngineCall A) st :
  keeps_base_settings op ->
  same_base_settings st (snd (call_engine ev op st)).
Proof.
  intros Hop. unfold same_base_settings, base_settings.
  rewrite call_engine_self. simpl.
  destruct (Hop (engine (self st)) (env st)) as [-> ->]. reflexivity.
Qed.

Lemma type_sentences_base_settings sentences first st :
  same_base_settings st
    (snd (type_sentences engine_type_text engine_add_spontaneous_correction
            first sentences st)).
Proof.
  apply (respects_type_sentences engine_type_text
           engine_add_spontaneous_correction same_base_settings);
    unfold same_base_settings.
  - reflexivity.
  - intros a b c H1 H2. rewrite H2. exact H1.
  - reflexivity.
  - intros f s. rewrite thinking_pause_self. reflexivity.
  - intros s b s0. apply call_engine_base_settings, type_text_keeps.
  - intros s s0. apply call_engine_base_settings, correction_keeps.
Qed.

(** The body of [type_text] leaves the base settings that the adaptation
    to the context computed. *)
Lemma type_text_body_base_settings text st :
  base_settings
    (self (snd (type_text_body engine_type_text
                  engine_add_spontaneous_correction half_time text st)))
  = base_settings (adapted text (self st)).
Proof.
  unfold type_text_body, adapted. rewrite bind_get.
  unfold _type_text_naturally.
  set (loop := type_sentences engine_type_text
                 engine_add_spontaneous_correction true
                 (_split_into_sentences text)).
  assert (Hloop : forall s, base_settings (self (snd (loop s)))
                            = base_settings (self s))
    by (intros s; apply type_sentences_base_settings).
  destruct (adapt_context_aware text (self st)) as [_ Hsf].
  destruct (context_aware (self st)); unfold bind, modify_self, ret; simpl;
    rewrite ?Hsf;
    destruct (simulate_fatigue (self st)); simpl; rewrite Hloop; reflexivity.
Qed.

End Frame.

Lemma entry_state_settings kwargs st :
  let h := self st in
  let h_a := self (entry_state kwargs st) in
  context_aware h_a = context_aware h
  /\ error_rate (engine h_a) = error_rate (engine h)
  /\ (speed_multiplier kwargs = None ->
      base_wpm (engine h_a) = base_wpm (engine h))
  /\ (flags kwargs !! "use_copy_paste"%string = None ->
      use_copy_paste h_a = use_copy_paste h).
Proof.
  cbv zeta. unfold entry_state. simpl self.
  pose proof (SessionFacts.engine_apply_overrides kwargs (self st)) as He.
  pose proof (apply_overrides_getattr kwargs (self st) "context_aware") as Hc.
  pose proof (apply_overrides_getattr kwargs (self st) "use_copy_paste") as Hu.
  set (h_o := snd (apply_overrides kwargs (self st))) in *.
  set (o := flags kwargs !! "use_copy_paste"%string) in *.
  cbn in Hc, Hu. injection Hc as Hc. injection Hu as Hu.
  destruct (speed_multiplier kwargs) as [m|];
    [destruct (scaled_wpm (base_wpm (engine h_o)) m)|];
    simpl; rewrite ?He; repeat split;
    try assumption; try discriminate;
    intros Hn; rewrite Hu, Hn; reflexivity.
Qed.



Lemma keeps_quiet_type_text sentence copy_paste :
  keeps_base_settings (quiet_type_text sentence copy_paste).
Proof. intros e v. split; reflexivity. Qed.

Lemma keeps_quiet_correction sentence :
  keeps_base_settings (quiet_correction sentence).
Proof. intros e v. split; reflexivity. Qed.


(** *** The session *)

Section SessionFrame.

Variable engine_type_text : str -> bool -> EngineCall bool.
Variable engine_add_spontaneous_correction : str -> EngineCall unit.
Variable half_time : Q.

Hypothesis type_text_keeps :
  forall sentence copy_paste,
    keeps_session (engine_type_text sentence copy_paste).
Hypothesis correction_keeps :
  forall sentence,
    keeps_session (engine_add_spontaneous_correction sentence).

Lemma call_engine_session {A} ev (op : EngineCall A) st :
  keeps_session op -> same_session st (snd (call_engine ev op st)).
Proof.
  intros Hop. unfold same_session. rewrite call_engine_self. simpl.
  apply Hop.
Qed.

Lemma type_sentences_session sentences first st :
  same_session st
    (snd (type_sentences engine_type_text engine_add_spontaneous_correction
            first sentences st)).
Proof.
  apply (respects_type_sentences engine_type_text
           engine_add_spontaneous_correction same_session);
    unfold same_session.
  - reflexivity.
  - intros a b c H1 H2. rewrite H2. exact H1.
  - reflexivity.
  - intros f s. rewrite thinking_pause_self. reflexivity.
  - intros s b s0. apply call_engine_session, type_text_keeps.
  - intros s s0. apply call_engine_session, correction_keeps.
Qed.

(** The body of [type_text] writes the fatigue level, through
    [update_fatigue], and nothing else of the session. *)
Lemma type_text_body_session text st :
  session_of
    (engine (self (snd (type_text_body engine_type_text
                          engine_add_spontaneous_correction half_time text
                          st))))
  = if simulate_fatigue (self st)
    then (session_start (engine (self st)), stats (engine (self st)),
          fatigue_curve half_time
            (clock (env st) - session_start (engine (self st))))
    else session_of (engine (self st)).
Proof.
  unfold type_text_body. rewrite bind_get. unfold _type_text_naturally.
  set (loop := type_sentences engine_type_text
                 engine_add_spontaneous_correction true
                 (_split_into_sentences text)).
  assert (Hloop : forall s, session_of (engine (self (snd (loop s))))
                            = session_of (engine (self s)))
    by (intros s; apply type_sentences_session).
  destruct (adapt_context_aware text (self st)) as [_ Hsf].
  pose proof (SessionFacts.adapt_to_context_session text (self st)) as Ha.
  unfold session_of in Ha. injection Ha as Ha1 Ha2 Ha3.
  destruct (context_aware (self st)); unfold bind, modify_self, ret; simpl;
    rewrite ?Hsf;
    destruct (simulate_fatigue (self st)); simpl; rewrite Hloop;
    unfold session_of; simpl; rewrite ?Ha1, ?Ha2, ?Ha3; reflexivity.
Qed.

Lemma type_text_session text kwargs st :
  session_of
    (engine (self (snd (type_text engine_type_text
                          engine_add_spontaneous_correction half_time text
                          kwargs st))))
  = if simulate_fatigue (self st) && negb (scaling_raises kwargs (self st))
    then (session_start (engine (self st)), stats (engine (self st)),
          fatigue_curve half_time
            (clock (env st) - session_start (engine (self st))))
    else session_of (engine (self st)).
Proof.
  assert (He : session_of (engine (self (entry_state kwargs st)))
               = session_of (engine (self st))).
  { unfold entry_state. cbn [self].
    pose proof (SessionFacts.engine_apply_overrides kwargs (self st)) as H.
    set (h_o := snd (apply_overrides kwargs (self st))) in *.
    destruct (speed_multiplier kwargs) as [m|];
      [destruct (scaled_wpm _ m)|]; unfold session_of;
      cbn [engine set_engine set_base_wpm session_start stats fatigue_level];
      rewrite H; reflexivity. }
  assert (Hsf : simulate_fatigue (self (entry_state kwargs st))
                = simulate_fatigue (self st)).
  { pose proof (apply_overrides_getattr kwargs (self st) "simulate_fatigue")
      as H.
    set (h_o := snd (apply_overrides kwargs (self st))) in *.
    cbn in H. injection H as H. unfold entry_state. cbn [self]. fold h_o.
    destruct (speed_multiplier kwargs) as [m|];
      [destruct (scaled_wpm _ m)|]; exact H. }
  assert (Hclock : clock (env (entry_state kwargs st)) = clock (env st))
    by reflexivity.
  rewrite type_text_eq.
  set (sE := entry_state kwargs st) in *. clearbody sE.
  destruct (scaling_raises kwargs (self st)); cbn [snd negb].
  - rewrite andb_false_r. exact He.
  - rewrite andb_true_r.
    pose proof (type_text_body_session text sE) as Hb.
    rewrite Hsf, Hclock in Hb.
    assert (Hf : forall s1,
              session_of (engine (self (finally_state kwargs (self st) s1)))
              = session_of (engine (self s1))).
    { intros s1. unfold finally_state. cbn [self].
      destruct (speed_multiplier kwargs); unfold session_of;
        cbn [engine set_engine set_base_wpm session_start stats fatigue_level];
        rewrite SessionFacts.engine_restore_settings; reflexivity. }
    rewrite Hf, Hb. unfold session_of in He. injection He as He1 He2 He3.
    destruct (simulate_fatigue (self st)); unfold session_of;
      rewrite ?He1, ?He2, ?He3; reflexivity.
Qed.

End SessionFrame.

Lemma configure_step_engine h item h' :
  configure_step h item = Some h' ->
  fst item <> "engine"%string -> engine h' = engine h.
Proof.
  destruct item as [key value]. unfold configure_step. cbn [fst].
  intros H Hne. apply String.eqb_neq in Hne. rewrite Hne in H.
  destruct (getattr h key), value; try discriminate;
    try (injection H as <-; reflexivity);
    destruct (_ || _); try discriminate; injection H as <-; reflexivity.
Qed.

Lemma configure_engine kwargs : forall h h',
  configure kwargs h = Some h' ->
  Forall (fun item => fst item <> "engine"%string) kwargs ->
  engine h' = engine h.
Proof.
  unfold configure.
  induction kwargs as [|item kwargs IH]; intros h h' H Hall.
  - injection H as <-. reflexivity.
  - apply Forall_cons in Hall as [Hitem Hall]. cbn [fold_left] in H.
    destruct (configure_step h item) as [h1|] eqn:Hstep.
    + rewrite (IH h1 h' H Hall). apply (configure_step_engine h item h1 Hstep).
      exact Hitem.
    + exfalso. clear -H. induction kwargs as [|i k IHk]; [discriminate|].
      apply IHk. exact H.
Qed.



Lemma quiet_type_text_keeps_session sentence copy_paste :
  keeps_session (quiet_type_text sentence copy_paste).
Proof. intros e v. reflexivity. Qed.

Lemma quiet_correction_keeps_session sentence :
  keeps_session (quiet_correction sentence).
Proof. intros e v. reflexivity. Qed.


End HumanizerFacts.

(** ** The embedding on concrete inputs *)

Module Tests.

Import HumanCurve WebAdjuster Str Keyboard Examples.

Example py_int_truncates :
  py_int (7 # 2) = 3 /\ py_int (- (7 # 2)) = -3 /\ py_int (- (1 # 2)) = 0.
Proof. repeat split. Qed.

Example py_round_ties_to_even :
  py_round (5 # 2) = 2 /\ py_round (7 # 2) = 4 /\ py_round (- (1 # 2)) = 0
  /\ py_round (6 # 10) = 1 /\ py_round (- (6 # 10)) = -1.
Proof. repeat split. Qed.

(** A movement to the right and down arrives where it should. *)
Example movement_right_down :
  _execute_web_movement desktop
    [(0, 0); (3 # 10, 7 # 10); (23 # 10, 31 # 10); (5, 7)]%Q
    (0, 0) (5, 7) Performed
  = ([(0, 1); (2, 2); (2, 3); (1, 1)], (5, 7)).
Proof. reflexivity. Qed.

(** The mirrored movement to the left and up stops one pixel short on both
    axes. *)
Example movement_left_up :
  _execute_web_movement desktop
    [(0, 0); (- (3 # 10), - (7 # 10)); (- (23 # 10), - (31 # 10)); (-5, -7)]%Q
    (0, 0) (-5, -7) Performed
  = ([(0, -1); (-2, -2); (-2, -3); (0, 0)], (-4, -6)).
Proof. reflexivity. Qed.

Example movement_without_points :
  _execute_web_movement desktop [] (3, 4) (10, 10) Performed = ([], (10, 10)).
Proof. reflexivity. Qed.

Example movement_driver_failure :
  snd (_execute_web_movement desktop [(1, 1)%Q] (3, 4) (1, 1) DriverFailure)
  = (3, 4).
Proof. reflexivity. Qed.

Example split_on_whitespace :
  split (lit "  the quick  brown fox ")
  = [lit "the"; lit "quick"; lit "brown"; lit "fox"].
Proof. reflexivity. Qed.

Example strip_both_ends :
  strip (lit "  the quick  brown fox ") = lit "the quick  brown fox".
Proof. reflexivity. Qed.

Example contains_substring :
  contains (lit "def ") (lit "abc def g") = true
  /\ contains (lit "def ") (lit "abc de") = false
  /\ contains (lit "") (lit "") = true.
Proof. repeat split. Qed.

Example lower_letters : lower (lit "Hello WORLD z[") = lit "hello world z[".
Proof. reflexivity. Qed.

Example sentences_of_a_text :
  _split_into_sentences
    (lit "Hello there. How are you? ok. I am fine!  and you")
  = [lit "Hello there."; lit "How are you?"; lit "ok. I am fine!";
     lit "and you"].
Proof. reflexivity. Qed.

Example sentences_of_the_empty_text : _split_into_sentences [] = [[]].
Proof. reflexivity. Qed.

Example sentences_of_blanks :
  _split_into_sentences (lit "   ") = [lit "   "].
Proof. reflexivity. Qed.

Example repetitive_texts :
  _has_repetitive_content (lit "a a a b c") = true
  /\ _has_repetitive_content (lit "a a a a") = false
  /\ _has_repetitive_content (lit "a b c d e f g a a a") = false
  /\ _has_repetitive_content (lit "a b c d e f a a a a") = true.
Proof. vm_compute. repeat split. Qed.

Example tags_of_a_text :
  classify (lit "Dear sir, therefore if x")
  = {| code_like := true; email_like := true; formal := true;
       repetitive := false |}.
Proof. vm_compute. reflexivity. Qed.

(** Overrides are in force while the text is typed: the engine is called
    with the adapted [use_copy_paste], and the settings are back afterwards. *)
Example type_text_with_overrides :
  let '(r, st) := type_text quiet_type_text quiet_correction 3600
                    (lit "One two. Three four.")
                    {| flags := {[ "use_copy_paste"%string := false ]};
                       speed_multiplier := Some (Finite (3 # 2)) |}
                    (at_time 100) in
  r = Returned true
  /\ List.map is_sleep (trace st) = [false; true; false]
  /\ hd_error (trace st) = Some (EngineTypeText (lit "One two.") false)
  /\ use_copy_paste (self st) = true
  /\ base_wpm (engine (self st)) = 60%Q.
Proof. vm_compute. repeat split. Qed.

Example steady_trajectory :
  match _generate_human_curve bent_curve (fun _ _ _ _ => []) sample_parameters
          desktop (Some sample_parameters) (0, 0)%Q (100, 0)%Q true
          constant_source with
  | inr t => length t = 50%nat /\ head t = Some (0, 0)%Q
             /\ last t = Some (100, 0)%Q
  | inl _ => False
  end.
Proof. vm_compute. repeat split. Qed.

End Tests.

(** * Further properties *)

(** ** Truncation *)

Module PyFacts.

(** [int(x)] is [x] without its fractional part, which has the sign of [x]. *)
Lemma py_int_spec x :
  exists r,
    (x == inject_Z (py_int x) + r)%Q
    /\ (-1 < r)%Q /\ (r < 1)%Q
    /\ ((0 <= x)%Q -> (0 <= r)%Q)
    /\ ((x <= 0)%Q -> (r <= 0)%Q).
Proof.
  destruct x as [n d]. unfold py_int. simpl.
  exists (Z.rem n (Zpos d) # d).
  pose proof (Z.quot_rem' n (Zpos d)) as Hqr.
  assert (Hd : 0 < Zpos d) by lia.
  assert (Habs : Z.abs (Z.rem n (Zpos d)) < Zpos d)
    by (pose proof (Z.rem_bound_abs n (Zpos d)); lia).
  repeat split.
  - unfold Qeq, Qplus, inject_Z. simpl. nia.
  - unfold Qlt. simpl. lia.
  - unfold Qlt. simpl. lia.
  - unfold Qle. simpl. intros Hn.
    assert (0 <= n) by lia.
    pose proof (Z.rem_nonneg n (Zpos d)). lia.
  - unfold Qle. simpl. intros Hn.
    assert (n <= 0) by lia.
    pose proof (Z.rem_nonpos n (Zpos d)). lia.
Qed.

Lemma inject_Z_lt a b : (inject_Z a < inject_Z b)%Q <-> a < b.
Proof. unfold Qlt. simpl. lia. Qed.

Lemma inject_Z_le a b : (inject_Z a <= inject_Z b)%Q <-> a <= b.
Proof. unfold Qle. simpl. lia. Qed.

(** The integer part is determined by the number, not by how it is written. *)
Lemma py_int_unique x q r :
  (x == inject_Z q + r)%Q -> (-1 < r)%Q -> (r < 1)%Q ->
  ((0 <= x)%Q -> (0 <= r)%Q) -> ((x <= 0)%Q -> (r <= 0)%Q) ->
  py_int x = q.
Proof.
  intros Hx Hlo Hhi Hpos Hneg.
  destruct (py_int_spec x) as (r' & Hx' & Hlo' & Hhi' & Hpos' & Hneg').
  assert (Hd : (inject_Z (py_int x) - inject_Z q == r - r')%Q) by lra.
  assert (Hlt : (inject_Z (py_int x) - inject_Z q < 1)%Q
                /\ (-1 < inject_Z (py_int x) - inject_Z q)%Q).
  { destruct (Qlt_le_dec x 0) as [Hx0|Hx0].
    - assert (Hx1 : (x <= 0)%Q) by lra.
      specialize (Hneg Hx1). specialize (Hneg' Hx1).
      clear Hpos Hpos'. split; lra.
    - specialize (Hpos Hx0). specialize (Hpos' Hx0).
      clear Hneg Hneg'. split; lra. }
  destruct Hlt as [H1 H2].
  assert (H1' : (inject_Z (py_int x) < inject_Z (q + 1))%Q)
    by (rewrite inject_Z_plus; change (inject_Z 1) with 1%Q; lra).
  assert (H2' : (inject_Z (q - 1) < inject_Z (py_int x))%Q).
  { unfold Z.sub. rewrite inject_Z_plus, inject_Z_opp.
    change (inject_Z 1) with 1%Q. lra. }
  apply (proj1 (inject_Z_lt _ _)) in H1'.
  apply (proj1 (inject_Z_lt _ _)) in H2'. lia.
Qed.

Lemma py_int_inject z : py_int (inject_Z z) = z.
Proof. unfold py_int. simpl. apply Z.quot_1_r. Qed.

Lemma py_int_comp x y : (x == y)%Q -> py_int x = py_int y.
Proof.
  intros Hxy. destruct (py_int_spec y) as (r & Hy & Hlo & Hhi & Hpos & Hneg).
  apply (py_int_unique x (py_int y) r); try assumption.
  - rewrite Hxy. exact Hy.
  - intros H. apply Hpos. lra.
  - intros H. apply Hneg. lra.
Qed.

End PyFacts.

(** ** The movement executor *)

Module MovementFacts.

Import HumanCurve WebAdjuster MovementSpec PyFacts.

Lemma frac_small x : (Qabs (x - inject_Z (py_int x)) < 1)%Q.
Proof.
  destruct (py_int_spec x) as (r & Hx & Hlo & Hhi & _).
  apply Qabs_Qlt_condition. split; lra.
Qed.

Lemma frac_nonneg x : (0 <= x)%Q -> (0 <= x - inject_Z (py_int x))%Q.
Proof.
  intros H. destruct (py_int_spec x) as (r & Hx & _ & _ & Hpos & _).
  specialize (Hpos H). lra.
Qed.

Lemma py_int_below_one y : (- (1 # 2) <= y)%Q -> (y < 1)%Q -> py_int y = 0.
Proof.
  intros Hlo Hhi. apply (py_int_unique y 0 y); try lra.
  change (inject_Z 0) with 0%Q. lra.
Qed.

Lemma py_int_from_one y : (1 <= y)%Q -> (y < 2)%Q -> py_int y = 1.
Proof.
  intros Hlo Hhi. apply (py_int_unique y 1 (y - 1)); try lra.
  change (inject_Z 1) with 1%Q. lra.
Qed.

(** The conditions of the source, as facts. *)
Lemma over_iff bound x :
  Qltb bound (py_abs x) = false <-> (Qabs x <= bound)%Q.
Proof. unfold py_abs. apply Qltb_ge. Qed.

(** *** The remainders stay small *)

Lemma carry_small st : small_remainders (carry st).
Proof.
  unfold carry, small_remainders.
  destruct st as [[ex ey] [tx ty] cur ms acts]; simpl.
  destruct (Qltb 1 (py_abs ex)) eqn:Hx; simpl.
  - split; apply Qlt_le_weak, frac_small.
  - destruct (Qltb 1 (py_abs ey)) eqn:Hy; simpl.
    + split; apply Qlt_le_weak, frac_small.
    + split; apply over_iff; assumption.
Qed.

Lemma hop_extra bs st point last :
  extra_numbers (hop bs st point last)
  = extra_numbers
      (carry {| extra_numbers :=
                  (fst (extra_numbers st)
                   + (fst point - fst (current_origin st)
                      - inject_Z (py_int (fst point - fst (current_origin st)))),
                   snd (extra_numbers st)
                   + (snd point - snd (current_origin st)
                      - inject_Z (py_int (snd point - snd (current_origin st)))))%Q;
                total_offset := total_offset st;
                current_origin := current_origin st;
                movements := movements st;
                actions := actions st |}).
Proof. reflexivity. Qed.

Lemma hop_small bs st point last : small_remainders (hop bs st point last).
Proof.
  unfold small_remainders. rewrite hop_extra. apply carry_small.
Qed.

Lemma hops_small bs points : forall st p,
  small_remainders (hops bs st (p :: points)).
Proof.
  induction points as [|q rest IH]; intros st p.
  - apply hop_small.
  - change (hops bs st (p :: q :: rest))
      with (hops bs (hop bs st p false) (q :: rest)).
    apply IH.
Qed.

(** *** What the final flush adds *)

Lemma final_flush_eq st :
  final_flush st
  = if flush_condition st
    then {| extra_numbers := extra_numbers st;
            total_offset :=
              (fst (total_offset st) + py_int (fst (extra_numbers st) + (1 # 2)),
               snd (total_offset st) + py_int (snd (extra_numbers st) + (1 # 2)));
            current_origin := current_origin st;
            movements := movements st;
            actions := actions st
                       ++ [(py_int (fst (extra_numbers st) + (1 # 2)),
                            py_int (snd (extra_numbers st) + (1 # 2)))] |}
    else st.
Proof.
  unfold final_flush, flush_condition. destruct (extra_numbers st) as [ex ey].
  reflexivity.
Qed.

(** On each axis the final flush adds 0 or 1, and what it adds is within
    [remainder - 1/2] and [remainder + 1]. *)
Lemma final_flush_adds st :
  small_remainders st ->
  exists fx fy,
    total_offset (final_flush st)
    = (fst (total_offset st) + fx, snd (total_offset st) + fy)
    /\ actions (final_flush st)
       = actions st ++ (if flush_condition st then [(fx, fy)] else [])
    /\ movements (final_flush st) = movements st
    /\ sum_dx (if flush_condition st then [(fx, fy)] else []) = fx
    /\ sum_dy (if flush_condition st then [(fx, fy)] else []) = fy
    /\ (fst (extra_numbers st) - (1 # 2) <= inject_Z fx
        <= fst (extra_numbers st) + 1)%Q
    /\ (snd (extra_numbers st) - (1 # 2) <= inject_Z fy
        <= snd (extra_numbers st) + 1)%Q.
Proof.
  intros [Hx Hy]. rewrite final_flush_eq.
  apply Qabs_Qle_condition in Hx, Hy.
  assert (Hround : forall e, (- (1) <= e <= 1)%Q ->
            (e - (1 # 2) <= inject_Z (py_int (e + (1 # 2))) <= e + 1)%Q).
  { intros e [Hlo Hhi]. destruct (Qlt_le_dec (e + (1 # 2)) 1) as [Hlt|Hge].
    - rewrite py_int_below_one by lra. change (inject_Z 0) with 0%Q. lra.
    - rewrite py_int_from_one by lra. change (inject_Z 1) with 1%Q. lra. }
  destruct (flush_condition st) eqn:Hc.
  - eexists _, _. simpl.
    repeat split; try reflexivity; try apply Hround; try lra;
      unfold sum_dx, sum_dy; simpl; lia.
  - exists 0, 0. rewrite !Z.add_0_r, app_nil_r.
    unfold flush_condition in Hc. apply orb_false_elim in Hc as [Hcx Hcy].
    apply over_iff, Qabs_Qle_condition in Hcx, Hcy.
    destruct (total_offset st). change (inject_Z 0) with 0%Q.
    repeat split; try reflexivity; lra.
Qed.

(** The state at [perform()], for a trajectory that is not empty. *)
Lemma run_movement_facts opts origin p points :
  let st := run_movement opts (p :: points) origin in
  let target := List.last points p in
  sum_dx (actions st) = fst (total_offset st)
  /\ sum_dy (actions st) = snd (total_offset st)
  /\ (fst target - (1 # 2)
      <= inject_Z (fst origin + fst (total_offset st)) <= fst target + 1)%Q
  /\ (snd target - (1 # 2)
      <= inject_Z (snd origin + snd (total_offset st)) <= snd target + 1)%Q.
Proof.
  cbv zeta. unfold run_movement.
  set (bs := if reduce_polling opts then 3%nat else 1%nat).
  set (st := hops bs (initial_state origin) (p :: points)).
  destruct (WebAdjusterFacts.hops_conserved bs (p :: points) (initial_state origin))
    as [cx cy cdx cdy].
  destruct (WebAdjusterFacts.hops_end bs points (initial_state origin) p)
    as [Hl Hm].
  fold st in cx, cy, cdx, cdy, Hl, Hm.
  unfold emitted in cdx, cdy. rewrite Hm, app_nil_r in cdx, cdy.
  simpl in cx, cy, cdx, cdy. change (inject_Z 0) with 0%Q in cx, cy.
  destruct (final_flush_adds st (hops_small bs points (initial_state origin) p))
    as (fx & fy & Ht & Ha & _ & Sx & Sy & Hfx & Hfy).
  rewrite Ht, Ha, Hl. simpl fst. simpl snd.
  rewrite WebAdjusterFacts.sum_dx_app, WebAdjusterFacts.sum_dy_app, Sx, Sy.
  rewrite !inject_Z_plus.
  unfold sum_dx, sum_dy in *. simpl in cdx, cdy.
  repeat split; try lia; lra.
Qed.

Lemma reported_sums opts p points origin destination :
  let result :=
    _execute_web_movement opts (p :: points) origin destination Performed in
  snd result
  = (fst origin + sum_dx (fst result), snd origin + sum_dy (fst result)).
Proof.
  cbv zeta. unfold _execute_web_movement.
  destruct (run_movement_facts opts origin p points) as (Sx & Sy & _).
  simpl. rewrite Sx, Sy. reflexivity.
Qed.

Lemma reported_near opts p points origin destination :
  let reported :=
    snd (_execute_web_movement opts (p :: points) origin destination
           Performed) in
  let target := List.last points p in
  (fst target - (1 # 2) <= inject_Z (fst reported) <= fst target + 1)%Q
  /\ (snd target - (1 # 2) <= inject_Z (snd reported) <= snd target + 1)%Q.
Proof.
  cbv zeta. unfold _execute_web_movement.
  destruct (run_movement_facts opts origin p points) as (_ & _ & Hx & Hy).
  simpl. split; assumption.
Qed.

(** X1. The position returned after a successful [perform()] is the origin
    plus the sum of the moves handed to the action chain. *)
Theorem reported_position_sums_moves opts p points origin destination :
  let result :=
    _execute_web_movement opts (p :: points) origin destination Performed in
  snd result
  = (fst origin + sum_dx (fst result), snd origin + sum_dy (fst result)).
Proof.
  cbv zeta. unfold _execute_web_movement.
  destruct (run_movement_facts opts origin p points) as (Sx & Sy & _).
  simpl. rewrite Sx, Sy. reflexivity.
Qed.

(** X2. On each axis the position returned after a successful [perform()] lies
    between half a pixel before and one pixel after the last point of the
    trajectory. *)
Theorem reported_position_near_last_point opts p points origin destination :
  let reported :=
    snd (_execute_web_movement opts (p :: points) origin destination
           Performed) in
  let target := List.last points p in
  (fst target - (1 # 2) <= inject_Z (fst reported) <= fst target + 1)%Q
  /\ (snd target - (1 # 2) <= inject_Z (snd reported) <= snd target + 1)%Q.
Proof.
  cbv zeta. unfold _execute_web_movement.
  destruct (run_movement_facts opts origin p points) as (_ & _ & Hx & Hy).
  simpl. split; assumption.
Qed.

(** X3. When the last point has whole coordinates, the position returned is
    that point or the pixel after it, on each axis. *)
Theorem reported_position_at_or_after_last_point
    opts p points origin destination n m :
  (fst (List.last points p) == inject_Z n)%Q ->
  (snd (List.last points p) == inject_Z m)%Q ->
  let reported :=
    snd (_execute_web_movement opts (p :: points) origin destination
           Performed) in
  (fst reported = n \/ fst reported = n + 1)
  /\ (snd reported = m \/ snd reported = m + 1).
Proof.
  intros Hn Hm. cbv zeta.
  destruct (reported_near opts p points origin destination)
    as [[Hx1 Hx2] [Hy1 Hy2]].
  cbv zeta in Hx1, Hx2, Hy1, Hy2.
  set (r := snd (_execute_web_movement _ _ _ _ _)) in *.
  clearbody r.
  rewrite Hn in Hx1, Hx2. rewrite Hm in Hy1, Hy2.
  assert (Hx1' : (inject_Z (n - 1) < inject_Z (fst r))%Q).
  { unfold Z.sub. rewrite inject_Z_plus, inject_Z_opp.
    change (inject_Z 1) with 1%Q. lra. }
  assert (Hy1' : (inject_Z (m - 1) < inject_Z (snd r))%Q).
  { unfold Z.sub. rewrite inject_Z_plus, inject_Z_opp.
    change (inject_Z 1) with 1%Q. lra. }
  assert (Hx2' : (inject_Z (fst r) <= inject_Z (n + 1))%Q)
    by (rewrite inject_Z_plus; exact Hx2).
  assert (Hy2' : (inject_Z (snd r) <= inject_Z (m + 1))%Q)
    by (rewrite inject_Z_plus; exact Hy2).
  apply (proj1 (inject_Z_lt _ _)) in Hx1'.
  apply (proj1 (inject_Z_lt _ _)) in Hy1'.
  apply (proj1 (inject_Z_le _ _)) in Hx2'.
  apply (proj1 (inject_Z_le _ _)) in Hy2'.
  split; lia.
Qed.

Lemma reported_position_at_or_after_last_point_example :
  let reported :=
    snd (_execute_web_movement Examples.desktop MoreExamples.short_path
           (0, 0) (3, 4) Performed) in
  (fst reported = 3 \/ fst reported = 3 + 1)
  /\ (snd reported = 4 \/ snd reported = 4 + 1).
Proof.
  apply (reported_position_at_or_after_last_point Examples.desktop
           (1, 1 # 2)%Q [(2, 5 # 2); (3, 4)]%Q (0, 0) (3, 4) 3 4);
    reflexivity.
Defined.

(** *** Batches *)

Lemma carry_parts st :
  extra_numbers (carry st)
  = (if Qltb 1 (py_abs (fst (extra_numbers st)))
        || Qltb 1 (py_abs (snd (extra_numbers st)))
     then (fst (extra_numbers st) - inject_Z (py_int (fst (extra_numbers st))),
           snd (extra_numbers st) - inject_Z (py_int (snd (extra_numbers st))))%Q
     else extra_numbers st)
  /\ total_offset (carry st)
     = (if Qltb 1 (py_abs (fst (extra_numbers st)))
           || Qltb 1 (py_abs (snd (extra_numbers st)))
        then (fst (total_offset st) + py_int (fst (extra_numbers st)),
              snd (total_offset st) + py_int (snd (extra_numbers st)))
        else total_offset st)
  /\ movements (carry st) = movements st ++ carried (extra_numbers st)
  /\ actions (carry st) = actions st
  /\ current_origin (carry st) = current_origin st.
Proof.
  unfold carry, carried.
  destruct st as [[ex ey] [tx ty] cur ms acts]; simpl.
  destruct (Qltb 1 (py_abs ex)) eqn:Hx; simpl.
  - repeat split; reflexivity.
  - destruct (Qltb 1 (py_abs ey)) eqn:Hy; simpl.
    + repeat split; reflexivity.
    + rewrite app_nil_r. repeat split; reflexivity.
Qed.

Lemma filter_nonzero_app a b :
  List.filter nonzero_move (a ++ b)
  = List.filter nonzero_move a ++ List.filter nonzero_move b.
Proof. apply List.filter_app. Qed.

(** What one hop hands over, now or with a later batch, does not depend on
    the batch size. *)
Lemma hop_queued bs st point last :
  queued (hop bs st point last)
  = queued st
    ++ List.filter nonzero_move
         (carried (with_fractions st point)
          ++ [(py_int (fst point - fst (current_origin st)),
               py_int (snd point - snd (current_origin st)))]).
Proof.
  unfold hop, queued.
  set (st0 := {| extra_numbers := _; total_offset := total_offset st;
                 current_origin := current_origin st;
                 movements := movements st; actions := actions st |}).
  destruct (carry_parts st0) as (_ & _ & Hm & Ha & _).
  change (extra_numbers st0) with (with_fractions st point) in Hm.
  simpl in Hm, Ha. rewrite Hm, Ha.
  destruct (_ || last); cbn [movements actions]; unfold flush_batch;
    rewrite ?filter_nonzero_app, ?app_nil_r, <- ?app_assoc; reflexivity.
Qed.

Lemma hop_same b1 b2 s1 s2 point l1 l2 :
  same_progress s1 s2 ->
  same_progress (hop b1 s1 point l1) (hop b2 s2 point l2).
Proof.
  intros [He Ht Ho Hq]. split.
  - rewrite !hop_extra.
    set (a1 := {| extra_numbers := _; total_offset := total_offset s1 |}).
    set (a2 := {| extra_numbers := _; total_offset := total_offset s2 |}).
    destruct (carry_parts a1) as (E1 & _). destruct (carry_parts a2) as (E2 & _).
    rewrite E1, E2. subst a1 a2. simpl. rewrite He, Ho. reflexivity.
  - unfold hop.
    set (a1 := {| extra_numbers := _; total_offset := total_offset s1 |}).
    set (a2 := {| extra_numbers := _; total_offset := total_offset s2 |}).
    destruct (carry_parts a1) as (_ & T1 & _).
    destruct (carry_parts a2) as (_ & T2 & _).
    cbn [total_offset]. rewrite T1, T2. subst a1 a2. simpl.
    rewrite He, Ht, Ho. reflexivity.
  - reflexivity.
  - rewrite !hop_queued. unfold with_fractions. rewrite He, Ho, Hq.
    reflexivity.
Qed.

Lemma hops_same b1 b2 points : forall s1 s2,
  same_progress s1 s2 ->
  same_progress (hops b1 s1 points) (hops b2 s2 points).
Proof.
  induction points as [|p rest IH]; intros s1 s2 H; simpl; [exact H|].
  apply IH, hop_same, H.
Qed.

Lemma same_progress_refl st : same_progress st st.
Proof. split; reflexivity. Qed.

(** X4. The batch size changes neither the moves handed to the action chain
    nor the position returned. *)
Theorem batching_is_unobservable opts opts' points origin destination outcome :
  _execute_web_movement opts points origin destination outcome
  = _execute_web_movement opts' points origin destination outcome.
Proof.
  destruct points as [|p points]; [reflexivity|].
  unfold _execute_web_movement, run_movement.
  set (b1 := if reduce_polling opts then 3%nat else 1%nat).
  set (b2 := if reduce_polling opts' then 3%nat else 1%nat).
  pose proof (hops_same b1 b2 (p :: points) _ _
                (same_progress_refl (initial_state origin))) as Hs.
  pose proof (proj2 (WebAdjusterFacts.hops_end b1 points (initial_state origin) p))
    as M1.
  pose proof (proj2 (WebAdjusterFacts.hops_end b2 points (initial_state origin) p))
    as M2.
  set (s1 := hops b1 (initial_state origin) (p :: points)) in *.
  set (s2 := hops b2 (initial_state origin) (p :: points)) in *.
  clearbody s1 s2. destruct Hs as [He Ht Ho Hq].
  unfold queued in Hq. rewrite M1, M2 in Hq. simpl in Hq.
  rewrite !app_nil_r in Hq.
  rewrite !final_flush_eq. unfold flush_condition. rewrite He.
  destruct (_ || _); simpl; rewrite ?Ht, ?Hq; reflexivity.
Qed.

Lemma hops_queued_nonzero bs points : forall st,
  Forall (fun m => nonzero_move m = true) (queued st) ->
  Forall (fun m => nonzero_move m = true) (queued (hops bs st points)).
Proof.
  induction points as [|p rest IH]; intros st H; simpl; [exact H|].
  apply IH. rewrite hop_queued. apply Forall_app. split; [exact H|].
  apply Forall_forall. intros m Hm. apply list_elem_of_In, List.filter_In in Hm.
  apply Hm.
Qed.

(** X5. Every move that the loop hands to the action chain moves the pointer;
    only the final flush can hand over a move by (0, 0). *)
Theorem loop_moves_are_nonzero opts p points origin destination outcome :
  exists loop_moves flush,
    fst (_execute_web_movement opts (p :: points) origin destination outcome)
    = loop_moves ++ flush
    /\ Forall (fun m => nonzero_move m = true) loop_moves
    /\ (length flush <= 1)%nat.
Proof.
  unfold _execute_web_movement, run_movement.
  set (bs := if reduce_polling opts then 3%nat else 1%nat).
  set (st := hops bs (initial_state origin) (p :: points)).
  assert (Hq : Forall (fun m => nonzero_move m = true) (queued st))
    by (apply hops_queued_nonzero; constructor).
  destruct (WebAdjusterFacts.hops_end bs points (initial_state origin) p)
    as [_ Hm].
  fold st in Hm. unfold queued in Hq. rewrite Hm in Hq. simpl in Hq.
  rewrite app_nil_r in Hq.
  rewrite final_flush_eq. simpl fst.
  destruct (flush_condition st); simpl.
  - eexists _, _. split; [reflexivity|]. split; [exact Hq | simpl; lia].
  - exists (actions st), []. rewrite app_nil_r. auto.
Qed.

(** *** Trajectories that never go back *)

Lemma carry_nonneg st :
  ((0 <= fst (extra_numbers st))%Q -> (0 <= fst (extra_numbers (carry st)))%Q)
  /\ ((0 <= snd (extra_numbers st))%Q -> (0 <= snd (extra_numbers (carry st)))%Q).
Proof.
  destruct (carry_parts st) as (He & _). rewrite He.
  destruct (_ || _); simpl; split; intros H; try exact H; apply frac_nonneg, H.
Qed.

Lemma hop_nonneg bs st point last :
  ((0 <= fst (extra_numbers st))%Q -> (fst (current_origin st) <= fst point)%Q ->
   (0 <= fst (extra_numbers (hop bs st point last)))%Q)
  /\ ((0 <= snd (extra_numbers st))%Q -> (snd (current_origin st) <= snd point)%Q ->
      (0 <= snd (extra_numbers (hop bs st point last)))%Q).
Proof.
  rewrite hop_extra.
  set (st0 := {| extra_numbers := _; total_offset := total_offset st |}).
  destruct (carry_nonneg st0) as [Cx Cy]. simpl in Cx, Cy.
  split; intros He Ho; [apply Cx | apply Cy].
  - pose proof (frac_nonneg (fst point - fst (current_origin st))). lra.
  - pose proof (frac_nonneg (snd point - snd (current_origin st))). lra.
Qed.

Lemma hop_origin bs st point last : current_origin (hop bs st point last) = point.
Proof. reflexivity. Qed.

Lemma hops_nonneg_x bs points : forall st,
  (0 <= fst (extra_numbers st))%Q ->
  ascending (fst (current_origin st)) (List.map fst points) ->
  (0 <= fst (extra_numbers (hops bs st points)))%Q.
Proof.
  induction points as [|p rest IH]; intros st He Ha; simpl; [exact He|].
  destruct Ha as [Hp Ha]. apply IH.
  - apply hop_nonneg; assumption.
  - rewrite hop_origin. exact Ha.
Qed.

Lemma hops_nonneg_y bs points : forall st,
  (0 <= snd (extra_numbers st))%Q ->
  ascending (snd (current_origin st)) (List.map snd points) ->
  (0 <= snd (extra_numbers (hops bs st points)))%Q.
Proof.
  induction points as [|p rest IH]; intros st He Ha; simpl; [exact He|].
  destruct Ha as [Hp Ha]. apply IH.
  - apply hop_nonneg; assumption.
  - rewrite hop_origin. exact Ha.
Qed.

(** A remainder between 0 and 1 that makes up a whole distance is flushed
    exactly. *)
Lemma flush_whole e (k : Z) :
  (0 <= e)%Q -> (e <= 1)%Q -> (e == inject_Z k)%Q ->
  py_int (e + (1 # 2)) = k
  /\ (k <> 0 -> Qltb (1 # 2) (py_abs e) = true).
Proof.
  intros Hlo Hhi Hk.
  assert (H0 : (inject_Z 0 <= inject_Z k)%Q)
    by (change (inject_Z 0) with 0%Q; lra).
  assert (H1 : (inject_Z k <= inject_Z 1)%Q)
    by (change (inject_Z 1) with 1%Q; lra).
  apply (proj1 (inject_Z_le _ _)) in H0. apply (proj1 (inject_Z_le _ _)) in H1.
  assert (Hcases : k = 0 \/ k = 1) by lia.
  destruct Hcases as [-> | ->].
  - change (inject_Z 0) with 0%Q in Hk. split; [|congruence].
    apply py_int_below_one; lra.
  - change (inject_Z 1) with 1%Q in Hk. split.
    + apply py_int_from_one; lra.
    + intros _. apply Qltb_lt. unfold py_abs. rewrite Qabs_pos by lra. lra.
Qed.

(** X6. On an axis along which the trajectory never goes back and ends on a
    whole coordinate, the position returned after a successful [perform()] is
    that coordinate exactly. *)
Theorem ascending_path_arrives opts p points origin destination :
  let reported :=
    snd (_execute_web_movement opts (p :: points) origin destination
           Performed) in
  (forall n,
     ascending (inject_Z (fst origin)) (List.map fst (p :: points)) ->
     (fst (List.last points p) == inject_Z n)%Q ->
     fst reported = n)
  /\ (forall m,
        ascending (inject_Z (snd origin)) (List.map snd (p :: points)) ->
        (snd (List.last points p) == inject_Z m)%Q ->
        snd reported = m).
Proof.
  cbv zeta. unfold _execute_web_movement, run_movement.
  set (bs := if reduce_polling opts then 3%nat else 1%nat).
  pose proof (WebAdjusterFacts.hops_conserved bs (p :: points)
                (initial_state origin)) as [cx cy _ _].
  pose proof (proj1 (WebAdjusterFacts.hops_end bs points (initial_state origin) p))
    as Hl.
  pose proof (hops_small bs points (initial_state origin) p) as [Sx Sy].
  pose proof (hops_nonneg_x bs (p :: points) (initial_state origin)) as Nx.
  pose proof (hops_nonneg_y bs (p :: points) (initial_state origin)) as Ny.
  set (st := hops bs (initial_state origin) (p :: points)) in *.
  clearbody st. simpl in cx, cy, Nx, Ny.
  change (inject_Z 0) with 0%Q in cx, cy.
  rewrite <- Hl in cx, cy.
  apply Qabs_Qle_condition in Sx, Sy.
  rewrite final_flush_eq. unfold flush_condition. simpl snd.
  split.
  - intros n Ha Hn.
    assert (He : (0 <= fst (extra_numbers st))%Q) by (apply Nx; [lra | exact Ha]).
    assert (Hk : (fst (extra_numbers st)
                  == inject_Z (n - fst origin - fst (total_offset st)))%Q).
    { unfold Z.sub. rewrite !inject_Z_plus, !inject_Z_opp. lra. }
    destruct (flush_whole _ _ He (proj2 Sx) Hk) as [Hf Hc].
    destruct (Qltb (1 # 2) (py_abs (fst (extra_numbers st)))) eqn:Hcx; simpl.
    + rewrite Hf. lia.
    + destruct (Z.eq_dec (n - fst origin - fst (total_offset st)) 0) as [Hz|Hz];
        [|specialize (Hc Hz); discriminate].
      destruct (Qltb (1 # 2) (py_abs (snd (extra_numbers st)))); simpl;
        rewrite ?Hf; lia.
  - intros m Ha Hm.
    assert (He : (0 <= snd (extra_numbers st))%Q) by (apply Ny; [lra | exact Ha]).
    assert (Hk : (snd (extra_numbers st)
                  == inject_Z (m - snd origin - snd (total_offset st)))%Q).
    { unfold Z.sub. rewrite !inject_Z_plus, !inject_Z_opp. lra. }
    destruct (flush_whole _ _ He (proj2 Sy) Hk) as [Hf Hc].
    destruct (Qltb (1 # 2) (py_abs (snd (extra_numbers st)))) eqn:Hcy; simpl.
    + rewrite orb_true_r. simpl. rewrite Hf. lia.
    + rewrite orb_false_r.
      destruct (Z.eq_dec (m - snd origin - snd (total_offset st)) 0) as [Hz|Hz];
        [|specialize (Hc Hz); discriminate].
      destruct (Qltb (1 # 2) (py_abs (fst (extra_numbers st)))); simpl;
        rewrite ?Hf; lia.
Qed.

Lemma ascending_path_arrives_example :
  let reported :=
    snd (_execute_web_movement Examples.desktop MoreExamples.short_path
           (0, 0) (3, 4) Performed) in
  fst reported = 3 /\ snd reported = 4.
Proof.
  pose proof (ascending_path_arrives Examples.desktop
                (1, 1 # 2)%Q [(2, 5 # 2); (3, 4)]%Q (0, 0) (3, 4)) as H.
  cbv zeta in H. destruct H as [Hx Hy].
  split; [apply Hx | apply Hy]; try reflexivity;
    simpl; repeat split; unfold Qle; simpl; lia.
Defined.

End MovementFacts.

(** ** Targets and [move_to] *)

Module AdjusterFacts.

Import HumanCurve WebAdjuster MovementSpec Adjuster PyFacts.

Lemma choice_range_bounds k :
  25 <= choice_range 25 75 k <= 74.
Proof.
  unfold choice_range. change (Z.to_nat (75 - 25)) with 50%nat.
  pose proof (Nat.mod_upper_bound k 50). lia.
Qed.

(** Truncation keeps a number between two whole bounds. *)
Lemma py_int_between (lo hi : Z) v :
  (inject_Z lo <= v)%Q -> (v <= inject_Z hi)%Q -> lo <= py_int v <= hi.
Proof.
  intros Hlo Hhi. destruct (py_int_spec v) as (r & Hv & Hr1 & Hr2 & _).
  assert (H1 : (inject_Z (lo - 1) < inject_Z (py_int v))%Q).
  { unfold Z.sub. rewrite inject_Z_plus, inject_Z_opp.
    change (inject_Z 1) with 1%Q. lra. }
  assert (H2 : (inject_Z (py_int v) < inject_Z (hi + 1))%Q).
  { rewrite inject_Z_plus. change (inject_Z 1) with 1%Q. lra. }
  apply (proj1 (inject_Z_lt _ _)) in H1. apply (proj1 (inject_Z_lt _ _)) in H2.
  lia.
Qed.

Lemma central_offset (x w c : Z) :
  0 <= w -> 25 <= c <= 74 ->
  let v := (inject_Z x + inject_Z w * (inject_Z c / 100))%Q in
  x <= py_int v <= x + w
  /\ 25 * w - 100 < 100 * (py_int v - x) < 74 * w + 100.
Proof.
  intros Hw [Hc1 Hc2] v.
  assert (Hw' : (0 <= inject_Z w)%Q)
    by (change 0%Q with (inject_Z 0); apply inject_Z_le; exact Hw).
  assert (Hf1 : (25 # 100 <= inject_Z c / 100)%Q).
  { apply Qle_shift_div_l; [reflexivity|].
    assert (H25 : (inject_Z 25 <= inject_Z c)%Q) by (apply inject_Z_le; exact Hc1).
    change (inject_Z 25) with 25%Q in H25. lra. }
  assert (Hf2 : (inject_Z c / 100 <= 74 # 100)%Q).
  { apply Qle_shift_div_r; [reflexivity|].
    assert (H74 : (inject_Z c <= inject_Z 74)%Q) by (apply inject_Z_le; exact Hc2).
    change (inject_Z 74) with 74%Q in H74. lra. }
  set (f := (inject_Z c / 100)%Q) in *.
  assert (Hv1 : (inject_Z x + (25 # 100) * inject_Z w <= v)%Q) by (unfold v; nra).
  assert (Hv2 : (v <= inject_Z x + (74 # 100) * inject_Z w)%Q) by (unfold v; nra).
  split.
  - apply py_int_between; [lra|]. rewrite inject_Z_plus. lra.
  - destruct (py_int_spec v) as (r & Hv & Hr1 & Hr2 & _).
    assert (H1 : (inject_Z (25 * w - 100) < inject_Z (100 * (py_int v - x)))%Q).
    { unfold Z.sub. rewrite !inject_Z_mult, !inject_Z_plus, !inject_Z_mult,
        !inject_Z_opp.
      change (inject_Z 100) with 100%Q. change (inject_Z 25) with 25%Q. lra. }
    assert (H2 : (inject_Z (100 * (py_int v - x)) < inject_Z (74 * w + 100))%Q).
    { unfold Z.sub. rewrite !inject_Z_mult, !inject_Z_plus, !inject_Z_mult,
        !inject_Z_opp.
      change (inject_Z 100) with 100%Q. change (inject_Z 74) with 74%Q. lra. }
    apply (proj1 (inject_Z_lt _ _)) in H1. apply (proj1 (inject_Z_lt _ _)) in H2.
    lia.
Qed.

(** X7. Without a relative position, the point chosen in an element lies
    inside its rectangle, within a pixel of the band from 25% to 74% of its
    width and height. *)
Theorem random_point_inside_element
    calculate_absolute_offset element rect draws :
  bounding_rect element = Some rect ->
  0 <= rect_width rect -> 0 <= rect_height rect ->
  let point :=
    _get_element_coordinates calculate_absolute_offset element None draws in
  (rect_x rect <= fst point <= rect_x rect + rect_width rect
   /\ 25 * rect_width rect - 100 < 100 * (fst point - rect_x rect)
      < 74 * rect_width rect + 100)
  /\ (rect_y rect <= snd point <= rect_y rect + rect_height rect
      /\ 25 * rect_height rect - 100 < 100 * (snd point - rect_y rect)
         < 74 * rect_height rect + 100).
Proof.
  intros Hb Hw Hh. cbv zeta. unfold _get_element_coordinates. rewrite Hb.
  simpl fst. simpl snd. split.
  - apply (central_offset (rect_x rect) (rect_width rect)
             (choice_range 25 75 (fst draws)) Hw (choice_range_bounds _)).
  - apply (central_offset (rect_y rect) (rect_height rect)
             (choice_range 25 75 (snd draws)) Hh (choice_range_bounds _)).
Qed.

Lemma random_point_inside_element_example :
  let point :=
    _get_element_coordinates MoreExamples.proportional_offset
      MoreExamples.a_button None (10, 20)%nat in
  (100 <= fst point <= 100 + 200
   /\ 25 * 200 - 100 < 100 * (fst point - 100) < 74 * 200 + 100)
  /\ (50 <= snd point <= 50 + 40
      /\ 25 * 40 - 100 < 100 * (snd point - 50) < 74 * 40 + 100).
Proof.
  apply (random_point_inside_element MoreExamples.proportional_offset
           MoreExamples.a_button MoreExamples.button_rect (10, 20)%nat);
    [reflexivity | simpl; lia | simpl; lia].
Defined.

(** A position given with whole offsets relative to the origin is aimed at
    the origin plus the offsets; a position that is not relative is aimed at
    as it is, its coordinates truncated. *)
Lemma target_of_position cao x y rest origin rel draws :
  _calculate_target_coordinates cao (Position (x :: y :: rest)) origin false
    rel draws = Some (py_int x, py_int y)
  /\ forall dx dy,
       _calculate_target_coordinates cao
         (Position (inject_Z dx :: inject_Z dy :: rest)) origin true rel draws
       = Some (dx + fst origin, dy + snd origin).
Proof.
  split; [reflexivity|]. intros dx dy. simpl.
  rewrite <- !inject_Z_plus, !py_int_inject. reflexivity.
Qed.

(** X8. [move_to] does nothing when the position or the origin misses a
    coordinate: no move is queued, the adjuster is as before and the origin is
    returned as it is. *)
Theorem move_to_missing_coordinate
    cao gen self target origin_coordinates absolute relative curve steady
    draws outcome :
  (length (starting_origin self origin_coordinates) < 2)%nat
  \/ (exists coords, target = Position coords /\ (length coords < 2)%nat) ->
  move_to cao gen self target origin_coordinates absolute relative curve
    steady draws outcome
  = (starting_origin self origin_coordinates, self, []).
Proof.
  intros H. unfold move_to.
  change (match origin_coordinates with
          | Some (c :: cs) => c :: cs
          | _ => origin_coordinate self
          end) with (starting_origin self origin_coordinates).
  destruct (starting_origin self origin_coordinates) as [|ox [|oy rest]] eqn:Ho;
    try reflexivity.
  destruct H as [H | (coords & -> & H)]; [simpl in H; lia|].
  destruct coords as [|x [|y coords]]; try reflexivity. simpl in H. lia.
Qed.

Lemma move_to_missing_coordinate_example :
  move_to MoreExamples.proportional_offset MoreExamples.straight_curve
    MoreExamples.adjuster_at_origin (Position [5]%Q) None false None None
    false (0, 0)%nat Performed
  = ([0; 0], MoreExamples.adjuster_at_origin, []).
Proof.
  apply (move_to_missing_coordinate MoreExamples.proportional_offset
           MoreExamples.straight_curve MoreExamples.adjuster_at_origin
           (Position [5]%Q) None false None None false (0, 0)%nat Performed).
  right. exists [5]%Q. split; [reflexivity | simpl; lia].
Defined.

(** X9. [move_to] with a curve that is not empty and a [perform()] that
    succeeds: the list returned is stored as the new origin, it is the old
    origin plus the moves handed to the action chain, and when the curve ends
    on the target it is the target or the pixel after it on each axis. *)
Theorem move_to_arrives
    cao gen self target origin_coordinates absolute relative human_curve
    steady draws ox oy rest tx ty p points :
  starting_origin self origin_coordinates = ox :: oy :: rest ->
  _calculate_target_coordinates cao target (ox, oy) absolute relative draws
  = Some (tx, ty) ->
  (human_curve = Some (p :: points)
   \/ (human_curve = None
       /\ gen (ox :: oy :: rest) (tx, ty) steady = Some (p :: points))) ->
  exists rx ry moves self',
    move_to cao gen self target origin_coordinates absolute relative
      human_curve steady draws Performed
    = ([rx; ry], self', moves)
    /\ origin_coordinate self' = [rx; ry]
    /\ rx = ox + sum_dx moves /\ ry = oy + sum_dy moves
    /\ ((fst (List.last points p) == inject_Z tx)%Q ->
        rx = tx \/ rx = tx + 1)
    /\ ((snd (List.last points p) == inject_Z ty)%Q ->
        ry = ty \/ ry = ty + 1).
Proof.
  intros Ho Ht Hc. unfold move_to.
  change (match origin_coordinates with
          | Some (c :: cs) => c :: cs
          | _ => origin_coordinate self
          end) with (starting_origin self origin_coordinates).
  rewrite Ho, Ht.
  assert (Hcurve : match human_curve with
                   | Some pts => Some pts
                   | None => gen (ox :: oy :: rest) (tx, ty) steady
                   end = Some (p :: points))
    by (destruct Hc as [-> | [-> Hg]]; [reflexivity | exact Hg]).
  rewrite Hcurve.
  pose proof (MovementFacts.reported_sums
                (_linux_optimizations self) p points (ox, oy) (tx, ty)) as Hs.
  pose proof (MovementFacts.reported_near
                (_linux_optimizations self) p points (ox, oy) (tx, ty)) as Hn.
  cbv zeta in Hs, Hn.
  destruct (_execute_web_movement (_linux_optimizations self) (p :: points)
              (ox, oy) (tx, ty) Performed) as [moves [rx ry]].
  simpl in Hs, Hn. injection Hs as Hrx Hry.
  exists rx, ry, moves, (set_origin self [rx; ry]).
  repeat split; try assumption.
  - intros Hl. destruct Hn as [[H1 H2] _]. rewrite Hl in H1, H2.
    assert (H1' : (inject_Z (tx - 1) < inject_Z rx)%Q).
    { unfold Z.sub. rewrite inject_Z_plus, inject_Z_opp.
      change (inject_Z 1) with 1%Q. lra. }
    assert (H2' : (inject_Z rx <= inject_Z (tx + 1))%Q)
      by (rewrite inject_Z_plus; exact H2).
    apply (proj1 (inject_Z_lt _ _)) in H1'.
    apply (proj1 (inject_Z_le _ _)) in H2'. lia.
  - intros Hl. destruct Hn as [_ [H1 H2]]. rewrite Hl in H1, H2.
    assert (H1' : (inject_Z (ty - 1) < inject_Z ry)%Q).
    { unfold Z.sub. rewrite inject_Z_plus, inject_Z_opp.
      change (inject_Z 1) with 1%Q. lra. }
    assert (H2' : (inject_Z ry <= inject_Z (ty + 1))%Q)
      by (rewrite inject_Z_plus; exact H2).
    apply (proj1 (inject_Z_lt _ _)) in H1'.
    apply (proj1 (inject_Z_le _ _)) in H2'. lia.
Qed.

Lemma move_to_arrives_example :
  exists rx ry moves self',
    move_to MoreExamples.proportional_offset MoreExamples.straight_curve
      MoreExamples.adjuster_at_origin (Position [3; 4]%Q) None false None
      (Some MoreExamples.short_path) false (0, 0)%nat Performed
    = ([rx; ry], self', moves)
    /\ origin_coordinate self' = [rx; ry]
    /\ rx = 0 + sum_dx moves /\ ry = 0 + sum_dy moves
    /\ (rx = 3 \/ rx = 3 + 1)
    /\ (ry = 4 \/ ry = 4 + 1).
Proof.
  destruct (move_to_arrives MoreExamples.proportional_offset
              MoreExamples.straight_curve MoreExamples.adjuster_at_origin
              (Position [3; 4]%Q) None false None
              (Some MoreExamples.short_path) false (0, 0)%nat 0 0 [] 3 4
              (1, 1 # 2)%Q [(2, 5 # 2); (3, 4)]%Q
              eq_refl eq_refl (or_introl eq_refl))
    as (rx & ry & moves & self' & H1 & H2 & H3 & H4 & H5 & H6).
  exists rx, ry, moves, self'.
  split; [exact H1|]. split; [exact H2|]. split; [exact H3|].
  split; [exact H4|]. split; [apply H5 | apply H6]; reflexivity.
Defined.

(** One call from a stored origin of two coordinates, with a curve that is
    not empty: the new origin is the old one plus the moves of the call. *)
Lemma move_to_step cao gen self target absolute relative curve steady draws
    ox oy :
  origin_coordinate self = [ox; oy] -> curve <> [] ->
  let '(_, self', moves) :=
    move_to cao gen self target None absolute relative (Some curve) steady
      draws Performed in
  origin_coordinate self' = [ox + sum_dx moves; oy + sum_dy moves].
Proof.
  intros Ho Hc. unfold move_to. rewrite Ho.
  destruct (_calculate_target_coordinates cao target (ox, oy) absolute
              relative draws) as [[tx ty]|].
  - destruct curve as [|p points]; [contradiction|].
    pose proof (MovementFacts.reported_sums
                  (_linux_optimizations self) p points (ox, oy) (tx, ty)) as Hs.
    cbv zeta in Hs.
    destruct (_execute_web_movement (_linux_optimizations self) (p :: points)
                (ox, oy) (tx, ty) Performed) as [moves [rx ry]].
    simpl in Hs. injection Hs as -> ->. reflexivity.
  - rewrite Ho. unfold sum_dx, sum_dy. simpl. rewrite !Z.add_0_r. reflexivity.
Qed.

Lemma move_all_from cao gen calls : forall self acc ox oy,
  origin_coordinate self = [ox + sum_dx acc; oy + sum_dy acc] ->
  Forall (fun call => call_curve call <> []) calls ->
  let result :=
    fold_left
      (fun acc call =>
         let '(_, self', moves) :=
           move_to cao gen (fst acc) (call_target call) None
             (call_absolute call) (call_relative call)
             (Some (call_curve call)) (call_steady call) (call_draws call)
             Performed in
         (self', snd acc ++ moves))
      calls (self, acc) in
  origin_coordinate (fst result)
  = [ox + sum_dx (snd result); oy + sum_dy (snd result)].
Proof.
  induction calls as [|call calls IH]; intros self acc ox oy Ho Hc; simpl.
  - exact Ho.
  - apply Forall_cons_1 in Hc as [Hcall Hc].
    pose proof (move_to_step cao gen self (call_target call)
                  (call_absolute call) (call_relative call) (call_curve call)
                  (call_steady call) (call_draws call) _ _ Ho Hcall) as Hstep.
    destruct (move_to cao gen self (call_target call) None
                (call_absolute call) (call_relative call)
                (Some (call_curve call)) (call_steady call) (call_draws call)
                Performed) as [[r self'] moves].
    apply IH; [|exact Hc].
    rewrite Hstep, WebAdjusterFacts.sum_dx_app, WebAdjusterFacts.sum_dy_app.
    f_equal; [lia | f_equal; lia].
Qed.

(** X10. Over any number of calls of [move_to] from the stored origin, with
    curves that are not empty and every [perform()] succeeding, the stored
    origin is where it was at first plus all the moves handed to the action
    chain: the adjuster never loses track of the pointer. *)
Theorem origin_tracks_moves cao gen self calls ox oy :
  origin_coordinate self = [ox; oy] ->
  Forall (fun call => call_curve call <> []) calls ->
  origin_coordinate (fst (move_all cao gen self calls))
  = [ox + sum_dx (snd (move_all cao gen self calls));
     oy + sum_dy (snd (move_all cao gen self calls))].
Proof.
  intros Ho Hc. unfold move_all.
  apply (move_all_from cao gen calls self [] ox oy); [|exact Hc].
  unfold sum_dx, sum_dy. simpl. rewrite !Z.add_0_r. exact Ho.
Qed.

Lemma origin_tracks_moves_example :
  let run :=
    move_all MoreExamples.proportional_offset MoreExamples.straight_curve
      MoreExamples.adjuster_at_origin MoreExamples.two_calls in
  origin_coordinate (fst run) = [0 + sum_dx (snd run); 0 + sum_dy (snd run)].
Proof.
  apply (origin_tracks_moves MoreExamples.proportional_offset
           MoreExamples.straight_curve MoreExamples.adjuster_at_origin
           MoreExamples.two_calls 0 0);
    [reflexivity | repeat constructor; discriminate].
Defined.

(** *** Scrolling *)

Lemma total_scroll_app a b :
  total_scroll (a ++ b)
  = (fst (total_scroll a) + fst (total_scroll b),
     snd (total_scroll a) + snd (total_scroll b)).
Proof.
  induction a as [|ev a IH]; simpl.
  - destruct (total_scroll b). reflexivity.
  - rewrite IH. simpl. f_equal; lia.
Qed.

Lemma total_scroll_turns turn n :
  total_scroll (List.concat (List.repeat turn n))
  = (Z.of_nat n * fst (total_scroll turn), Z.of_nat n * snd (total_scroll turn)).
Proof.
  induction n as [|n IH].
  - reflexivity.
  - change (List.concat (List.repeat turn (S n)))
      with (turn ++ List.concat (List.repeat turn n)).
    rewrite total_scroll_app, IH. simpl fst. simpl snd. f_equal; lia.
Qed.

Lemma total_scroll_turn direction smooth :
  total_scroll (scroll_turn direction smooth)
  = match direction_unit direction with
    | Some u => (100 * fst u, 100 * snd u)
    | None => (100, 0)
    end.
Proof.
  unfold scroll_turn, direction_unit.
  repeat case_decide; destruct smooth; reflexivity.
Qed.

Lemma total_scroll_queue l :
  total_scroll ((MoveToElement :: l) ++ [PerformChain]) = total_scroll l.
Proof.
  rewrite total_scroll_app. simpl. destruct (total_scroll l) as [a b].
  simpl. f_equal; lia.
Qed.

(** X11. In one of the four directions, whatever the case of its letters, the
    script scrolls by 100 times [amount] and the action chain by 100 times
    [amount] or not at all when [amount] is negative; for another word the
    script scrolls down and the action chain to the right. *)
Theorem scroll_smooth_distance opts direction amount smooth :
  let by_script := snd (scroll_smooth opts direction amount smooth true true) in
  let unit_step := direction_unit direction in
  (smooth && use_native_events opts = true ->
   fst (scroll_smooth opts direction amount smooth true true) = true
   /\ total_scroll by_script
      = match unit_step with
        | Some u => (100 * amount * fst u, 100 * amount * snd u)
        | None => (0, 100 * amount)
        end)
  /\ (smooth && use_native_events opts = false ->
      fst (scroll_smooth opts direction amount smooth true true) = true
      /\ total_scroll by_script
         = match unit_step with
           | Some u => (100 * Z.max 0 amount * fst u,
                        100 * Z.max 0 amount * snd u)
           | None => (100 * Z.max 0 amount, 0)
           end).
Proof.
  cbv zeta. unfold scroll_smooth. split; intros Hb; rewrite Hb.
  - split; [reflexivity|]. unfold scroll_map_get, direction_unit.
    repeat case_decide; simpl; f_equal; lia.
  - split; [reflexivity|].
    cbn [snd]. rewrite total_scroll_queue, total_scroll_turns, total_scroll_turn.
    assert (Hn : Z.of_nat (Z.to_nat amount) = Z.max 0 amount) by lia.
    rewrite Hn. destruct (direction_unit direction) as [[ux uy]|]; simpl;
      f_equal; lia.
Qed.

Lemma scroll_smooth_distance_example :
  fst (scroll_smooth Examples.desktop (Str.lit "Down") 3 true true true) = true
  /\ total_scroll
       (snd (scroll_smooth Examples.desktop (Str.lit "Down") 3 true true true))
     = (0, 300).
Proof.
  exact (proj2 (scroll_smooth_distance Examples.desktop (Str.lit "Down") 3 true)
           eq_refl).
Defined.

End AdjusterFacts.

(** ** More on the keyboard humanizer *)

Module KeyboardFacts.

Import Str Keyboard KeyboardSpec PyFacts.

Local Open Scope py_scope.

(** *** Sentences *)

Lemma visible_app a b : visible (a ++ b) = visible a ++ visible b.
Proof. apply List.filter_app. Qed.

Lemma visible_lstrip s : visible (lstrip s) = visible s.
Proof.
  induction s as [|c s IH]; [reflexivity|].
  change (lstrip (c :: s)) with (if isspace c then lstrip s else c :: s).
  destruct (isspace c) eqn:Hc; [|reflexivity].
  rewrite IH. unfold visible. simpl. rewrite Hc. reflexivity.
Qed.

Lemma visible_rev s : visible (rev s) = rev (visible s).
Proof.
  induction s as [|c s IH]; [reflexivity|]. simpl.
  rewrite visible_app, IH. unfold visible at 2 3. simpl.
  destruct (negb (isspace c)); simpl; [reflexivity | apply app_nil_r].
Qed.

Lemma visible_strip s : visible (strip s) = visible s.
Proof.
  unfold strip, rstrip.
  rewrite visible_rev, visible_lstrip, visible_rev, rev_involutive.
  apply visible_lstrip.
Qed.

Lemma visible_concat_strip raws :
  visible (concat (List.map strip raws)) = visible (concat raws).
Proof.
  induction raws as [|r raws IH]; [reflexivity|]. simpl.
  rewrite !visible_app, visible_strip, IH. reflexivity.
Qed.

Lemma visible_nil_strip s : strip s = [] -> visible s = [].
Proof. intros H. rewrite <- visible_strip, H. reflexivity. Qed.

(** The result in terms of the pieces that the loop cuts. *)
Lemma split_into_sentences_pieces text :
  exists raws tail,
    text = concat raws ++ tail
    /\ _split_into_sentences text
       = match List.map strip raws ++ tail_fragment tail with
         | [] => [text]
         | fragments => fragments
         end.
Proof.
  destruct (TextFacts.loop_decomposition text [] [] TextFacts.never_cut_nil)
    as (raws & tail & Hf & Ht & _).
  simpl in Hf, Ht. exists raws, tail. split; [exact Ht|].
  unfold _split_into_sentences, tail_fragment.
  match goal with
  | |- context [fold_left split_step text ?a] =>
      replace (fold_left split_step text a) with (List.map strip raws, tail)
        by (symmetry; exact Hf)
  end.
  destruct (strip tail); rewrite ?app_nil_r;
    match goal with
    | |- match ?fragments with _ => _ end = _ => destruct fragments
    end; reflexivity.
Qed.

(** X12. Cutting a text into sentences loses nothing but whitespace: the
    characters that are not whitespace are those of the text, in order. *)
Theorem sentences_keep_visible_characters text :
  visible (concat (_split_into_sentences text)) = visible text.
Proof.
  destruct (split_into_sentences_pieces text) as (raws & tail & Ht & Heq).
  rewrite Heq.
  assert (Hall : visible (concat (List.map strip raws ++ tail_fragment tail))
                 = visible text).
  { pose proof (f_equal visible Ht) as Htext. rewrite visible_app in Htext.
    rewrite concat_app, visible_app, visible_concat_strip, Htext. f_equal.
    unfold tail_fragment. destruct (strip tail) eqn:Hs.
    - simpl. symmetry. apply visible_nil_strip, Hs.
    - cbn [concat]. rewrite app_nil_r, <- Hs. apply visible_strip. }
  destruct (List.map strip raws ++ tail_fragment tail) eqn:Hfr.
  - simpl. rewrite app_nil_r. reflexivity.
  - exact Hall.
Qed.

(** *** Indicators *)

Lemma startswith_iff sub : forall s,
  startswith s sub = true <-> exists rest, s = sub ++ rest.
Proof.
  induction sub as [|a sub IH]; intros s.
  - destruct s; simpl; split; eauto.
  - destruct s as [|b s]; simpl.
    + split; [discriminate | intros [rest H]; discriminate].
    + unfold ascii_eqb. rewrite andb_true_iff, Ascii.eqb_eq, IH. split.
      * intros [-> [rest ->]]. exists rest. reflexivity.
      * intros [rest H]. injection H as -> ->. eauto.
Qed.

(** [sub in s] holds exactly when [sub] occurs in [s]. *)
Lemma contains_iff sub s :
  contains sub s = true <-> exists a b, s = a ++ sub ++ b.
Proof.
  induction s as [|c s IH].
  - change (contains sub []) with (startswith [] sub || false).
    rewrite orb_false_r, startswith_iff. split.
    + intros [rest H]. exists [], rest. exact H.
    + intros (a & b & H). symmetry in H. apply app_eq_nil in H as [-> H].
      apply app_eq_nil in H as [-> ->]. exists []. reflexivity.
  - change (contains sub (c :: s))
      with (startswith (c :: s) sub || contains sub s).
    rewrite orb_true_iff, startswith_iff, IH. split.
    + intros [[rest H] | (a & b & H)].
      * exists [], rest. exact H.
      * exists (c :: a), b. rewrite H. reflexivity.
    + intros (a & b & H). destruct a as [|c' a].
      * left. exists b. exact H.
      * right. injection H as -> ->. eauto.
Qed.

Lemma contains_embedded sub a t b :
  contains sub t = true -> contains sub (a ++ t ++ b) = true.
Proof.
  rewrite !contains_iff. intros (x & y & ->).
  exists (a ++ x), (y ++ b). rewrite <- !app_assoc. reflexivity.
Qed.

Lemma any_in_embedded indicators a t b :
  any_in indicators t = true -> any_in indicators (a ++ t ++ b) = true.
Proof.
  unfold any_in. rewrite !existsb_exists. intros (i & Hi & Hc).
  exists i. split; [exact Hi | apply contains_embedded, Hc].
Qed.

(** X13. A text that looks like code, like an email or formal still does when
    more text is put before and after it. *)
Theorem tags_survive_embedding before text after :
  (_is_code_text text = true ->
   _is_code_text (before ++ text ++ after) = true)
  /\ (_is_email_text text = true ->
      _is_email_text (before ++ text ++ after) = true)
  /\ (_is_formal_text text = true ->
      _is_formal_text (before ++ text ++ after) = true).
Proof.
  unfold _is_code_text, _is_email_text, _is_formal_text, lower.
  rewrite !List.map_app.
  repeat split; apply any_in_embedded.
Qed.

Lemma tags_survive_embedding_example :
  _is_code_text (lit "x = " ++ lit "f()" ++ lit " + 1") = true.
Proof.
  exact (proj1 (tags_survive_embedding (lit "x = ") (lit "f()") (lit " + 1"))
           eq_refl).
Defined.

(** *** Thinking pauses *)

(** X14. With a generator that draws from [[0,1)], the thinking pause is 0
    (after one draw, when the draw is at least 0.15) or at least 0.3 and less
    than 1.5 seconds (after two draws). *)
Theorem thinking_pause_range st :
  (0 <= draws (env st) (S (cursor (env st))))%Q ->
  (draws (env st) (S (cursor (env st))) < 1)%Q ->
  exists pause,
    fst (_get_thinking_pause st) = Returned pause
    /\ (((15 # 100) <= draws (env st) (cursor (env st)))%Q ->
        pause = 0%Q
        /\ cursor (env (snd (_get_thinking_pause st))) = S (cursor (env st)))
    /\ ((draws (env st) (cursor (env st)) < (15 # 100))%Q ->
        ((3 # 10) <= pause)%Q /\ (pause < (15 # 10))%Q
        /\ cursor (env (snd (_get_thinking_pause st)))
           = S (S (cursor (env st)))).
Proof.
  intros Hlo Hhi.
  unfold _get_thinking_pause, uniform, bind, random, ret. simpl.
  destruct (Qltb (draws (env st) (cursor (env st))) (15 # 100)) eqn:Hd; simpl.
  - apply Qltb_lt in Hd. eexists. split; [reflexivity|]. split.
    + intros H. lra.
    + intros _. repeat split; try reflexivity; lra.
  - apply Qltb_ge in Hd. eexists. split; [reflexivity|]. split.
    + intros _. split; reflexivity.
    + intros H. lra.
Qed.

Lemma thinking_pause_range_example :
  exists pause,
    fst (_get_thinking_pause (Examples.at_time 100)) = Returned pause
    /\ ((3 # 10) <= pause)%Q /\ (pause < (15 # 10))%Q
    /\ cursor (env (snd (_get_thinking_pause (Examples.at_time 100)))) = 2%nat.
Proof.
  destruct (thinking_pause_range (Examples.at_time 100))
    as (pause & Hp & _ & Hdrawn);
    [vm_compute; discriminate | reflexivity |].
  exists pause. split; [exact Hp|]. apply Hdrawn. reflexivity.
Defined.

(** *** The configuration across [type_text] *)

Lemma config_lookup h key : get_current_config h !! key = getattr h key.
Proof.
  unfold get_current_config, getattr. cbn [list_to_map foldr fst snd].
  repeat match goal with
         | |- context [String.eqb key ?k] =>
             destruct (String.eqb_spec key k) as [->|?];
             [rewrite ?lookup_insert_ne by discriminate;
              rewrite lookup_insert_eq; reflexivity|]
         end.
  rewrite !lookup_insert_ne by congruence. apply lookup_empty.
Qed.

Lemma getattr_setattr_other h k v key :
  key <> k -> getattr (setattr h k v) key = getattr h key.
Proof.
  intros Hne. unfold getattr.
  repeat match goal with
         | |- context [if String.eqb key ?c then _ else _] =>
             destruct (String.eqb_spec key c) as [->|?];
             [cbn; apply String.eqb_neq in Hne; rewrite String.eqb_sym, Hne;
              reflexivity|]
         end.
  reflexivity.
Qed.

Lemma adapt_settings text h key :
  key <> "use_copy_paste"%string ->
  getattr (_adapt_to_context text h) key = getattr h key.
Proof.
  intros Hne. unfold _adapt_to_context.
  repeat match goal with |- context [if ?b then _ else _] => destruct b end;
    rewrite ?getattr_setattr_other by exact Hne; reflexivity.
Qed.

Lemma adapt_copy_paste text h :
  (use_copy_paste h = true -> use_copy_paste (_adapt_to_context text h) = true)
  /\ (use_copy_paste (_adapt_to_context text h) = true ->
      use_copy_paste h = true
      \/ email_like (classify text) = true
      \/ repetitive (classify text) = true).
Proof.
  unfold _adapt_to_context, classify. simpl.
  destruct (_is_code_text text), (_is_email_text text), (_is_formal_text text),
    (_has_repetitive_content text); simpl; auto.
Qed.

Lemma update_fatigue_settings half_time st key :
  getattr (self (snd (_update_fatigue half_time st))) key = getattr (self st) key.
Proof. reflexivity. Qed.

(** The boolean settings that the body of [type_text] leaves are those that
    the adaptation to the context computed. *)
Lemma type_text_body_settings etx esc half_time text st key :
  getattr (self (snd (type_text_body etx esc half_time text st))) key
  = getattr (adapted text (self st)) key.
Proof.
  unfold type_text_body, adapted. rewrite HumanizerFacts.bind_get.
  unfold _type_text_naturally.
  set (loop := type_sentences etx esc true (_split_into_sentences text)).
  assert (Hloop : forall s, getattr (self (snd (loop s))) key
                            = getattr (self s) key)
    by (intros s; apply HumanizerFacts.type_sentences_settings).
  destruct (HumanizerFacts.adapt_context_aware text (self st)) as [_ Hsf].
  destruct (context_aware (self st)); unfold bind, modify_self, ret; simpl;
    rewrite ?Hsf;
    destruct (simulate_fatigue (self st)); simpl; rewrite Hloop; reflexivity.
Qed.

Lemma getattr_copy_paste h : getattr h "use_copy_paste" = Some (use_copy_paste h).
Proof. reflexivity. Qed.

(** X15. When [type_text] reaches its [try] block (scaling the typing speed
    does not raise), then whatever the engine does and whatever is
    overridden, it leaves the configuration as it found it, except that
    [use_copy_paste] can be switched on (never off), and only by the
    adaptation to an email-like or repetitive text, when it is not overridden
    and the humanizer is context aware. When scaling the typing speed raises,
    it leaves the configuration with the overrides set. *)
Theorem type_text_keeps_configuration etx esc half_time text kwargs st :
  let h := self st in
  let h' := self (snd (type_text etx esc half_time text kwargs st)) in
  (scaling_raises kwargs h = false ->
   (forall key, key <> "use_copy_paste"%string ->
      get_current_config h' !! key = get_current_config h !! key)
   /\ (use_copy_paste h = true -> use_copy_paste h' = true)
   /\ (use_copy_paste h' = true ->
       use_copy_paste h = true
       \/ (flags kwargs !! "use_copy_paste"%string = None
           /\ context_aware h = true
           /\ (email_like (classify text) = true
               \/ repetitive (classify text) = true))))
  /\ (scaling_raises kwargs h = true ->
      forall key,
        get_current_config h' !! key
        = match get_current_config h !! key with
          | Some old =>
              if existsb (String.eqb key) override_keys
              then Some (default old (flags kwargs !! key))
              else Some old
          | None => None
          end).
Proof.
  cbv zeta. split; cycle 1.
  { intros Hscale key.
    rewrite (HumanizerFacts.type_text_scaling_error etx esc half_time text
               kwargs st Hscale).
    cbn [snd self]. rewrite !config_lookup.
    apply HumanizerFacts.apply_overrides_getattr. }
  intros Hscale. rewrite HumanizerFacts.type_text_eq, Hscale. cbn [snd].
  set (st1 := snd (type_text_body etx esc half_time text (entry_state kwargs st))).
  set (hF := self (finally_state kwargs (self st) st1)).
  set (hE := self (entry_state kwargs st)).
  set (h0 := self st).
  assert (Hfinal : forall key,
            getattr hF key
            = if existsb (String.eqb key) override_keys
              then match flags kwargs !! key with
                   | Some _ => getattr h0 key
                   | None => getattr (adapted text hE) key
                   end
              else getattr (adapted text hE) key).
  { intros key. unfold hE.
    rewrite <- (type_text_body_settings etx esc half_time text
                  (entry_state kwargs st) key).
    fold st1. unfold hF, h0, finally_state. simpl self.
    assert (Hr : getattr (restore_settings (fst (apply_overrides kwargs (self st)))
                            (self st1)) key
                 = if existsb (String.eqb key) override_keys
                   then match flags kwargs !! key with
                        | Some _ => getattr (self st) key
                        | None => getattr (self st1) key
                        end
                   else getattr (self st1) key).
    { destruct (existsb (String.eqb key) override_keys) eqn:Hk.
      - apply HumanizerFacts.restore_overridden.
        apply existsb_exists in Hk as (k & Hin & Hk).
        apply String.eqb_eq in Hk. subst k. exact Hin.
      - apply HumanizerFacts.restore_other. intros Hin.
        apply not_true_iff_false in Hk. apply Hk, existsb_exists.
        exists key. split; [exact Hin | apply String.eqb_refl]. }
    destruct (speed_multiplier kwargs);
      [rewrite SessionFacts.getattr_set_engine|]; exact Hr. }
  assert (Hentry : forall key,
            getattr hE key
            = match getattr h0 key with
              | Some old =>
                  if existsb (String.eqb key) override_keys
                  then Some (default old (flags kwargs !! key))
                  else Some old
              | None => None
              end).
  { intros key. unfold hE, entry_state. simpl self.
    destruct (speed_multiplier kwargs) as [m|];
      [destruct (scaled_wpm _ m); [rewrite SessionFacts.getattr_set_engine|]|];
      apply HumanizerFacts.apply_overrides_getattr. }
  clearbody hF hE h0. clear st1.
  assert (Hca : context_aware hE = context_aware h0).
  { pose proof (Hentry "context_aware"%string) as H.
    change (Some (context_aware hE) = Some (context_aware h0)) in H.
    congruence. }
  assert (Hadapted : forall key, key <> "use_copy_paste"%string ->
            getattr (adapted text hE) key = getattr hE key).
  { intros key Hne. unfold adapted.
    destruct (context_aware hE); [apply adapt_settings, Hne | reflexivity]. }
  assert (Hf : use_copy_paste hF
               = match flags kwargs !! "use_copy_paste"%string with
                 | Some _ => use_copy_paste h0
                 | None => use_copy_paste (adapted text hE)
                 end).
  { pose proof (Hfinal "use_copy_paste"%string) as H.
    change (Some (use_copy_paste hF)
            = match flags kwargs !! "use_copy_paste"%string with
              | Some _ => Some (use_copy_paste h0)
              | None => Some (use_copy_paste (adapted text hE))
              end) in H.
    destruct (flags kwargs !! "use_copy_paste"%string); congruence. }
  assert (He : use_copy_paste hE
               = default (use_copy_paste h0)
                   (flags kwargs !! "use_copy_paste"%string)).
  { pose proof (Hentry "use_copy_paste"%string) as H.
    change (Some (use_copy_paste hE)
            = Some (default (use_copy_paste h0)
                      (flags kwargs !! "use_copy_paste"%string))) in H.
    congruence. }
  split; [|split].
  - intros key Hne. rewrite !config_lookup, Hfinal, Hadapted, Hentry
      by exact Hne.
    destruct (getattr h0 key) as [old|];
      destruct (existsb (String.eqb key) override_keys);
      destruct (flags kwargs !! key); reflexivity.
  - intros Hon. rewrite Hf.
    destruct (flags kwargs !! "use_copy_paste"%string) as [v|] eqn:Hfl;
      [exact Hon|].
    simpl in He. unfold adapted.
    destruct (context_aware hE); [apply adapt_copy_paste|]; congruence.
  - intros Hon. rewrite Hf in Hon.
    destruct (flags kwargs !! "use_copy_paste"%string) as [v|] eqn:Hfl;
      [left; exact Hon|].
    simpl in He. unfold adapted in Hon. rewrite <- Hca.
    destruct (context_aware hE) eqn:Hc.
    + apply adapt_copy_paste in Hon as [Hon | Htags].
      * left. congruence.
      * right. auto.
    + left. congruence.
Qed.

Lemma type_text_keeps_configuration_example :
  let h := self Examples.without_pauses in
  let h' := self (snd (type_text Examples.failing_type_text
                         Examples.quiet_correction 3600
                         (lit "Dear Sir. Hello.") Examples.some_overrides
                         Examples.without_pauses)) in
  let h'' := self (snd (type_text Examples.failing_type_text
                          Examples.quiet_correction 3600
                          (lit "Dear Sir. Hello.") Examples.endless_speed
                          Examples.without_pauses)) in
  (forall key, key <> "use_copy_paste"%string ->
     get_current_config h' !! key = get_current_config h !! key)
  /\ use_copy_paste h' = true
  /\ get_current_config h !! "simulate_errors"%string = Some true
  /\ get_current_config h'' !! "simulate_errors"%string = Some false.
Proof.
  pose proof (type_text_keeps_configuration Examples.failing_type_text
                Examples.quiet_correction 3600 (lit "Dear Sir. Hello.")
                Examples.some_overrides Examples.without_pauses) as H.
  pose proof (type_text_keeps_configuration Examples.failing_type_text
                Examples.quiet_correction 3600 (lit "Dear Sir. Hello.")
                Examples.endless_speed Examples.without_pauses) as H'.
  cbv zeta in H, H'. destruct H as [H _]. destruct H' as [_ H'].
  destruct (H eq_refl) as (Hkeys & Hon & _).
  split; [exact Hkeys|]. split; [apply Hon; reflexivity|].
  split; [reflexivity|].
  rewrite (H' eq_refl "simulate_errors"%string). reflexivity.
Defined.

(** *** What the engine is asked to type *)

Lemma typed_sentences_app a b :
  typed_sentences (a ++ b) = typed_sentences a ++ typed_sentences b.
Proof.
  induction a as [|ev a IH]; [reflexivity|].
  destruct ev; simpl; rewrite IH; reflexivity.
Qed.

Lemma thinking_pause_typed first st :
  fst (thinking_pause first st) = Returned tt
  /\ typed_sentences (trace (snd (thinking_pause first st)))
     = typed_sentences (trace st).
Proof.
  unfold thinking_pause. rewrite HumanizerFacts.bind_get.
  destruct (negb first && add_thinking_pauses (self st)); [|split; reflexivity].
  unfold _get_thinking_pause, uniform, bind, random, ret, sleep. simpl.
  destruct (Qltb (draws (env st) (cursor (env st))) (15 # 100)); simpl;
    try match goal with |- context [Qltb 0 ?p] => destruct (Qltb 0 p) end;
    simpl;
    rewrite ?typed_sentences_app, ?app_nil_r; split; reflexivity.
Qed.

Lemma correction_typed esc sentence st :
  let r := spontaneous_correction esc sentence st in
  typed_sentences (trace (snd r)) = typed_sentences (trace st)
  /\ use_copy_paste (self (snd r)) = use_copy_paste (self st)
  /\ ((forall s e v, fst (fst (esc s e v)) = Returned tt) ->
      fst r = Returned tt).
Proof.
  cbv zeta. unfold spontaneous_correction, bind, random. simpl.
  destruct (_ && _).
  - rewrite HumanizerFacts.call_engine_trace, HumanizerFacts.call_engine_self,
      typed_sentences_app.
    simpl. rewrite app_nil_r. repeat split.
    intros Hesc. unfold call_engine. simpl.
    specialize (Hesc sentence (engine (self st))
                  {| draws := draws (env st); cursor := S (cursor (env st));
                     clock := clock (env st) |}).
    destruct (esc _ _ _) as [[r e] v]. exact Hesc.
  - repeat split.
Qed.

Lemma type_sentence_typed etx sentence st :
  let r := type_sentence etx sentence st in
  typed_sentences (trace (snd r))
  = typed_sentences (trace st) ++ [(sentence, use_copy_paste (self st))]
  /\ use_copy_paste (self (snd r)) = use_copy_paste (self st)
  /\ ((forall s b e v, fst (fst (etx s b e v)) = Returned true) ->
      fst r = Returned true).
Proof.
  cbv zeta. unfold type_sentence. rewrite HumanizerFacts.bind_get.
  rewrite HumanizerFacts.call_engine_trace, HumanizerFacts.call_engine_self,
    typed_sentences_app.
  repeat split. intros Hetx. unfold call_engine.
  specialize (Hetx sentence (use_copy_paste (self st)) (engine (self st))
                (env st)).
  destruct (etx _ _ _ _) as [[r e] v]. exact Hetx.
Qed.

Lemma type_sentences_cons etx esc first sentence more st :
  type_sentences etx esc first (sentence :: more) st
  = let st0 := snd (thinking_pause first st) in
    let '(r1, st1) := type_sentence etx sentence st0 in
    match r1 with
    | Returned true =>
        let '(r2, st2) := spontaneous_correction esc sentence st1 in
        match r2 with
        | Returned _ => type_sentences etx esc false more st2
        | Raised => (Raised, st2)
        end
    | Returned false => (Returned false, st1)
    | Raised => (Raised, st1)
    end.
Proof.
  change (type_sentences etx esc first (sentence :: more))
    with (bind (thinking_pause first) (fun _ =>
            bind (type_sentence etx sentence) (fun success =>
              if negb success then ret false
              else bind (spontaneous_correction esc sentence) (fun _ =>
                     type_sentences etx esc false more)))).
  destruct (thinking_pause_typed first st) as [Hp _].
  cbv zeta. unfold bind at 1.
  destruct (thinking_pause first st) as [r0 st0]. simpl in Hp. subst r0.
  cbn [snd]. unfold bind at 1.
  destruct (type_sentence etx sentence st0) as [[[|]|] st1]; reflexivity.
Qed.

Lemma type_sentences_typed etx esc sentences : forall first st,
  let r := type_sentences etx esc first sentences st in
  exists typed rest,
    sentences = typed ++ rest
    /\ typed_sentences (trace (snd r))
       = typed_sentences (trace st)
         ++ List.map (fun s => (s, use_copy_paste (self st))) typed
    /\ (fst r = Returned true -> rest = [])
    /\ ((forall s b e v, fst (fst (etx s b e v)) = Returned true) ->
        (forall s e v, fst (fst (esc s e v)) = Returned tt) ->
        fst r = Returned true).
Proof.
  induction sentences as [|sentence more IH]; intros first st; cbv zeta.
  - exists [], []. simpl. rewrite app_nil_r. auto.
  - rewrite type_sentences_cons. cbv zeta.
    destruct (thinking_pause_typed first st) as [_ Hp2].
    pose proof (HumanizerFacts.thinking_pause_self first st) as Hp3.
    set (st0 := snd (thinking_pause first st)) in *. clearbody st0.
    destruct (type_sentence_typed etx sentence st0) as (Ht1 & Ht2 & Ht3).
    destruct (type_sentence etx sentence st0) as [r1 st1].
    cbn [fst snd] in Ht1, Ht2, Ht3.
    rewrite Hp2, Hp3 in Ht1. rewrite Hp3 in Ht2.
    destruct r1 as [[|]|].
    + destruct (correction_typed esc sentence st1) as (Hc1 & Hc2 & Hc3).
      destruct (spontaneous_correction esc sentence st1) as [r2 st2].
      cbn [fst snd] in Hc1, Hc2, Hc3.
      destruct r2 as [[]|].
      * destruct (IH false st2) as (typed & rest & Hs & Htr & Hall & Hok).
        exists (sentence :: typed), rest. split; [simpl; congruence|].
        split; [|split].
        -- rewrite Htr, Hc1, Ht1, Hc2, Ht2, <- app_assoc. reflexivity.
        -- exact Hall.
        -- exact Hok.
      * exists [sentence], more. cbn [fst snd List.map]. split; [reflexivity|].
        split; [congruence|]. split; [discriminate|].
        intros _ Hesc. specialize (Hc3 Hesc). discriminate.
    + exists [sentence], more. cbn [fst snd List.map]. split; [reflexivity|].
      split; [exact Ht1|]. split; [discriminate|].
      intros Hetx _. specialize (Ht3 Hetx). discriminate.
    + exists [sentence], more. cbn [fst snd List.map]. split; [reflexivity|].
      split; [exact Ht1|]. split; [discriminate|].
      intros Hetx _. exact (Ht3 Hetx).
Qed.

(** X16. Whatever the engine does, the sentences that [_type_text_naturally]
    hands to [TypingEngine.type_text] are the first sentences of
    [_split_into_sentences], in order, each once, each with the humanizer's
    [use_copy_paste]: all of them when it returns [True], and it returns
    [True] when the engine types every sentence and its corrections do not
    raise. *)
Theorem engine_types_sentences_in_order etx esc text st :
  let r := _type_text_naturally etx esc text st in
  exists typed rest,
    _split_into_sentences text = typed ++ rest
    /\ typed_sentences (trace (snd r))
       = typed_sentences (trace st)
         ++ List.map (fun s => (s, use_copy_paste (self st))) typed
    /\ (fst r = Returned true -> rest = [])
    /\ ((forall s b e v, fst (fst (etx s b e v)) = Returned true) ->
        (forall s e v, fst (fst (esc s e v)) = Returned tt) ->
        fst r = Returned true).
Proof.
  unfold _type_text_naturally.
  exact (type_sentences_typed etx esc (_split_into_sentences text) true st).
Qed.

Lemma engine_types_sentences_in_order_example :
  let r := _type_text_naturally Examples.quiet_type_text
             Examples.quiet_correction (lit "Hello there. How are you?")
             (Examples.at_time 100) in
  fst r = Returned true
  /\ typed_sentences (trace (snd r))
     = [(lit "Hello there.", true); (lit "How are you?", true)].
Proof.
  pose proof (engine_types_sentences_in_order Examples.quiet_type_text
                Examples.quiet_correction (lit "Hello there. How are you?")
                (Examples.at_time 100)) as H.
  cbv zeta in H. destruct H as (typed & rest & Hs & Ht & Hall & Hok).
  assert (Hr : fst (_type_text_naturally Examples.quiet_type_text
                      Examples.quiet_correction
                      (lit "Hello there. How are you?")
                      (Examples.at_time 100)) = Returned true)
    by (apply Hok; reflexivity).
  split; [exact Hr|]. rewrite Ht.
  specialize (Hall Hr). subst rest. rewrite app_nil_r in Hs. rewrite <- Hs.
  reflexivity.
Defined.

(** *** Repeated adaptation *)

Lemma shrink_step f w M :
  (0 < f)%Q -> (f < 1)%Q -> (0 <= w)%Q -> (w <= inject_Z M)%Q -> 0 <= M ->
  0 <= py_int (w * f) <= Z.max 0 (M - 1).
Proof.
  intros Hf0 Hf1 Hw0 HwM HM.
  destruct (py_int_spec (w * f)) as (r & Hx & Hlo & Hhi & Hpos & _).
  assert (Hwf : (0 <= w * f)%Q) by nra.
  specialize (Hpos Hwf).
  assert (H1 : (inject_Z (-1) < inject_Z (py_int (w * f)))%Q).
  { change (inject_Z (-1)) with (-1)%Q. lra. }
  apply (proj1 (inject_Z_lt _ _)) in H1.
  split; [lia|].
  destruct (Z.eq_dec M 0) as [->|HM0].
  - change (inject_Z 0) with 0%Q in HwM.
    assert (H2 : (inject_Z (py_int (w * f)) < inject_Z 1)%Q).
    { change (inject_Z 1) with 1%Q. nra. }
    apply (proj1 (inject_Z_lt _ _)) in H2. lia.
  - assert (HM1 : (1 <= inject_Z M)%Q).
    { change 1%Q with (inject_Z 1). apply (proj2 (inject_Z_le _ _)). lia. }
    assert (H2 : (inject_Z (py_int (w * f)) < inject_Z M)%Q) by nra.
    apply (proj1 (inject_Z_lt _ _)) in H2. lia.
Qed.

Lemma careful_factor text :
  _is_code_text text = true
  \/ (_is_email_text text = false /\ _is_formal_text text = true) ->
  exists f, (0 < f)%Q /\ (f < 1)%Q
    /\ forall h, base_wpm (engine (_adapt_to_context text h))
                 = inject_Z (py_int (base_wpm (engine h) * f)).
Proof.
  intros [Hc | [He Hf]].
  - exists (8 # 10). repeat split. intros h. unfold _adapt_to_context.
    rewrite Hc. reflexivity.
  - destruct (_is_code_text text) eqn:Hc.
    + exists (8 # 10). repeat split. intros h. unfold _adapt_to_context.
      rewrite Hc. reflexivity.
    + exists (9 # 10). repeat split. intros h. unfold _adapt_to_context.
      rewrite Hc, He, Hf. reflexivity.
Qed.

Lemma adapt_times_bound text h N :
  _is_code_text text = true
  \/ (_is_email_text text = false /\ _is_formal_text text = true) ->
  (0 <= base_wpm (engine h))%Q -> (base_wpm (engine h) <= inject_Z N)%Q ->
  0 <= N ->
  forall k,
    (0 <= base_wpm (engine (adapt_times k text h)))%Q
    /\ (base_wpm (engine (adapt_times k text h))
        <= inject_Z (Z.max 0 (N - Z.of_nat k)))%Q.
Proof.
  intros Htag H0 HN HN0.
  destruct (careful_factor text Htag) as (f & Hf0 & Hf1 & Hstep).
  induction k as [|k [IH0 IHN]].
  - change (adapt_times 0 text h) with h.
    replace (Z.max 0 (N - Z.of_nat 0)) with N by lia. split; assumption.
  - change (adapt_times (S k) text h)
      with (_adapt_to_context text (adapt_times k text h)).
    rewrite Hstep.
    destruct (shrink_step f _ _ Hf0 Hf1 IH0 IHN) as [Hlo Hhi]; [lia|].
    split.
    + change 0%Q with (inject_Z 0). apply (proj2 (inject_Z_le _ _)). exact Hlo.
    + apply (proj2 (inject_Z_le _ _)). lia.
Qed.



End KeyboardFacts.

(** ** WebCursor *)

Module CursorFacts.

Import WebAdjuster Cursor.
Local Open Scope cursor_scope.

(** *** Held buttons *)

Lemma released_b_sound cs : released_b cs = true -> holds_are_released cs.
Proof.
  induction cs as [|c cs IH]; intros Hb pre post Heq.
  - destruct pre; discriminate.
  - destruct pre as [|c' pre]; simpl in Heq; injection Heq as -> ->.
    + simpl in Hb. apply andb_prop in Hb as [Hex _].
      apply existsb_exists in Hex as (x & Hin & Hx).
      destruct x; try discriminate. exact Hin.
    + apply (IH ltac:(destruct c'; simpl in Hb;
                       try apply andb_prop in Hb as [_ Hb]; exact Hb) pre post).
      reflexivity.
Qed.

Lemma drop_prefix {A} (l k : list A) : drop (length l) (l ++ k) = k.
Proof. induction l as [|a l IH]; [reflexivity | exact IH]. Qed.

Ltac step_drag adjuster_move raises :=
  match goal with
  | |- context [interrupted ?e] => destruct (interrupted e) eqn:?
  | |- context [in_view ?e] => destruct (in_view e)
  | |- context [adjuster_move ?a ?b ?c ?d ?e ?f ?g ?h ?i] =>
      destruct (adjuster_move a b c d e f g h i) as [[[|? ?] ?] ?]
  | |- context [match ?t with Some _ => _ | None => _ end] =>
      lazymatch t with
      | raises _ => fail
      | _ => destruct t
      end
  | |- context [raises ?n] => destruct (raises n) as [[|]|] eqn:?
  | |- context [bool_decide ?P] => destruct (bool_decide P)
  end.

Ltac finish_drag :=
  split;
  [ intros b Hb; try discriminate Hb; apply released_b_sound;
    rewrite <- ?app_assoc, ?drop_prefix, ?app_nil_r, ?drop_all; reflexivity
  | split;
    [ discriminate
    | intros Hquiet Hmoves; try (eexists; reflexivity);
      exfalso; first [eapply Hquiet; eassumption | congruence] ] ].



(** *** Clicks *)

Lemma count_app p cs cs' : count p (cs ++ cs') = (count p cs + count p cs')%nat.
Proof. unfold count. rewrite List.filter_app, length_app. reflexivity. Qed.

Ltac step_click raises :=
  match goal with
  | |- context [Qltb ?a ?b] => destruct (Qltb a b) eqn:?
  | |- context [String.eqb ?a ?b] => destruct (String.eqb a b) eqn:?
  | |- context [match ?l with [] => _ | _ :: _ => _ end] =>
      is_var l; destruct l
  | |- context [Z.ltb ?a ?b] => destruct (Z.ltb a b) eqn:?
  | |- context [raises ?n] => destruct (raises n) as [[|]|] eqn:?
  end.

Lemma click_once_done raises randoms n d button st st' :
  click_once raises randoms n d button st = (Done tt, st') ->
  exists cs,
    calls st' = calls st ++ cs
    /\ origin_coordinates st' = origin_coordinates st
    /\ count is_press cs = 1%nat
    /\ count is_perform cs = 0%nat
    /\ press_counts cs = press_calls d button.
Proof.
  destruct st as [h o cs mv k mm].
  unfold click_once, bind, ret, get, index, call, uniform, press_calls. cbn.
  repeat (step_click raises; cbn); intros H; try discriminate;
    apply (f_equal snd) in H; cbn in H; subst st'; cbn;
    eexists; (split; [rewrite <- ?app_assoc; try reflexivity;
                      symmetry; apply app_nil_r|]);
    repeat split.
Qed.

Lemma click_once_quiet raises randoms n d button st :
  (forall k, raises k = None) ->
  (2 <= length (origin_coordinates st))%nat ->
  exists st', click_once raises randoms n d button st = (Done tt, st').
Proof.
  intros Hq Ho. destruct st as [h o cs mv k mm]. cbn in Ho.
  destruct o as [|x [|y o]]; cbn in Ho; try lia.
  unfold click_once, bind, ret, get, index, call, uniform. cbn.
  rewrite ?Hq.
  repeat (step_click raises; cbn; rewrite ?Hq); eexists; reflexivity.
Qed.

Lemma click_once_not_interrupted raises randoms n d button st :
  (forall k, raises k <> Some Interrupt) ->
  fst (click_once raises randoms n d button st) <> Failed Interrupt.
Proof.
  intros Hq. destruct st as [h o cs mv k mm].
  unfold click_once, bind, ret, get, index, call, uniform. cbn.
  repeat (step_click raises; cbn); try discriminate;
    intros _; eapply Hq; eassumption.
Qed.

Lemma click_loop_done raises randoms n d button turns : forall st st',
  click_loop raises randoms turns n d button st = (Done tt, st') ->
  exists cs,
    calls st' = calls st ++ cs
    /\ origin_coordinates st' = origin_coordinates st
    /\ count is_press cs = turns
    /\ count is_perform cs = 0%nat
    /\ press_counts cs = times turns (press_calls d button).
Proof.
  induction turns as [|turns IH]; intros st st' H.
  - injection H as <-. exists []. rewrite app_nil_r.
    destruct (press_calls d button) as [[[[a b] c] e] f]. repeat split.
  - change (click_loop raises randoms (S turns) n d button)
      with (bind (click_once raises randoms n d button)
              (fun _ => click_loop raises randoms turns n d button)) in H.
    unfold bind in H.
    destruct (click_once raises randoms n d button st) as [[[]|what] st1] eqn:H1;
      [|discriminate].
    apply click_once_done in H1 as (cs1 & Hc1 & Ho1 & Hp1 & Hf1 & Hs1).
    apply IH in H as (cs2 & Hc2 & Ho2 & Hp2 & Hf2 & Hs2).
    exists (cs1 ++ cs2). rewrite !count_app, Hp1, Hp2, Hf1, Hf2.
    split; [rewrite Hc2, Hc1, app_assoc; reflexivity|].
    split; [congruence|]. split; [lia|]. split; [lia|].
    unfold press_counts in *. rewrite !count_app.
    destruct (press_calls d button) as [[[[a b] c] e] f].
    injection Hs1 as -> -> -> -> ->. cbn [times] in *.
    injection Hs2 as -> -> -> -> ->.
    repeat f_equal; lia.
Qed.

Lemma click_loop_quiet raises randoms n d button turns : forall st,
  (forall k, raises k = None) ->
  (2 <= length (origin_coordinates st))%nat ->
  exists st', click_loop raises randoms turns n d button st = (Done tt, st').
Proof.
  induction turns as [|turns IH]; intros st Hq Ho.
  - exists st. reflexivity.
  - change (click_loop raises randoms (S turns) n d button)
      with (bind (click_once raises randoms n d button)
              (fun _ => click_loop raises randoms turns n d button)).
    unfold bind.
    destruct (click_once_quiet raises randoms n d button st Hq Ho) as [st1 H1].
    rewrite H1.
    apply click_once_done in H1 as (_ & _ & Ho1 & _).
    apply IH; [exact Hq | rewrite Ho1; exact Ho].
Qed.

Lemma click_loop_not_interrupted raises randoms n d button turns : forall st,
  (forall k, raises k <> Some Interrupt) ->
  fst (click_loop raises randoms turns n d button st) <> Failed Interrupt.
Proof.
  induction turns as [|turns IH]; intros st Hq; [discriminate|].
  change (click_loop raises randoms (S turns) n d button)
    with (bind (click_once raises randoms n d button)
            (fun _ => click_loop raises randoms turns n d button)).
  unfold bind.
  pose proof (click_once_not_interrupted raises randoms n d button st Hq) as H1.
  destruct (click_once raises randoms n d button st) as [[[]|[|]] st1];
    cbn [fst] in *; [apply IH, Hq | discriminate | exact H1].
Qed.

(** X19. [_perform_click] never leaves by an [Exception], and it returns
    unless a [KeyboardInterrupt] or [SystemExit] is raised. When it returns
    [True], it has pressed a button exactly [number_of_clicks] times (not at
    all when that is negative) and called [perform()] once, as its last
    call; each press made the calls of [press_calls]: a long press calls
    [click_and_hold()] and [release()] once each whatever [button] is unless
    it is ['right'], and never runs the script for the middle button, which a
    short click with [button = 'middle'] runs once. It returns [True] when
    nothing raises and the position has its two coordinates. *)
Theorem perform_click_presses raises randoms n d button st :
  let r := _perform_click raises randoms n d button st in
  let cs := new_calls st (snd r) in
  fst r <> Failed Error
  /\ ((forall k, raises k <> Some Interrupt) -> exists b, fst r = Done b)
  /\ (fst r = Done true ->
      count is_press cs = Z.to_nat n
      /\ count is_perform cs = 1%nat
      /\ last cs = Some Perform
      /\ press_counts cs = times (Z.to_nat n) (press_calls d button)
      /\ ((0 < d)%Q -> button <> "right"%string ->
          count is_hold cs = Z.to_nat n
          /\ count is_release cs = Z.to_nat n
          /\ count is_click cs = 0%nat
          /\ count is_context_click cs = 0%nat
          /\ count is_script cs = 0%nat)
      /\ ((d <= 0)%Q -> button = "middle"%string ->
          count is_script cs = Z.to_nat n
          /\ count is_click cs = 0%nat
          /\ count is_hold cs = 0%nat))
  /\ ((forall k, raises k = None) ->
      (2 <= length (origin_coordinates st))%nat ->
      fst r = Done true).
Proof.
  cbv zeta. unfold _perform_click, try_except, new_calls.
  change (bind (click_loop raises randoms (Z.to_nat n) n d button)
               (fun _ => bind (call raises Perform) (fun _ => ret true)) st)
    with (match click_loop raises randoms (Z.to_nat n) n d button st with
          | (Done _, st1) =>
              bind (call raises Perform) (fun _ => ret true) st1
          | (Failed what, st1) => (Failed what, st1)
          end).
  pose proof (click_loop_not_interrupted raises randoms n d button
                (Z.to_nat n) st) as Hni.
  destruct (click_loop raises randoms (Z.to_nat n) n d button st)
    as [[[]|[|]] st1] eqn:Hloop; cbn [fst] in Hni.
  - apply click_loop_done in Hloop as (cs & Hc & Ho & Hp & Hf & Hs).
    unfold bind, call, ret.
    destruct (raises (length (calls st1))) as [[|]|] eqn:Hr;
      cbn [fst snd calls].
    + split; [discriminate|]. split; [eauto|]. split; [discriminate|].
      intros Hq. rewrite Hq in Hr. discriminate.
    + split; [discriminate|].
      split; [intros Hq; exfalso; eapply Hq; eassumption|].
      split; [discriminate|]. intros Hq. rewrite Hq in Hr. discriminate.
    + split; [discriminate|]. split; [eauto|]. split; [|reflexivity].
      intros _.
      assert (Hcounts : press_counts (cs ++ [Perform])
                        = times (Z.to_nat n) (press_calls d button)).
      { rewrite <- Hs. unfold press_counts. rewrite !count_app. cbn.
        rewrite !Nat.add_0_r. reflexivity. }
      rewrite Hc, <- app_assoc, drop_prefix.
      split; [rewrite count_app, Hp; cbn; lia|].
      split; [rewrite count_app, Hf; cbn; lia|].
      split; [apply last_snoc|].
      split; [exact Hcounts|].
      unfold press_counts, press_calls in Hcounts. split.
      * intros Hd Hb. apply Qltb_lt in Hd. apply String.eqb_neq in Hb.
        rewrite Hd, Hb in Hcounts. cbn [times] in Hcounts.
        injection Hcounts as ? ? ? ? ?. repeat split; lia.
      * intros Hd ->. apply Qltb_ge in Hd. rewrite Hd in Hcounts.
        cbn [String.eqb Ascii.eqb Bool.eqb times] in Hcounts.
        injection Hcounts as ? ? ? ? ?. repeat split; lia.
  - cbn [fst snd]. split; [discriminate|]. split; [eauto|].
    split; [discriminate|]. intros Hq Ho.
    destruct (click_loop_quiet raises randoms n d button (Z.to_nat n) st Hq Ho)
      as [st2 H2].
    congruence.
  - cbn [fst snd]. split; [discriminate|].
    split; [intros Hq; exfalso; exact (Hni Hq eq_refl)|].
    split; [discriminate|]. intros Hq Ho.
    destruct (click_loop_quiet raises randoms n d button (Z.to_nat n) st Hq Ho)
      as [st2 H2].
    congruence.
Qed.

Lemma perform_click_presses_example :
  let r := _perform_click MoreExamples.nothing_raises MoreExamples.half 2
             (1 # 2) "middle" MoreExamples.cursor_at_origin in
  let cs := new_calls MoreExamples.cursor_at_origin (snd r) in
  fst r = Done true
  /\ count is_press cs = 2%nat
  /\ count is_perform cs = 1%nat
  /\ last cs = Some Perform
  /\ (count is_hold cs = 2%nat
      /\ count is_release cs = 2%nat
      /\ count is_click cs = 0%nat
      /\ count is_context_click cs = 0%nat
      /\ count is_script cs = 0%nat).
Proof.
  pose proof (perform_click_presses MoreExamples.nothing_raises
                MoreExamples.half 2 (1 # 2) "middle"
                MoreExamples.cursor_at_origin)
    as H.
  cbv zeta in H. destruct H as (_ & _ & Hdone & Hquiet).
  assert (Hr : fst (_perform_click MoreExamples.nothing_raises
                      MoreExamples.half 2 (1 # 2) "middle"
                      MoreExamples.cursor_at_origin) = Done true)
    by (apply Hquiet; [reflexivity | simpl; lia]).
  destruct (Hdone Hr) as (H1 & H2 & H3 & _ & H5 & _).
  split; [exact Hr|]. split; [exact H1|]. split; [exact H2|].
  split; [exact H3|]. apply H5; [reflexivity | discriminate].
Defined.

(** *** The two records of the position *)

Lemma adjuster_move_sync cao gen self target origin absolute relative curve
    steady draws outcome a b :
  Adjuster.origin_coordinate self = [a; b] ->
  origin = None \/ origin = Some [a; b] ->
  let '(final_coords, self', _) :=
    Adjuster.move_to cao gen self target origin absolute relative curve steady
      draws outcome in
  Adjuster.origin_coordinate self' = final_coords
  /\ length final_coords = 2%nat.
Proof.
  intros Ho Horigin. unfold Adjuster.move_to.
  destruct Horigin as [-> | ->]; cbv beta iota zeta; rewrite ?Ho;
    (destruct (Adjuster._calculate_target_coordinates cao target (a, b)
                 absolute relative draws) as [[x y]|]; [|auto]);
    (destruct (match curve with
               | Some points => Some points
               | None => gen [a; b] (x, y) steady
               end) as [points|]; [|auto]);
    destruct (_execute_web_movement _ points (a, b) (x, y) outcome)
      as [moves final]; split; reflexivity.
Qed.

Lemma keeps_ret {A} (a : A) : keeps_sync (ret a).
Proof. intros st H. exact H. Qed.

Lemma keeps_bind {A B} (c : W A) (k : A -> W B) :
  keeps_sync c -> (forall a, keeps_sync (k a)) -> keeps_sync (bind c k).
Proof.
  intros Hc Hk st H. unfold bind. specialize (Hc st H).
  destruct (c st) as [[a|what] st1]; [apply Hk|]; exact Hc.
Qed.

Lemma keeps_try_except {A} (body handler : W A) :
  keeps_sync body -> keeps_sync handler -> keeps_sync (try_except body handler).
Proof.
  intros Hb Hh st H. unfold try_except. specialize (Hb st H).
  destruct (body st) as [[a|[|]] st1]; [|apply Hh|]; exact Hb.
Qed.

Lemma keeps_try_except_any {A} (body handler : W A) :
  keeps_sync body -> keeps_sync handler ->
  keeps_sync (try_except_any body handler).
Proof.
  intros Hb Hh st H. unfold try_except_any. specialize (Hb st H).
  destruct (body st) as [[a|what] st1]; [|apply Hh]; exact Hb.
Qed.

Lemma keeps_get : keeps_sync get.
Proof. intros st H. exact H. Qed.

Lemma keeps_index l i : keeps_sync (index l i).
Proof. intros st H. unfold index. destruct (nth_error l i); exact H. Qed.

Lemma keeps_call raises c : keeps_sync (call raises c).
Proof. intros st H. exact H. Qed.

Lemma keeps_uniform randoms a b : keeps_sync (uniform randoms a b).
Proof. intros st H. exact H. Qed.

Lemma keeps_human_move_to cao gen e target absolute relative steady :
  keeps_sync (human_move_to cao gen e target None absolute relative steady).
Proof.
  intros st [Hs Hl]. unfold human_move_to.
  destruct (origin_coordinates st) as [|a [|b [|c o]]] eqn:Ho; try discriminate.
  pose proof (adjuster_move_sync cao gen (human st) target None absolute
                relative None steady (element_draws e) (performed e) a b
                (eq_sym Hs) (or_introl eq_refl)) as Hm.
  destruct (Adjuster.move_to _ _ _ _ _ _ _ _ _ _ _) as [[final h'] moves].
  destruct Hm as [Hm1 Hm2]. split; [symmetry; exact Hm1 | exact Hm2].
Qed.

Lemma keeps_move_to cao gen move_env target relative absolute steady :
  keeps_sync (move_to cao gen move_env target relative absolute None steady).
Proof.
  intros st [Hs Hl]. unfold move_to, try_except, bind, next_move,
    scroll_into_view_of_element, ret, get, human_move_to.
  cbn [origin_coordinates human calls moved drawn moves_made].
  destruct (interrupted (move_env (moves_made st))); [split; assumption|].
  destruct (in_view (move_env (moves_made st))); cbn [negb];
    [|split; assumption].
  destruct (origin_coordinates st) as [|a [|b [|c o]]] eqn:Ho; try discriminate.
  pose proof (adjuster_move_sync cao gen (human st) target (Some [a; b])
                absolute relative None steady
                (element_draws (move_env (moves_made st)))
                (performed (move_env (moves_made st))) a b
                (eq_sym Hs) (or_intror eq_refl)) as Hm.
  destruct (Adjuster.move_to _ _ _ _ _ _ _ _ _ _ _) as [[final h'] moves].
  destruct Hm as [Hm1 Hm2]. split; [symmetry; exact Hm1 | exact Hm2].
Qed.

Lemma keeps_next_move move_env : keeps_sync (next_move move_env).
Proof. intros st H. exact H. Qed.

Lemma keeps_click_loop raises randoms n d button turns :
  keeps_sync (click_loop raises randoms turns n d button).
Proof.
  induction turns as [|turns IH]; [apply keeps_ret|].
  apply keeps_bind; [|intros _; exact IH].
  unfold click_once.
  repeat first
    [ apply keeps_bind; [|intros ?]
    | apply keeps_call | apply keeps_uniform | apply keeps_ret
    | apply keeps_get | apply keeps_index
    | match goal with |- keeps_sync (if ?b then _ else _) => destruct b end ].
Qed.

Ltac keeps_step :=
  first
    [ apply keeps_move_to | apply keeps_human_move_to
    | apply keeps_click_loop
    | apply keeps_call | apply keeps_uniform | apply keeps_ret
    | apply keeps_get | apply keeps_index | apply keeps_next_move
    | apply keeps_try_except_any
    | apply keeps_try_except
    | apply keeps_bind; [|intros ?]
    | match goal with
      | |- keeps_sync (if ?b then _ else _) => destruct b
      | |- keeps_sync (match ?t with Some _ => _ | None => _ end) => destruct t
      end ].

Lemma keeps_invoke cao gen raises randoms move_env m :
  keeps_sync (fun st => (Done tt, invoke cao gen raises randoms move_env m st)).
Proof.
  intros st H. cbn [snd].
  destruct m; cbn [invoke];
    match goal with
    | |- in_sync (snd (?c st)) =>
        assert (Hk : keeps_sync c); [|exact (Hk st H)]
    end;
    unfold click_on, _perform_click, move_by_offset, drag_and_drop,
      control_scroll_bar, release_and_fail; repeat keeps_step.
Qed.

(** X20. As long as the methods that move the pointer are called without
    [origin_coordinates], the cursor and its adjuster agree on the position
    after every call, whatever raises and whatever the driver does. *)
Theorem cursor_and_adjuster_agree cao gen raises randoms move_env ms st :
  in_sync st -> in_sync (session cao gen raises randoms move_env ms st).
Proof.
  revert st. induction ms as [|m ms IH]; intros st H; [exact H|].
  apply IH. exact (keeps_invoke cao gen raises randoms move_env m st H).
Qed.

Lemma cursor_and_adjuster_agree_example :
  in_sync (session MoreExamples.proportional_offset MoreExamples.straight_curve
             MoreExamples.fourth_call_raises MoreExamples.half
             MoreExamples.all_in_view MoreExamples.a_session
             MoreExamples.cursor_at_origin).
Proof.
  apply (cursor_and_adjuster_agree MoreExamples.proportional_offset
           MoreExamples.straight_curve MoreExamples.fourth_call_raises
           MoreExamples.half MoreExamples.all_in_view MoreExamples.a_session
           MoreExamples.cursor_at_origin).
  split; reflexivity.
Defined.

End CursorFacts.

(** ** More tests *)

Module MoreTests.

Import WebAdjuster Cursor MoreExamples.

Example drag_and_drop_calls :
  let r := drag_and_drop proportional_offset straight_curve nothing_raises
             all_in_view (Adjuster.Position [10; 10]%Q)
             (Some (Adjuster.Element a_button)) None None true
             cursor_at_origin in
  fst r = Done true
  /\ calls (snd r) = [ClickAndHold; Perform; Wait (1 # 10); Release; Perform]
  /\ origin_coordinates (snd r) = [170; 68]
  /\ moved (snd r) = [(10, 10); (160, 58)].
Proof. vm_compute. repeat split. Qed.

Example drag_and_drop_failing_release :
  let r := drag_and_drop proportional_offset straight_curve fourth_call_raises
             all_in_view (Adjuster.Position [10; 10]%Q)
             (Some (Adjuster.Element a_button)) None None true
             cursor_at_origin in
  fst r = Done false
  /\ calls (snd r)
     = [ClickAndHold; Perform; Wait (1 # 10); Release; Release; Perform].
Proof. vm_compute. repeat split. Qed.

Example long_press_with_middle_button :
  let r := _perform_click nothing_raises half 1 (1 # 2) "middle"
             cursor_at_origin in
  fst r = Done true
  /\ calls (snd r) = [ClickAndHold; Pause (1 # 2); Release; Perform].
Proof. vm_compute. repeat split. Qed.

Example no_click_for_a_negative_count :
  let r := _perform_click nothing_raises half (-3) 0 "left" cursor_at_origin in
  fst r = Done true /\ calls (snd r) = [Perform].
Proof. vm_compute. repeat split. Qed.

Example drag_and_drop_interrupted :
  let r := drag_and_drop proportional_offset straight_curve
             third_call_interrupted all_in_view (Adjuster.Position [10; 10]%Q)
             (Some (Adjuster.Element a_button)) None None true
             cursor_at_origin in
  fst r = Failed Interrupt
  /\ calls (snd r) = [ClickAndHold; Perform; Wait (1 # 10)].
Proof. vm_compute. repeat split. Qed.

Example drag_and_drop_interrupted_move :
  let r := drag_and_drop proportional_offset straight_curve nothing_raises
             second_move_interrupted (Adjuster.Position [10; 10]%Q)
             (Some (Adjuster.Element a_button)) None None true
             cursor_at_origin in
  fst r = Failed Interrupt
  /\ calls (snd r) = [ClickAndHold; Perform; Wait (1 # 10)].
Proof. vm_compute. repeat split. Qed.

Example scroll_bar_amount_is_clamped :
  let r := control_scroll_bar proportional_offset straight_curve
             nothing_raises half all_in_view a_button (3 # 2)
             (Str.lit "Horizontal") false cursor_at_origin in
  fst r = Done true /\ origin_coordinates (snd r) = [300; 70].
Proof. vm_compute. repeat split. Qed.

End MoreTests.
